(** * Payments-Service: outbox, inbox, idempotent commands, order state machine

    A shallow embedding of the transactional core of the two Go services
    (orders-service and payments-service) together with the properties the
    specification states about it.

    Modelling conventions.
    - A relational table with a primary key that is only ever read through
      that key is a [gmap]; a table that is scanned ([orders], [outbox]) is
      the list of its rows in insertion order, and a SQL statement is the
      corresponding list comprehension.
    - Go's [(value, error)] results are [result]; a handler running inside
      [Repo.WithTx] is a function over a [World] that threads the working
      copy of the database, and [WithTx] discards that copy on error.
    - Any database round trip may fail for reasons the program does not
      control (connection loss, bigint overflow, serialization failure).
      The [faults] schedule of a [World] decides it: every round trip pops
      one entry, [true] meaning that the call returns a database error and
      has no effect.  The empty schedule is the run without such errors.
    - Values drawn from the environment during one call (the database
      generated order id, [uuid.NewString()], the clock) are passed in as a
      [Nondet] record.
    - The mutating handlers only write to the read-through caches and only
      log their errors, so the caches are left out of them; [GetOrder],
      which answers from its cache, runs on a store that holds the cache
      beside the database.  Logging is left out.
    - Audit timestamps that no query of the source reads ([created_at] of
      outbox rows and operations, [inserted_at] of inbox rows) are left
      out of the rows. *)

From stdpp Require Import base option numbers list strings gmap sorting.
From Stdlib.Strings Require Import Byte.
From Stdlib Require DecimalString DecimalZ DecimalPos.

Open Scope Z_scope.

(** ** Errors and results *)

(** gRPC status codes used by the handlers ([google.golang.org/grpc/codes]). *)
Inductive Code :=
| InvalidArgument | NotFound | AlreadyExists | FailedPrecondition | Internal.

Inductive error :=
| ErrNoRows                               (* pgx.ErrNoRows *)
| ErrDb                                   (* any other database error *)
| ErrMarshal                              (* proto.Marshal failed *)
| ErrBroker (msg : string)                (* kafka.Writer.WriteMessages failed *)
| ErrStatus (c : Code) (msg : string).    (* status.Error(c, msg) *)

Inductive result (A : Type) :=
| Ok (a : A)
| Err (e : error).
Arguments Ok {A} a.
Arguments Err {A} e.

(** [status.FromError]: succeeds exactly on errors built by [status.Error]. *)
Definition status_FromError (e : error) : option (Code * string) :=
  match e with
  | ErrStatus c msg => Some (c, msg)
  | _ => None
  end.

Definition is_ok {A} (r : result A) : bool :=
  match r with Ok _ => true | Err _ => false end.

(** ** Bus messages and the outbox table *)

Record Message := mkMessage {
  msg_key : string;
  msg_value : list byte
}.

Record OutboxRow := mkOutboxRow {
  ob_id : Z;
  ob_topic : string;
  ob_kafka_key : string;
  ob_payload : list byte;
  ob_sent_at : option Z;
  ob_attempts : Z;
  ob_last_error : option string
}.

(** ** The world a handler runs in *)

Record World (D : Type) := mkWorld {
  db : D;                                   (* database contents *)
  faults : list bool;                       (* schedule of database errors *)
  outbox_seq : Z;                           (* the outbox id sequence *)
  writer_faults : list (option string);     (* schedule of broker errors *)
  written : list (Message * option string)  (* every WriteMessages call *)
}.
Arguments mkWorld {D}.
Arguments db {D}.
Arguments faults {D}.
Arguments outbox_seq {D}.
Arguments writer_faults {D}.
Arguments written {D}.

Definition set_db {D} (d : D) (w : World D) : World D :=
  mkWorld d (faults w) (outbox_seq w) (writer_faults w) (written w).

Definition set_faults {D} (fs : list bool) (w : World D) : World D :=
  mkWorld (db w) fs (outbox_seq w) (writer_faults w) (written w).

Definition set_outbox_seq {D} (n : Z) (w : World D) : World D :=
  mkWorld (db w) (faults w) n (writer_faults w) (written w).

Definition set_writer {D} (fs : list (option string))
    (log : list (Message * option string)) (w : World D) : World D :=
  mkWorld (db w) (faults w) (outbox_seq w) fs log.

(** A computation over the world that returns a Go-style result. *)
Definition Sess (D A : Type) := World D → result A * World D.

Definition ret {D A} (a : A) : Sess D A := λ w, (Ok a, w).

Definition fail {D A} (e : error) : Sess D A := λ w, (Err e, w).

Definition bind {D A B} (c : Sess D A) (k : A → Sess D B) : Sess D B :=
  λ w, match c w with
       | (Ok a, w') => k a w'
       | (Err e, w') => (Err e, w')
       end.

Notation "'let*' x := c 'in' k" := (bind c (λ x, k))
  (at level 10, x pattern, c at level 100, k at level 200).

(** Go's [_ = f()] and [if err := f(); err != nil { log }]: the error is
    dropped, the effects of the call stay. *)
Definition ignore_error {D A} (c : Sess D A) : Sess D unit :=
  λ w, (Ok (), (c w).2).

(** Go's [err := f()] followed by a branch on [err]: the outcome of the
    call becomes a value. *)
Definition attempt {D A} (c : Sess D A) : Sess D (result A) :=
  λ w, (Ok (c w).1, (c w).2).

(** One database round trip: pop the fault schedule, then run the
    statement on the current contents. *)
Definition query {D A} (stmt : D → result A * D) : Sess D A :=
  λ w, match faults w with
       | true :: fs => (Err ErrDb, set_faults fs w)
       | fs => let '(r, d) := stmt (db w) in (r, set_db d (set_faults (tail fs) w))
       end.

(** [Repo.WithTx]: begin, run [fn] on a working copy, commit when [fn]
    returns nil, roll back otherwise.  Begin and commit are round trips of
    their own.  Everything outside the database (the fault schedule, the
    id sequence, what was written to the broker) is not rolled back. *)
Definition WithTx {D A} (fn : Sess D A) : Sess D A :=
  λ w, match query (λ d, (Ok (), d)) w with        (* r.pool.Begin *)
       | (Err e, w1) => (Err e, w1)
       | (Ok _, w1) =>
           match fn w1 with
           | (Err e, w2) => (Err e, set_db (db w) w2)        (* tx.Rollback *)
           | (Ok a, w2) =>
               match query (λ d, (Ok (), d)) w2 with         (* tx.Commit *)
               | (Err e, w3) => (Err e, set_db (db w) w3)
               | (Ok _, w3) => (Ok a, w3)
               end
           end
       end.

(** [h.repo.Q().Stmt(...)] outside a transaction: one autocommitted
    statement. *)
Definition autocommit {D A} (stmt : D → result A * D) : Sess D A := query stmt.

(** Go's [if err != nil { ... }] after a call: run [h] on the error. *)
Definition on_error {D A} (c : Sess D A) (h : error → Sess D A) : Sess D A :=
  λ w, match c w with
       | (Ok a, w') => (Ok a, w')
       | (Err e, w') => h e w'
       end.

(** [kafka.Writer.WriteMessages] with a single message: pop the broker's
    schedule and record the call with its outcome. *)
Definition WriteMessages {D} (msg : Message) : Sess D unit :=
  λ w, match writer_faults w with
       | Some e :: fs => (Err (ErrBroker e), set_writer fs (written w ++ [(msg, Some e)]) w)
       | fs => (Ok (), set_writer (tail fs) (written w ++ [(msg, None)]) w)
       end.

(** [err.Error()]. *)
Definition error_Error (e : error) : string :=
  match e with
  | ErrNoRows => "no rows in result set"
  | ErrDb => "database error"
  | ErrMarshal => "proto: marshal failed"
  | ErrBroker msg => msg
  | ErrStatus _ msg => msg
  end.

(** Go's conversion [int32(n)] of an [int]: keep the low 32 bits, signed. *)
Definition int32 (n : Z) : Z := (n + 2 ^ 31) `mod` 2 ^ 32 - 2 ^ 31.

(** ** Events and the external libraries *)

(** [uuid.UUID]: a 128-bit identifier. *)
Definition UUID := N.

(** events/v1: PaymentRequested. *)
Record PaymentRequested := mkPaymentRequested {
  rq_event_id : string;
  rq_occurred_at : Z;
  rq_order_id : string;
  rq_user_id : string;
  rq_amount : Z
}.

Inductive PaymentResultStatus :=
| STATUS_UNSPECIFIED
| STATUS_SUCCESS
| STATUS_FAIL_NO_ACCOUNT
| STATUS_FAIL_NOT_ENOUGH_FUNDS
| STATUS_FAIL_INTERNAL.

Global Instance PaymentResultStatus_eq_dec : EqDecision PaymentResultStatus.
Proof. solve_decision. Defined.

(** events/v1: PaymentResult. *)
Record PaymentResult := mkPaymentResult {
  rs_event_id : string;
  rs_occurred_at : Z;
  rs_order_id : string;
  rs_user_id : string;
  rs_status : PaymentResultStatus;
  rs_reason : string
}.

(** What the program takes from [github.com/google/uuid] and from the
    protobuf runtime.  Their implementations are not part of the
    repository; every statement below holds for all of them. *)
Class Wire := {
  uuid_Parse : string → option UUID;
  uuid_String : UUID → string;
  unmarshal_PaymentRequested : list byte → option PaymentRequested;
  unmarshal_PaymentResult : list byte → option PaymentResult;
  marshal_PaymentRequested : PaymentRequested → option (list byte);
  marshal_PaymentResult : PaymentResult → option (list byte)
}.

(** The values one call draws from its environment. *)
Record Nondet := mkNondet {
  nd_uuid : UUID;          (* the order id the database generates *)
  nd_event_id : string;    (* uuid.NewString() *)
  nd_now : Z;              (* the service's clock, timestamppb.Now() *)
  nd_db_now : Z            (* the database's clock, now() *)
}.

(** Lift an optional value into a computation. *)
Definition of_option {D A} (o : option A) (e : error) : Sess D A :=
  match o with Some a => ret a | None => fail e end.

(** ** The outbox table, shared by both services *)

(** Modelled from the spec: the InsertOutbox query of either service is not
    in the sources.  An outbox row is appended with the next id of the
    sequence, unsent, with no attempt recorded. *)
Definition InsertOutbox {D} (get : D → list OutboxRow)
    (set : list OutboxRow → D → D)
    (topic kafka_key : string) (payload : list byte) : Sess D Z :=
  λ w, let id := outbox_seq w in
       let row := mkOutboxRow id topic kafka_key payload None 0 None in
       query (λ d, (Ok id, set (get d ++ [row]) d)) (set_outbox_seq (id + 1) w).

(** Modelled from the spec: the LockUnsentOutbox query is not in the
    sources.  Lock up to [limit] of the oldest unsent rows; rows are kept in
    id order, and with one publisher no row is locked by anyone else.  A
    limit that is not positive locks no row. *)
Definition LockUnsentOutbox {D} (get : D → list OutboxRow) (limit : Z)
    : D → result (list OutboxRow) * D :=
  λ d, (Ok (take (Z.to_nat limit)
              (filter (λ r, ob_sent_at r = None) (get d))), d).

(** Modelled from the spec: what MarkOutboxSent and MarkOutboxAttemptFailed
    do to one row of the table; rows with another id are left alone. *)
Definition mark_sent (now id : Z) (r : OutboxRow) : OutboxRow :=
  if bool_decide (ob_id r = id)
  then mkOutboxRow (ob_id r) (ob_topic r) (ob_kafka_key r) (ob_payload r)
                   (Some now) (ob_attempts r) (ob_last_error r)
  else r.

Definition mark_failed (id : Z) (last_error : string) (r : OutboxRow) : OutboxRow :=
  if bool_decide (ob_id r = id)
  then mkOutboxRow (ob_id r) (ob_topic r) (ob_kafka_key r) (ob_payload r)
                   (ob_sent_at r) (ob_attempts r + 1) (Some last_error)
  else r.

(** Modelled from the spec: the MarkOutboxSent query is not in the sources.
    On success the publisher sets [sent_at] of the row with this id. *)
Definition MarkOutboxSent {D} (get : D → list OutboxRow)
    (set : list OutboxRow → D → D) (now id : Z) : D → result unit * D :=
  λ d, (Ok (), set (mark_sent now id <$> get d) d).

(** Modelled from the spec: the MarkOutboxAttemptFailed query is not in the
    sources.  On failure the publisher increments [attempts] and records
    [last_error] of the row with this id. *)
Definition MarkOutboxAttemptFailed {D} (get : D → list OutboxRow)
    (set : list OutboxRow → D → D) (id : Z) (last_error : string)
    : D → result unit * D :=
  λ d, (Ok (), set (mark_failed id last_error <$> get d) d).

(** ** Payments service *)

Module Payments.

Record TopupIdempotencyRow := mkTopupRow {
  ti_amount : Z;
  ti_balance_after : Z
}.

Record OperationRow := mkOperationRow {
  op_user_id : string;
  op_amount : Z
}.

(** The tables of the payments database. *)
Record DB := mkDB {
  accounts : gmap string Z;                                 (* user_id ↦ balance *)
  payment_operations : gmap UUID OperationRow;              (* keyed by order_id *)
  topup_idempotency : gmap (string * string) TopupIdempotencyRow;
  inbox : gmap UUID UUID;                                   (* message_id ↦ order_id *)
  outbox : list OutboxRow
}.

Definition set_accounts (a : gmap string Z) (d : DB) : DB :=
  mkDB a (payment_operations d) (topup_idempotency d) (inbox d) (outbox d).
Definition set_payment_operations (o : gmap UUID OperationRow) (d : DB) : DB :=
  mkDB (accounts d) o (topup_idempotency d) (inbox d) (outbox d).
Definition set_topup_idempotency
    (t : gmap (string * string) TopupIdempotencyRow) (d : DB) : DB :=
  mkDB (accounts d) (payment_operations d) t (inbox d) (outbox d).
Definition set_inbox (i : gmap UUID UUID) (d : DB) : DB :=
  mkDB (accounts d) (payment_operations d) (topup_idempotency d) i (outbox d).
Definition set_outbox (o : list OutboxRow) (d : DB) : DB :=
  mkDB (accounts d) (payment_operations d) (topup_idempotency d) (inbox d) o.

Definition empty_db : DB := mkDB ∅ ∅ ∅ ∅ [].

(** The row type sqlc returns for the accounts table. *)
Record Account := mkAccount {
  acc_user_id : string;
  acc_balance : Z
}.

(** *** Queries *)

(** topup_idempotency.sql, InsertTopupIdempotency: insert with
    [balance_after = 0], do nothing on a key conflict, report 1 or 0. *)
Definition InsertTopupIdempotency (user_id key : string) (amount : Z)
    : DB → result Z * DB :=
  λ d, match topup_idempotency d !! (user_id, key) with
       | Some _ => (Ok 0, d)
       | None =>
           (Ok 1, set_topup_idempotency
                    (<[(user_id, key) := mkTopupRow amount 0]> (topup_idempotency d)) d)
       end.

(** topup_idempotency.sql, GetTopupIdempotency (:one). *)
Definition GetTopupIdempotency (user_id key : string)
    : DB → result TopupIdempotencyRow * DB :=
  λ d, match topup_idempotency d !! (user_id, key) with
       | Some row => (Ok row, d)
       | None => (Err ErrNoRows, d)
       end.

(** topup_idempotency.sql, SetTopupIdempotencyBalance (:one, RETURNING). *)
Definition SetTopupIdempotencyBalance (user_id key : string) (balance_after : Z)
    : DB → result Z * DB :=
  λ d, match topup_idempotency d !! (user_id, key) with
       | Some row =>
           (Ok balance_after,
            set_topup_idempotency
              (<[(user_id, key) := mkTopupRow (ti_amount row) balance_after]>
                 (topup_idempotency d)) d)
       | None => (Err ErrNoRows, d)
       end.

(** topup_idempotency.sql, DeleteTopupIdempotency (:exec). *)
Definition DeleteTopupIdempotency (user_id key : string) : DB → result unit * DB :=
  λ d, (Ok (), set_topup_idempotency (delete (user_id, key) (topup_idempotency d)) d).

(** Modelled from the spec: the CreateAccount query is not in the sources.
    Insert the account (balance 0); when one already exists for the user no
    row comes back, which the handler reports as already_exists. *)
Definition CreateAccount (user_id : string) : DB → result Account * DB :=
  λ d, match accounts d !! user_id with
       | Some _ => (Err ErrNoRows, d)
       | None => (Ok (mkAccount user_id 0), set_accounts (<[user_id := 0]> (accounts d)) d)
       end.

(** Modelled from the spec: the CreateAccountIdempotent query is not in the
    sources.  An upsert-style insert that tolerates a pre-existing account
    row for the same user and returns the current balance. *)
Definition CreateAccountIdempotent (user_id : string) : DB → result Account * DB :=
  λ d, match accounts d !! user_id with
       | Some b => (Ok (mkAccount user_id b), d)
       | None => (Ok (mkAccount user_id 0), set_accounts (<[user_id := 0]> (accounts d)) d)
       end.

(** Modelled from the spec: the TopUp query is not in the sources.  Add
    [amount] to the balance of the user's account and return the updated
    row; no row comes back when the account does not exist. *)
Definition TopUp (user_id : string) (amount : Z) : DB → result Account * DB :=
  λ d, match accounts d !! user_id with
       | Some b =>
           (Ok (mkAccount user_id (b + amount)),
            set_accounts (<[user_id := b + amount]> (accounts d)) d)
       | None => (Err ErrNoRows, d)
       end.

(** Modelled from the spec: the AccountExists query is not in the sources.
    It reports whether the user has an account row. *)
Definition AccountExists (user_id : string) : DB → result bool * DB :=
  λ d, (Ok (bool_decide (is_Some (accounts d !! user_id))), d).

(** Modelled from the spec: the InsertInboxCheck query is not in the
    sources.  Insert the inbox record keyed by the message id; a duplicate
    insert reports 0 and leaves the table as it is. *)
Definition InsertInboxCheck (message_id order_id : UUID) : DB → result Z * DB :=
  λ d, match inbox d !! message_id with
       | Some _ => (Ok 0, d)
       | None => (Ok 1, set_inbox (<[message_id := order_id]> (inbox d)) d)
       end.

(** Modelled from the spec: the TryDeductOnce query is not in the sources.
    A single statement that, conditioned on [account.user_id = user_id] and
    [account.balance ≥ amount], subtracts [amount] and records an operation
    row keyed by [order_id]; an existing operation row for the order
    prevents a second debit.  It reports whether an operation row was
    inserted. *)
Definition TryDeductOnce (order_id : UUID) (user_id : string) (amount : Z)
    : DB → result Z * DB :=
  λ d, match payment_operations d !! order_id with
       | Some _ => (Ok 0, d)
       | None =>
           match accounts d !! user_id with
           | Some b =>
               if bool_decide (amount ≤ b)
               then (Ok 1,
                     set_payment_operations
                       (<[order_id := mkOperationRow user_id amount]> (payment_operations d))
                       (set_accounts (<[user_id := b - amount]> (accounts d)) d))
               else (Ok 0, d)
           | None => (Ok 0, d)
           end
       end.

(** *** gRPC handlers (internal/grpc/handlers.go) *)

Record CreateAccountRequest := mkCreateAccountRequest {
  ca_user_id : string;
  ca_idempotency_key : string
}.

Record TopUpRequest := mkTopUpRequest {
  tu_user_id : string;
  tu_amount : Z;
  tu_idempotency_key : string
}.

(** [Handlers.CreateAccount]; the response carries the account. *)
Definition Handlers_CreateAccount (req : CreateAccountRequest) : Sess DB Account :=
  let userID := ca_user_id req in
  if bool_decide (userID = "") then
    fail (ErrStatus InvalidArgument "user_id is required")
  else
    let idemKey := ca_idempotency_key req in
    if bool_decide (idemKey = "") then
      on_error (autocommit (CreateAccount userID))
        (λ err, match err with
                | ErrNoRows => fail (ErrStatus AlreadyExists "account already exists")
                | _ => fail (ErrStatus Internal "failed to create account")
                end)
    else
      on_error (autocommit (CreateAccountIdempotent userID))
        (λ _, fail (ErrStatus Internal "failed to create account")).

(** The transaction body of the keyed branch of [Handlers.TopUp]; it
    returns the captured variables [(balance, updateCache)]. *)
Definition TopUp_tx (userID idemKey : string) (amount : Z) : Sess DB (Z * bool) :=
  let* inserted := query (InsertTopupIdempotency userID idemKey amount) in
  if bool_decide (inserted = 0) then
    let* existing := query (GetTopupIdempotency userID idemKey) in
    if bool_decide (ti_amount existing ≠ amount) then
      fail (ErrStatus FailedPrecondition
              "idempotency key reuse with different parameters")
    else ret (ti_balance_after existing, false)
  else
    let* account :=
      on_error (query (TopUp userID amount))
        (λ err,
           let* _ := ignore_error (query (DeleteTopupIdempotency userID idemKey)) in
           match err with
           | ErrNoRows => fail (ErrStatus NotFound "account not found")
           | _ => fail err
           end) in
    let* _ := query (SetTopupIdempotencyBalance userID idemKey (acc_balance account)) in
    ret (acc_balance account, true).

(** [Handlers.TopUp]. *)
Definition Handlers_TopUp (req : TopUpRequest) : Sess DB Account :=
  let userID := tu_user_id req in
  if bool_decide (userID = "") then
    fail (ErrStatus InvalidArgument "user_id is required")
  else if bool_decide (tu_amount req ≤ 0) then
    fail (ErrStatus InvalidArgument "amount must be > 0")
  else
    let idemKey := tu_idempotency_key req in
    if bool_decide (idemKey = "") then
      on_error (autocommit (TopUp userID (tu_amount req)))
        (λ err, match err with
                | ErrNoRows => fail (ErrStatus NotFound "account not found")
                | _ => fail (ErrStatus Internal "failed to top up")
                end)
    else
      let* (balance, _) :=
        on_error (WithTx (TopUp_tx userID idemKey (tu_amount req)))
          (λ err, match status_FromError err with
                  | Some (c, msg) => fail (ErrStatus c msg)
                  | None => fail (ErrStatus Internal "failed to top up")
                  end) in
      ret (mkAccount userID balance).

(** *** The PaymentRequested consumer (internal/kafka) *)

Section Consumer.
Context `{Wire}.

(** Structural validation of a decoded event, as [handleMessage] does it:
    both identifiers parse as UUIDs, the user is not empty, the amount is
    positive. *)
Definition validate (ev : PaymentRequested) : option (UUID * UUID) :=
  match uuid_Parse (rq_event_id ev) with
  | None => None
  | Some msgID =>
      match uuid_Parse (rq_order_id ev) with
      | None => None
      | Some orderID =>
          if bool_decide (rq_user_id ev = "") || bool_decide (rq_amount ev ≤ 0)
          then None
          else Some (msgID, orderID)
      end
  end.

(** The classification of the debit outcome in [handleMessage]. *)
Definition classify (userID : string) (opInserted : Z)
    : Sess DB (PaymentResultStatus * string) :=
  if bool_decide (opInserted = 1) then ret (STATUS_SUCCESS, "")
  else
    let* exists_ := query (AccountExists userID) in
    if negb exists_ then ret (STATUS_FAIL_NO_ACCOUNT, "account not found")
    else ret (STATUS_FAIL_NOT_ENOUGH_FUNDS, "not enough funds").

(** The transaction body of [handleMessage]. *)
Definition handleMessage_tx (resultTopic : string) (nd : Nondet)
    (ev : PaymentRequested) (msgID orderID : UUID) : Sess DB unit :=
  let* inserted := query (InsertInboxCheck msgID orderID) in
  if bool_decide (inserted = 0) then ret ()
  else
    let* opInserted := query (TryDeductOnce orderID (rq_user_id ev) (rq_amount ev)) in
    let* (status, reason) := classify (rq_user_id ev) opInserted in
    let result :=
      mkPaymentResult (nd_event_id nd) (nd_now nd) (uuid_String orderID)
                      (rq_user_id ev) status reason in
    let* payload := of_option (marshal_PaymentResult result) ErrMarshal in
    let* _ := InsertOutbox outbox set_outbox resultTopic (uuid_String orderID) payload in
    ret ().

(** [PaymentRequestedConsumer.handleMessage]; [Ok ()] is Go's nil error. *)
Definition handleMessage (resultTopic : string) (nd : Nondet) (m : Message)
    : Sess DB unit :=
  match unmarshal_PaymentRequested (msg_value m) with
  | None => ret ()
  | Some ev =>
      match validate ev with
      | None => ret ()
      | Some (msgID, orderID) =>
          WithTx (handleMessage_tx resultTopic nd ev msgID orderID)
      end
  end.

(** One iteration of [PaymentRequestedConsumer.Run] on a fetched message:
    the offset is committed ([true]) exactly when the handler returns nil. *)
Definition Run_iteration (resultTopic : string) (nd : Nondet) (m : Message)
    : World DB → bool * World DB :=
  λ w, match handleMessage resultTopic nd m w with
       | (Ok _, w') => (true, w')
       | (Err _, w') => (false, w')
       end.

End Consumer.

End Payments.

(** ** Orders service *)

Module Orders.

Record OrderRow := mkOrderRow {
  or_order_id : UUID;
  or_user_id : string;
  or_amount : Z;
  or_description : string;
  or_status : string;
  or_created_at : Z;
  or_idempotency_key : option string
}.

(** The tables of the orders database. *)
Record DB := mkDB {
  orders : list OrderRow;
  inbox : gset UUID;
  outbox : list OutboxRow
}.

Definition set_orders (o : list OrderRow) (d : DB) : DB :=
  mkDB o (inbox d) (outbox d).
Definition set_inbox (i : gset UUID) (d : DB) : DB :=
  mkDB (orders d) i (outbox d).
Definition set_outbox (o : list OutboxRow) (d : DB) : DB :=
  mkDB (orders d) (inbox d) o.

Definition empty_db : DB := mkDB [] ∅ [].

(** *** Queries (db/queries/orders.sql) *)

Definition has_order_id (id : UUID) (d : DB) : bool :=
  bool_decide (Exists (λ r, or_order_id r = id) (orders d)).

Definition has_idempotency (user_id key : string) (r : OrderRow) : Prop :=
  or_user_id r = user_id ∧ or_idempotency_key r = Some key.

Global Instance has_idempotency_dec user_id key r :
  Decision (has_idempotency user_id key r).
Proof. unfold has_idempotency. apply _. Defined.

(** CreateOrder (:one): insert a NEW order without a key.  The order id and
    [created_at] are column defaults; a clash of the generated id with an
    existing primary key is a database error. *)
Definition CreateOrder (nd : Nondet) (user_id : string) (amount : Z)
    (description : string) : DB → result OrderRow * DB :=
  λ d, if has_order_id (nd_uuid nd) d then (Err ErrDb, d)
       else
         let row := mkOrderRow (nd_uuid nd) user_id amount description "NEW"
                               (nd_db_now nd) None in
         (Ok row, set_orders (orders d ++ [row]) d).

(** CreateOrderIdempotent (:one): as [CreateOrder] with the key stored on
    the row; on a conflict on [(user_id, idempotency_key)] nothing is
    inserted and no row comes back. *)
Definition CreateOrderIdempotent (nd : Nondet) (user_id : string) (amount : Z)
    (description key : string) : DB → result OrderRow * DB :=
  λ d, if bool_decide (Exists (has_idempotency user_id key) (orders d))
       then (Err ErrNoRows, d)
       else if has_order_id (nd_uuid nd) d then (Err ErrDb, d)
       else
         let row := mkOrderRow (nd_uuid nd) user_id amount description "NEW"
                               (nd_db_now nd) (Some key) in
         (Ok row, set_orders (orders d ++ [row]) d).

(** GetOrderByIdempotency (:one). *)
Definition GetOrderByIdempotency (user_id key : string)
    : DB → result OrderRow * DB :=
  λ d, match list_find (has_idempotency user_id key) (orders d) with
       | Some (_, row) => (Ok row, d)
       | None => (Err ErrNoRows, d)
       end.

Definition set_status (status : string) (r : OrderRow) : OrderRow :=
  mkOrderRow (or_order_id r) (or_user_id r) (or_amount r) (or_description r)
             status (or_created_at r) (or_idempotency_key r).

(** UpdateOrderStatusIfNew (:exec):
    [UPDATE orders SET status = $2 WHERE order_id = $1 AND status = 'NEW']. *)
Definition update_if_new (order_id : UUID) (status : string) (r : OrderRow)
    : OrderRow :=
  if bool_decide (or_order_id r = order_id ∧ or_status r = "NEW")
  then set_status status r
  else r.

Definition UpdateOrderStatusIfNew (order_id : UUID) (status : string)
    : DB → result unit * DB :=
  λ d, (Ok (), set_orders (update_if_new order_id status <$> orders d) d).

(** Modelled from the spec: the InsertInboxCheck query of the orders
    service is not in the sources.  Insert the inbox record keyed by the
    message id; a duplicate insert reports 0. *)
Definition InsertInboxCheck (message_id : UUID) : DB → result Z * DB :=
  λ d, if bool_decide (message_id ∈ inbox d) then (Ok 0, d)
       else (Ok 1, set_inbox ({[message_id]} ∪ inbox d) d).

(** *** gRPC handlers (internal/grpc) *)

Inductive OrderStatus :=
| ORDER_STATUS_UNSPECIFIED
| ORDER_STATUS_NEW
| ORDER_STATUS_FINISHED
| ORDER_STATUS_CANCELLED.

(** ordersv1.Order, the body of a CreateOrderResponse. *)
Record Order := mkOrder {
  o_order_id : string;
  o_user_id : string;
  o_amount : Z;
  o_description : string;
  o_status : OrderStatus;
  o_created_at : Z
}.

Record CreateOrderRequest := mkCreateOrderRequest {
  co_user_id : string;
  co_amount : Z;
  co_description : string;
  co_idempotency_key : string
}.

Definition mapOrderStatus (s : string) : OrderStatus :=
  if bool_decide (s = "NEW") then ORDER_STATUS_NEW
  else if bool_decide (s = "FINISHED") then ORDER_STATUS_FINISHED
  else if bool_decide (s = "CANCELLED") then ORDER_STATUS_CANCELLED
  else ORDER_STATUS_UNSPECIFIED.

Section Handlers.
Context `{Wire}.

Definition order_of_row (row : OrderRow) : Order :=
  mkOrder (uuid_String (or_order_id row)) (or_user_id row) (or_amount row)
          (or_description row) (mapOrderStatus (or_status row))
          (or_created_at row).

(** The first half of the transaction body of [Handlers.CreateOrder]:
    [inr row] is the freshly inserted row, [inl resp] the early
    [return nil] of the replay path with [resp] already set. *)
Definition CreateOrder_insert (nd : Nondet) (req : CreateOrderRequest)
    : Sess DB (Order + OrderRow) :=
  let idemKey := co_idempotency_key req in
  if bool_decide (idemKey = "") then
    let* row := query (CreateOrder nd (co_user_id req) (co_amount req)
                                   (co_description req)) in
    ret (inr row)
  else
    on_error
      (let* row := query (CreateOrderIdempotent nd (co_user_id req) (co_amount req)
                                                (co_description req) idemKey) in
       ret (inr row))
      (λ err,
         match err with
         | ErrNoRows =>
             let* existing := query (GetOrderByIdempotency (co_user_id req) idemKey) in
             if bool_decide (or_amount existing ≠ co_amount req)
                || bool_decide (or_description existing ≠ co_description req)
             then fail (ErrStatus FailedPrecondition
                          "idempotency key reuse with different parameters")
             else ret (inl (order_of_row existing))
         | _ => fail err
         end).

(** The transaction body of [Handlers.CreateOrder]; it returns [resp]. *)
Definition CreateOrder_tx (nd : Nondet) (req : CreateOrderRequest)
    : Sess DB Order :=
  let* r := CreateOrder_insert nd req in
  match r with
  | inl resp => ret resp
  | inr row =>
      let orderID := uuid_String (or_order_id row) in
      let ev := mkPaymentRequested (nd_event_id nd) (nd_now nd) orderID
                                   (co_user_id req) (co_amount req) in
      let* payload :=
        on_error (of_option (marshal_PaymentRequested ev) ErrMarshal)
          (λ _, fail (ErrStatus Internal "failed to marshal event")) in
      let* _ := InsertOutbox outbox set_outbox "payments.payment_requested.v1"
                             orderID payload in
      ret (order_of_row row)
  end.

(** [Handlers.CreateOrder]. *)
Definition Handlers_CreateOrder (nd : Nondet) (req : CreateOrderRequest)
    : Sess DB Order :=
  if bool_decide (co_user_id req = "") then
    fail (ErrStatus InvalidArgument "user_id is required")
  else if bool_decide (co_amount req ≤ 0) then
    fail (ErrStatus InvalidArgument "amount must be > 0")
  else if bool_decide (co_description req = "") then
    fail (ErrStatus InvalidArgument "description is required")
  else
    on_error (WithTx (CreateOrder_tx nd req))
      (λ err, match status_FromError err with
              | Some (c, msg) => fail (ErrStatus c msg)
              | None => fail (ErrStatus Internal "failed to create order")
              end).

(** *** The PaymentResult consumer (internal/kafka) *)

Definition newStatus (ev : PaymentResult) : string :=
  if bool_decide (rs_status ev = STATUS_SUCCESS) then "FINISHED" else "CANCELLED".

(** The transaction body of [handleMessage]. *)
Definition handleMessage_tx (msgID orderID : UUID) (status : string)
    : Sess DB unit :=
  let* inserted := query (InsertInboxCheck msgID) in
  if bool_decide (inserted = 0) then ret ()
  else query (UpdateOrderStatusIfNew orderID status).

(** [PaymentResultConsumer.handleMessage]; [Ok ()] is Go's nil error. *)
Definition handleMessage (m : Message) : Sess DB unit :=
  match unmarshal_PaymentResult (msg_value m) with
  | None => ret ()
  | Some ev =>
      match uuid_Parse (rs_event_id ev) with
      | None => ret ()
      | Some msgID =>
          match uuid_Parse (rs_order_id ev) with
          | None => ret ()
          | Some orderID => WithTx (handleMessage_tx msgID orderID (newStatus ev))
          end
      end
  end.

(** One iteration of [PaymentResultConsumer.Run] on a fetched message: the
    offset is committed ([true]) exactly when the handler returns nil. *)
Definition Run_iteration (m : Message) : World DB → bool * World DB :=
  λ w, match handleMessage m w with
       | (Ok _, w') => (true, w')
       | (Err _, w') => (false, w')
       end.

End Handlers.

(** *** The outbox publisher (internal/kafka) *)

(** The loop of [publishOnce] over the locked rows. *)
Fixpoint publish_rows (now : Z) (rows : list OutboxRow) : Sess DB unit :=
  match rows with
  | [] => ret ()
  | r :: rest =>
      let* sent := attempt (WriteMessages (mkMessage (ob_kafka_key r) (ob_payload r))) in
      match sent with
      | Err err =>
          let* _ := ignore_error
                      (query (MarkOutboxAttemptFailed outbox set_outbox
                                (ob_id r) (error_Error err))) in
          publish_rows now rest                                   (* continue *)
      | Ok _ =>
          let* _ := query (MarkOutboxSent outbox set_outbox now (ob_id r)) in
          publish_rows now rest
      end
  end.

(** [OutboxPublisher.publishOnce]. *)
Definition publishOnce (batch now : Z) : Sess DB unit :=
  WithTx (let* rows := query (LockUnsentOutbox outbox (int32 batch)) in
          if bool_decide (length rows = 0%nat) then ret ()
          else publish_rows now rows).

End Orders.

(** * Properties *)

(** A computation respects [R] when the contents before and after it are
    always related by [R], whatever it returns. *)
Definition respects {D} (R : relation D) {A} (c : Sess D A) : Prop :=
  ∀ w, R (db w) (db (c w).2).

(** ** Runs of the payments service *)

(** What can happen to the payments database: a CreateAccount or TopUp
    call, or the delivery of a bus message to the consumer (the debit). *)
Inductive PaymentsOp :=
| PCreateAccount (req : Payments.CreateAccountRequest)
| PTopUp (req : Payments.TopUpRequest)
| PDeliver (resultTopic : string) (nd : Nondet) (m : Message).

Definition payments_step `{Wire} (op : PaymentsOp) (w : World Payments.DB)
    : World Payments.DB :=
  match op with
  | PCreateAccount req => (Payments.Handlers_CreateAccount req w).2
  | PTopUp req => (Payments.Handlers_TopUp req w).2
  | PDeliver topic nd m => (Payments.handleMessage topic nd m w).2
  end.

(** The committed states a sequence of operations goes through. *)
Fixpoint payments_trace `{Wire} (ops : list PaymentsOp) (w : World Payments.DB)
    : list (World Payments.DB) :=
  match ops with
  | [] => [w]
  | op :: ops => w :: payments_trace ops (payments_step op w)
  end.

Definition payments_run `{Wire} (ops : list PaymentsOp) (w : World Payments.DB)
    : World Payments.DB :=
  foldl (λ w op, payments_step op w) w ops.

(** Every account balance is at least 0. *)
Definition balances_nonneg (d : Payments.DB) : Prop :=
  ∀ u b, Payments.accounts d !! u = Some b → 0 ≤ b.

Definition keeps_nonneg : relation Payments.DB :=
  λ d d', balances_nonneg d → balances_nonneg d'.

(** ** A concrete runtime for examples

    A small stand-in for the uuid and protobuf libraries, used to run the
    handlers on concrete inputs. *)
Module Example.

Definition id1 : string := "00000000-0000-4000-8000-000000000001".
Definition id2 : string := "00000000-0000-4000-8000-000000000002".
Definition id3 : string := "00000000-0000-4000-8000-000000000003".

Definition parse (s : string) : option UUID :=
  if bool_decide (s = id1) then Some 1%N
  else if bool_decide (s = id2) then Some 2%N
  else if bool_decide (s = id3) then Some 3%N
  else None.

Definition to_string (u : UUID) : string :=
  if bool_decide (u = 1%N) then id1
  else if bool_decide (u = 2%N) then id2
  else if bool_decide (u = 3%N) then id3
  else "".

(** The one PaymentRequested event the stand-in decodes: order [id1],
    event [id2], 300 units for user u1. *)
Definition requested : PaymentRequested :=
  mkPaymentRequested id2 0 id1 "u1" 300.

(** The PaymentResult events the stand-in decodes, all for order [id1] and
    with event id [id3]: a success, a failure, and a success that carries
    an empty user id. *)
Definition succeeded : PaymentResult :=
  mkPaymentResult id3 0 id1 "u1" STATUS_SUCCESS "".
Definition failed : PaymentResult :=
  mkPaymentResult id3 0 id1 "u1" STATUS_FAIL_NOT_ENOUGH_FUNDS "not enough funds".
Definition anonymous : PaymentResult :=
  mkPaymentResult id3 0 id1 "" STATUS_SUCCESS "".

Definition wire : Wire := {|
  uuid_Parse := parse;
  uuid_String := to_string;
  unmarshal_PaymentRequested bs :=
    match bs with [x01] => Some requested | _ => None end;
  unmarshal_PaymentResult bs :=
    match bs with
    | [x01] => Some succeeded
    | [x02] => Some failed
    | [x03] => Some anonymous
    | _ => None
    end;
  marshal_PaymentRequested _ := Some [x01];
  marshal_PaymentResult r :=
    Some [if bool_decide (rs_status r = STATUS_SUCCESS) then x01 else x02]
|}.

Definition world {D} (d : D) : World D := mkWorld d [] 1 [] [].

Definition nd : Nondet := mkNondet 1%N id2 0 0.

(** A payments database with one funded account, before and after the
    event [requested] was consumed. *)
Definition payments : World Payments.DB :=
  world (Payments.mkDB {["u1" := 1000]} ∅ ∅ ∅ []).

Definition payments_seen : World Payments.DB :=
  world (Payments.mkDB {["u1" := 700]} {[1%N := Payments.mkOperationRow "u1" 300]}
           ∅ {[2%N := 1%N]} []).

(** An orders database with the NEW order [id1], before and after a
    payment result with event id [id3] was consumed. *)
Definition order1 (status : string) : Orders.OrderRow :=
  Orders.mkOrderRow 1%N "u1" 300 "book" status 0 (Some "k3").

Definition orders : World Orders.DB :=
  world (Orders.mkDB [order1 "NEW"] ∅ []).

Definition orders_seen : World Orders.DB :=
  world (Orders.mkDB [order1 "FINISHED"] {[3%N]} []).

Definition requested_msg : Message := mkMessage id1 [x01].
Definition succeeded_msg : Message := mkMessage id1 [x01].
Definition result_topic : string := "payments.payment_result.v1".

End Example.

(** ** The atomic debit, as the specification words it *)

(** The debit statement inserts an operation row exactly when no operation
    exists yet for the order and the account exists with a balance that
    covers the amount. *)
Definition debits (d : Payments.DB) (o : UUID) (u : string) (a : Z) : bool :=
  bool_decide (Payments.payment_operations d !! o = None) &&
  match Payments.accounts d !! u with
  | Some b => bool_decide (a ≤ b)
  | None => false
  end.

(** The classification of section 4.4: operation inserted gives SUCCESS;
    not inserted and no account row gives FAIL_NO_ACCOUNT; not inserted and
    an account row gives FAIL_NOT_ENOUGH_FUNDS. *)
Definition expected_outcome (op_inserted account_exists : bool)
    : PaymentResultStatus * string :=
  if op_inserted then (STATUS_SUCCESS, "")
  else if account_exists then (STATUS_FAIL_NOT_ENOUGH_FUNDS, "not enough funds")
  else (STATUS_FAIL_NO_ACCOUNT, "account not found").

Definition outcome_of (orderID : UUID) (ev : PaymentRequested) (d : Payments.DB)
    : PaymentResultStatus * string :=
  expected_outcome (debits d orderID (rq_user_id ev) (rq_amount ev))
                   (bool_decide (is_Some (Payments.accounts d !! rq_user_id ev))).

(** The database after the inbox insert and the debit attempt of a fresh
    event. *)
Definition after_debit (msgID orderID : UUID) (ev : PaymentRequested)
    (d : Payments.DB) : Payments.DB :=
  (Payments.TryDeductOnce orderID (rq_user_id ev) (rq_amount ev)
     (Payments.set_inbox (<[msgID := orderID]> (Payments.inbox d)) d)).2.

(** The business tables of the payments database: everything but the
    inbox and the command idempotency records. *)
Definition payments_business (d : Payments.DB) :=
  (Payments.accounts d, Payments.payment_operations d, Payments.outbox d).

(** ** The order state machine *)

(** The orders database after the inbox insert and the status update of a
    fresh PaymentResult. *)
Definition after_result (msgID orderID : UUID) (status : string) (d : Orders.DB)
    : Orders.DB :=
  Orders.set_orders (Orders.update_if_new orderID status <$> Orders.orders d)
    (Orders.set_inbox ({[msgID]} ∪ Orders.inbox d) d).

(** ** Runs of the orders service *)

(** What can happen to the orders database: a CreateOrder call, the
    delivery of a bus message to the consumer, a pass of the outbox
    publisher. *)
Inductive OrdersOp :=
| OCreateOrder (nd : Nondet) (req : Orders.CreateOrderRequest)
| ODeliver (m : Message)
| OPublish (batch now : Z).

Definition orders_step `{Wire} (op : OrdersOp) (w : World Orders.DB)
    : World Orders.DB :=
  match op with
  | OCreateOrder nd req => (Orders.Handlers_CreateOrder nd req w).2
  | ODeliver m => (Orders.handleMessage m w).2
  | OPublish batch now => (Orders.publishOnce batch now w).2
  end.

Definition orders_run `{Wire} (ops : list OrdersOp) (w : World Orders.DB)
    : World Orders.DB :=
  foldl (λ w op, orders_step op w) w ops.

Definition terminal (status : string) : Prop :=
  status = "FINISHED" ∨ status = "CANCELLED".

(** What may become of an order row: every column but the status is kept,
    and the status is kept too or goes from NEW to a terminal state. *)
Definition row_evolves (r r' : Orders.OrderRow) : Prop :=
  r' = Orders.set_status (Orders.or_status r') r ∧
  (Orders.or_status r' = Orders.or_status r ∨
   (Orders.or_status r = "NEW" ∧ terminal (Orders.or_status r'))).

(** Rows are never removed or reordered, and each evolves as above. *)
Definition orders_evolve : relation Orders.DB :=
  λ d d', ∀ i r, Orders.orders d !! i = Some r →
                 ∃ r', Orders.orders d' !! i = Some r' ∧ row_evolves r r'.

(** ** Keyed top-up *)

(** The payments database after a first keyed top-up of an account with
    balance [c]: the amount is added and the idempotency row records the
    amount and the new balance. *)
Definition topped_up (user key : string) (amount c : Z) (d : Payments.DB)
    : Payments.DB :=
  Payments.set_topup_idempotency
    (<[(user, key) := Payments.mkTopupRow amount (c + amount)]>
       (Payments.topup_idempotency d))
    (Payments.set_accounts (<[user := c + amount]> (Payments.accounts d)) d).

Definition mismatch : error :=
  ErrStatus FailedPrecondition "idempotency key reuse with different parameters".

(** A TopUp request that passes the validation of the handler and carries
    an idempotency key. *)
Definition keyed_topup (req : Payments.TopUpRequest) : Prop :=
  Payments.tu_user_id req ≠ "" ∧ 0 < Payments.tu_amount req ∧
  Payments.tu_idempotency_key req ≠ "".

(** Idempotency records are kept as they are. *)
Definition idempotency_kept : relation Payments.DB :=
  λ d d', ∀ key row, Payments.topup_idempotency d !! key = Some row →
                     Payments.topup_idempotency d' !! key = Some row.

Definition idempotency_same : relation Payments.DB :=
  λ d d', Payments.topup_idempotency d' = Payments.topup_idempotency d.

(** ** Keyed create-order *)

(** A CreateOrder request that passes the validation of the handler and
    carries an idempotency key. *)
Definition keyed_order (req : Orders.CreateOrderRequest) : Prop :=
  Orders.co_user_id req ≠ "" ∧ 0 < Orders.co_amount req ∧
  Orders.co_description req ≠ "" ∧ Orders.co_idempotency_key req ≠ "".

(** The order row a first keyed CreateOrder inserts. *)
Definition new_order_row (nd : Nondet) (req : Orders.CreateOrderRequest)
    : Orders.OrderRow :=
  Orders.mkOrderRow (nd_uuid nd) (Orders.co_user_id req) (Orders.co_amount req)
    (Orders.co_description req) "NEW" (nd_db_now nd)
    (Some (Orders.co_idempotency_key req)).

(** The parameter check of the replay path: the stored amount and
    description are the request's. *)
Definition replayed (req : Orders.CreateOrderRequest) (row : Orders.OrderRow) : bool :=
  negb (bool_decide (Orders.or_amount row ≠ Orders.co_amount req)
        || bool_decide (Orders.or_description row ≠ Orders.co_description req)).

Definition requested_topic : string := "payments.payment_requested.v1".

Section CreateOrderEffect.
Context `{Wire}.

(** The PaymentRequested event of a new order. *)
Definition requested_event (nd : Nondet) (req : Orders.CreateOrderRequest)
    : PaymentRequested :=
  mkPaymentRequested (nd_event_id nd) (nd_now nd) (uuid_String (nd_uuid nd))
    (Orders.co_user_id req) (Orders.co_amount req).

(** The orders database after a first keyed CreateOrder: the order row and
    one outbox row, keyed by the order id. *)
Definition order_created (nd : Nondet) (req : Orders.CreateOrderRequest)
    (payload : list byte) (seq : Z) (d : Orders.DB) : Orders.DB :=
  Orders.set_outbox
    (Orders.outbox d ++
       [mkOutboxRow seq requested_topic (uuid_String (nd_uuid nd)) payload None 0 None])
    (Orders.set_orders (Orders.orders d ++ [new_order_row nd req]) d).

End CreateOrderEffect.

(** ** Concrete requests for examples *)


(** The payments database after [example_topup] was applied once. *)
Definition example_payments_topped : World Payments.DB :=
  Example.world (Payments.mkDB {["u1" := 1050]} ∅
                   {[("u1", "k7") := Payments.mkTopupRow 50 1050]} ∅ []).

Definition example_order : Orders.CreateOrderRequest :=
  Orders.mkCreateOrderRequest "u1" 300 "book" "k3".

Definition example_orders_empty : World Orders.DB :=
  Example.world Orders.empty_db.

(** ** The publisher pass *)

(** The bus message of an outbox row. *)
Definition message_of (r : OutboxRow) : Message :=
  mkMessage (ob_kafka_key r) (ob_payload r).

(** The rows a pass locks: the first [batch] unsent rows. *)
Definition locked_rows (batch : Z) (d : Orders.DB) : list OutboxRow :=
  take (Z.to_nat (int32 batch)) (filter (λ r, ob_sent_at r = None) (Orders.outbox d)).

(** The outcome of the publish of each row of a batch, in order, under a
    schedule of broker errors: [None] is a successful publish. *)
Fixpoint pass_outcomes (rows : list OutboxRow) (wfs : list (option string))
    : list (OutboxRow * option string) :=
  match rows with
  | [] => []
  | r :: rest => (r, mjoin (head wfs)) :: pass_outcomes rest (tail wfs)
  end.

(** The outcome recorded for the row with this id, if it was in the batch. *)
Definition outcome_for (outs : list (OutboxRow * option string)) (id : Z)
    : option (option string) :=
  (λ p, p.2.2) <$> list_find (λ p, ob_id p.1 = id) outs.

(** What the pass does to a row of the table. *)
Definition settle (now : Z) (outs : list (OutboxRow * option string))
    (r : OutboxRow) : OutboxRow :=
  match outcome_for outs (ob_id r) with
  | Some None => mark_sent now (ob_id r) r
  | Some (Some e) => mark_failed (ob_id r) e r
  | None => r
  end.

(** The statement the loop issues for one outcome. *)
Definition record_outcome (now : Z) (table : list OutboxRow)
    (p : OutboxRow * option string) : list OutboxRow :=
  match p.2 with
  | None => mark_sent now (ob_id p.1) <$> table
  | Some e => mark_failed (ob_id p.1) e <$> table
  end.

(** A table after a pass, compared with the table before it: rows keep
    their place and id, and [sent_at] is as before unless the row's id is
    that of a row of the batch whose publish succeeded. *)
Definition sent_by (outs : list (OutboxRow * option string))
    (table table' : list OutboxRow) : Prop :=
  ∀ i r', table' !! i = Some r' →
    ∃ r, table !! i = Some r ∧ ob_id r' = ob_id r ∧
         (ob_sent_at r' = ob_sent_at r ∨
          ∃ r0, (r0, None) ∈ outs ∧ ob_id r0 = ob_id r).

(** Two unsent outbox rows and a broker that fails the first publish. *)
Definition example_outbox_row (id : Z) (key : string) : OutboxRow :=
  mkOutboxRow id "payments.payment_requested.v1" key [x01] None 0 None.

Definition example_publisher : World Orders.DB :=
  mkWorld (Orders.mkDB [] ∅ [example_outbox_row 1 Example.id1;
                             example_outbox_row 2 Example.id2])
          [] 3 [Some "broker down"] [].

(** ** Poison messages *)

Section Poison.
Context `{Wire}.

(** A message the payments consumer cannot use: it does not decode, or an
    identifier is not a UUID, or the user is empty, or the amount is not
    positive. *)
Definition payments_poison (m : Message) : Prop :=
  match unmarshal_PaymentRequested (msg_value m) with
  | None => True
  | Some ev =>
      uuid_Parse (rq_event_id ev) = None ∨ uuid_Parse (rq_order_id ev) = None ∨
      rq_user_id ev = "" ∨ rq_amount ev ≤ 0
  end.

(** A message the orders consumer cannot use: it does not decode, or an
    identifier is not a UUID. *)
Definition orders_poison (m : Message) : Prop :=
  match unmarshal_PaymentResult (msg_value m) with
  | None => True
  | Some ev =>
      uuid_Parse (rs_event_id ev) = None ∨ uuid_Parse (rs_order_id ev) = None
  end.

End Poison.

(** ** The errors a computation can return *)

(** Every error [c] returns satisfies [P]. *)
Definition fails_with {D A} (P : error → Prop) (c : Sess D A) : Prop :=
  ∀ w e w', c w = (Err e, w') → P e.

(** The errors a gRPC handler hands to the client: built by [status.Error]
    with one of the listed codes. *)
Definition status_in (codes : list Code) (e : error) : Prop :=
  ∃ c msg, e = ErrStatus c msg ∧ c ∈ codes.

(** What a transaction body of the orders handlers can fail with before the
    handler translates it. *)
Definition tx_error (codes : list Code) (e : error) : Prop :=
  e = ErrDb ∨ e = ErrNoRows ∨ status_in codes e.

(** A top-up without a key for a user who has no account. *)
Definition example_topup_unkeyed : Payments.TopUpRequest :=
  Payments.mkTopUpRequest "alice" 5 "".

(** ** The keys of the orders table *)

(** The primary key and the unique index on [(user_id, idempotency_key)]:
    no two rows share an order id, and no two rows of one user carry the
    same key. *)
Definition orders_unique (d : Orders.DB) : Prop :=
  NoDup (Orders.or_order_id <$> Orders.orders d) ∧
  ∀ i j r1 r2 k,
    Orders.orders d !! i = Some r1 → Orders.orders d !! j = Some r2 →
    Orders.or_user_id r1 = Orders.or_user_id r2 →
    Orders.or_idempotency_key r1 = Some k → Orders.or_idempotency_key r2 = Some k →
    i = j.

Definition keeps_unique : relation Orders.DB :=
  λ d d', orders_unique d → orders_unique d'.

(** ** Reading orders (orders-service, internal/grpc) *)

(** What the page tokens take from Go's standard library:
    [base64.StdEncoding] and [strconv.Itoa]/[strconv.Atoi].  A Go string
    and the bytes it converts to have the same content, so both directions
    of base64 work on strings here. *)
Class Codec := {
  base64_EncodeToString : string → string;
  base64_DecodeString : string → option string;
  strconv_Itoa : Z → string;
  strconv_Atoi : string → option Z
}.

Module OrdersApi.

Record ListOrdersRequest := mkListOrdersRequest {
  lo_user_id : string;
  lo_limit : Z;
  lo_page_token : string
}.

Record ListOrdersResponse := mkListOrdersResponse {
  lr_orders : list Orders.Order;
  lr_next_page_token : string
}.

(** [ORDER BY created_at DESC, order_id DESC]: [r1] may come before [r2]. *)
Definition newer (r1 r2 : Orders.OrderRow) : Prop :=
  Orders.or_created_at r2 < Orders.or_created_at r1 ∨
  (Orders.or_created_at r1 = Orders.or_created_at r2 ∧
   (Orders.or_order_id r2 ≤ Orders.or_order_id r1)%N).

Global Instance newer_dec : RelDecision newer.
Proof. intros r1 r2. unfold newer. apply _. Defined.

(** The rows of one user in the order of the ListOrders query. *)
Definition orders_of (user_id : string) (d : Orders.DB) : list Orders.OrderRow :=
  merge_sort newer (filter (λ r, Orders.or_user_id r = user_id) (Orders.orders d)).

(** orders.sql, ListOrders (:many):
    [WHERE user_id = $1 ORDER BY created_at DESC, order_id DESC
     LIMIT $2 OFFSET $3].  The database rejects a negative LIMIT or
    OFFSET. *)
Definition ListOrders (user_id : string) (limit offset : Z)
    : Orders.DB → result (list Orders.OrderRow) * Orders.DB :=
  λ d, if bool_decide (limit < 0 ∨ offset < 0) then (Err ErrDb, d)
       else (Ok (take (Z.to_nat limit) (drop (Z.to_nat offset) (orders_of user_id d))), d).

(** orders.sql, GetOrder (:one): [WHERE order_id = $1 AND user_id = $2]. *)
Definition GetOrder (order_id : UUID) (user_id : string)
    : Orders.DB → result Orders.OrderRow * Orders.DB :=
  λ d, match list_find (λ r, Orders.or_order_id r = order_id ∧
                             Orders.or_user_id r = user_id) (Orders.orders d) with
       | Some (_, row) => (Ok row, d)
       | None => (Err ErrNoRows, d)
       end.

Section Handlers.
Context `{Wire} `{Codec}.

(** [encodeOffset]. *)
Definition encodeOffset (n : Z) : string :=
  base64_EncodeToString (strconv_Itoa n).

(** [decodeOffset]; [None] is a non-nil error. *)
Definition decodeOffset (s : string) : option Z :=
  match base64_DecodeString s with
  | None => None
  | Some b =>
      match strconv_Atoi b with
      | None => None
      | Some n => Some (int32 n)
      end
  end.

(** [Handlers.ListOrders]. *)
Definition Handlers_ListOrders (req : ListOrdersRequest)
    : Sess Orders.DB ListOrdersResponse :=
  if bool_decide (lo_user_id req = "") then
    fail (ErrStatus InvalidArgument "user_id is required")
  else
    let limit := if bool_decide (0 < lo_limit req) then lo_limit req else 50 in
    let* offset :=
      if bool_decide (lo_page_token req ≠ "") then
        match decodeOffset (lo_page_token req) with
        | None => fail (ErrStatus InvalidArgument "invalid page_token")
        | Some n => ret n
        end
      else ret 0 in
    let* rows :=
      on_error (autocommit (ListOrders (lo_user_id req) limit offset))
        (λ _, fail (ErrStatus Internal "failed to list orders")) in
    let out := Orders.order_of_row <$> rows in
    let nextToken :=
      if bool_decide (Z.of_nat (length rows) = limit)
      then encodeOffset (int32 (offset + limit)) else "" in
    ret (mkListOrdersResponse out nextToken).

End Handlers.

End OrdersApi.

(** A client that follows [next_page_token] from the first page until the
    token is empty, for at most [fuel] pages, and collects the orders. *)
Fixpoint list_all `{Wire} `{Codec} (fuel : nat) (user_id : string) (limit : Z)
    (token : string) : Sess Orders.DB (list Orders.Order) :=
  match fuel with
  | O => fail (ErrStatus Internal "too many pages")
  | S fuel =>
      let* resp := OrdersApi.Handlers_ListOrders
                     (OrdersApi.mkListOrdersRequest user_id limit token) in
      if bool_decide (OrdersApi.lr_next_page_token resp = "")
      then ret (OrdersApi.lr_orders resp)
      else
        let* rest := list_all fuel user_id limit (OrdersApi.lr_next_page_token resp) in
        ret (OrdersApi.lr_orders resp ++ rest)
  end.

(** What the page tokens need from the two libraries: decoding undoes
    encoding, the empty string decodes to no bytes and is not a number. *)
Class CodecLaws `{Codec} : Prop := {
  base64_decode_encode s : base64_DecodeString (base64_EncodeToString s) = Some s;
  base64_decode_empty : base64_DecodeString "" = Some "";
  atoi_itoa n : - 2 ^ 63 ≤ n < 2 ^ 63 → strconv_Atoi (strconv_Itoa n) = Some n;
  atoi_empty : strconv_Atoi "" = None
}.

(** A stand-in for the two libraries: decimal numerals, and a base64 that
    leaves the text as it is. *)
Definition example_codec : Codec := {|
  base64_EncodeToString := λ s, s;
  base64_DecodeString := λ s, Some s;
  strconv_Itoa := λ n, DecimalString.NilZero.string_of_int (Z.to_int n);
  strconv_Atoi := λ s, Z.of_int <$> DecimalString.NilZero.int_of_string s
|}.

(** Three orders of user [u1] and one of [u2]. *)
Definition example_listing : World Orders.DB :=
  Example.world
    (Orders.mkDB [Orders.mkOrderRow 1%N "u1" 300 "book" "NEW" 10 None;
                  Orders.mkOrderRow 2%N "u2" 100 "pen" "NEW" 20 None;
                  Orders.mkOrderRow 3%N "u1" 200 "ink" "FINISHED" 30 None;
                  Orders.mkOrderRow 4%N "u1" 50 "cap" "NEW" 30 None] ∅ []).

(** ** The order cache and GetOrder (orders-service) *)

Module OrderCache.

(** [cache.Order], the value kept under a key. *)
Record Order := mkOrder {
  OrderID : string;
  UserID : string;
  Amount : Z;
  Description : string;
  Status : string;
  CreatedAt : Z
}.

(** What the service keeps in Redis.  A value is the JSON text of a
    [cache.Order]; [encoding/json] gives the struct back from its own
    output, so the decoded struct stands for the text.  A call can fail for
    reasons the program does not control (the connection, the codec): the
    [cache_faults] schedule decides it as [faults] does for the database.
    Expiry after the TTL is a step of the environment and not part of a
    call. *)
Record Redis := mkRedis {
  data : gmap string Order;
  cache_faults : list bool
}.

(** A pointer to an [OrderCache]: [None] is the nil pointer that
    [NewOrderCache] returns when no client is configured. *)
Record OrderCache := mkOrderCache { ttl : Z }.

(** The outcome of a cache call: [(v, nil)] or a non-nil error. *)
Inductive outcome (A : Type) :=
| Done (a : A)
| Failed.
Arguments Done {A} a.
Arguments Failed {A}.

(** [key]. *)
Definition key (orderID : string) : string := "orders:order:" +:+ orderID.

(** [OrderCache.Get]: a nil receiver and a missing key both give
    [(nil, nil)]. *)
Definition Get (c : option OrderCache) (orderID : string)
    : Redis → outcome (option Order) * Redis :=
  λ r, match c with
       | None => (Done None, r)
       | Some _ =>
           match cache_faults r with
           | true :: fs => (Failed, mkRedis (data r) fs)
           | fs => (Done (data r !! key orderID), mkRedis (data r) (tail fs))
           end
       end.

(** [OrderCache.Set] ([Set] is a reserved word); a nil receiver does
    nothing. *)
Definition SetOrder (c : option OrderCache) (order : Order)
    : Redis → outcome unit * Redis :=
  λ r, match c with
       | None => (Done (), r)
       | Some _ =>
           match cache_faults r with
           | true :: fs => (Failed, mkRedis (data r) fs)
           | fs => (Done (), mkRedis (<[key (OrderID order) := order]> (data r)) (tail fs))
           end
       end.

End OrderCache.

(** The database of the orders service together with its cache. *)
Record OrdersStore := mkOrdersStore {
  os_db : Orders.DB;
  os_redis : OrderCache.Redis
}.

(** A statement of the orders database, run on the store. *)
Definition on_db {A} (stmt : Orders.DB → result A * Orders.DB)
    : OrdersStore → result A * OrdersStore :=
  λ s, let '(r, d) := stmt (os_db s) in (r, mkOrdersStore d (os_redis s)).

(** A call of the cache, run on the store; it never fails the handler. *)
Definition on_cache {A} (op : OrderCache.Redis → A * OrderCache.Redis)
    : Sess OrdersStore A :=
  λ w, let '(a, r) := op (os_redis (db w)) in
       (Ok a, set_db (mkOrdersStore (os_db (db w)) r) w).

(** A handler of the orders service that does not use the cache, run on
    the store. *)
Definition with_db {A} (c : Sess Orders.DB A) : Sess OrdersStore A :=
  λ w, let '(r, w') := c (mkWorld (os_db (db w)) (faults w) (outbox_seq w)
                            (writer_faults w) (written w)) in
       (r, mkWorld (mkOrdersStore (db w') (os_redis (db w))) (faults w')
             (outbox_seq w') (writer_faults w') (written w')).

Record GetOrderRequest := mkGetOrderRequest {
  go_user_id : string;
  go_order_id : string
}.

Section GetOrder.
Context `{Wire}.

(** The order a cache hit is answered with. *)
Definition order_of_cached (c : OrderCache.Order) : Orders.Order :=
  Orders.mkOrder (OrderCache.OrderID c) (OrderCache.UserID c) (OrderCache.Amount c)
    (OrderCache.Description c) (Orders.mapOrderStatus (OrderCache.Status c))
    (OrderCache.CreatedAt c).

(** The entry written after a read of the database. *)
Definition cached_of_row (r : Orders.OrderRow) : OrderCache.Order :=
  OrderCache.mkOrder (uuid_String (Orders.or_order_id r)) (Orders.or_user_id r)
    (Orders.or_amount r) (Orders.or_description r) (Orders.or_status r)
    (Orders.or_created_at r).

(** The part of [Handlers.GetOrder] after a cache miss. *)
Definition GetOrder_from_db (cache : option OrderCache.OrderCache)
    (oid : UUID) (req : GetOrderRequest) : Sess OrdersStore Orders.Order :=
  let* r := on_error (autocommit (on_db (OrdersApi.GetOrder oid (go_user_id req))))
              (λ _, fail (ErrStatus NotFound "order not found")) in
  let* _ := match cache with
            | Some _ => on_cache (OrderCache.SetOrder cache (cached_of_row r))
            | None => ret (OrderCache.Done ())
            end in
  ret (Orders.order_of_row r).

(** [Handlers.GetOrder]. *)
Definition Handlers_GetOrder (cache : option OrderCache.OrderCache)
    (req : GetOrderRequest) : Sess OrdersStore Orders.Order :=
  if bool_decide (go_user_id req = "") || bool_decide (go_order_id req = "") then
    fail (ErrStatus InvalidArgument "user_id and order_id are required")
  else
    match uuid_Parse (go_order_id req) with
    | None => fail (ErrStatus InvalidArgument "invalid order_id")
    | Some oid =>
        let* cached := on_cache (OrderCache.Get cache (go_order_id req)) in
        match cached with
        | OrderCache.Done (Some c) =>
            if bool_decide (OrderCache.UserID c = go_user_id req)
            then ret (order_of_cached c)
            else GetOrder_from_db cache oid req
        | _ => GetOrder_from_db cache oid req
        end
    end.

End GetOrder.

(** What can happen to the store between two reads: an operation of the
    orders service on the database; none of them touches the cache. *)
Definition store_step `{Wire} (op : OrdersOp) (w : World OrdersStore)
    : World OrdersStore :=
  match op with
  | OCreateOrder nd req => (with_db (Orders.Handlers_CreateOrder nd req) w).2
  | ODeliver m => (with_db (Orders.handleMessage m) w).2
  | OPublish batch now => (with_db (Orders.publishOnce batch now) w).2
  end.

Definition store_run `{Wire} (ops : list OrdersOp) (w : World OrdersStore)
    : World OrdersStore :=
  foldl (λ w op, store_step op w) w ops.

(** A store with the NEW order [id1] of user [u1], an empty cache and no
    scheduled errors. *)
Definition example_store : World OrdersStore :=
  Example.world (mkOrdersStore (db Example.orders) (OrderCache.mkRedis ∅ [])).

Definition example_get : GetOrderRequest := mkGetOrderRequest "u1" Example.id1.

(** The store after a first GetOrder with the cache configured. *)
Definition example_store_read : World OrdersStore :=
  (Handlers_GetOrder (H:=Example.wire) (Some (OrderCache.mkOrderCache 30))
     example_get example_store).2.

(** ** The API gateway (api-gateway, internal/handler and internal/app) *)

(** What the gateway takes from Go's [strings] package. *)
Class GoStrings := {
  strings_TrimSpace : string → string
}.

Module Gateway.

(** [google.golang.org/grpc/codes]. *)
Inductive Code :=
| OK | Canceled | Unknown | InvalidArgument | DeadlineExceeded | NotFound
| AlreadyExists | PermissionDenied | ResourceExhausted | FailedPrecondition
| Aborted | OutOfRange | Unimplemented | Internal | Unavailable | DataLoss
| Unauthenticated.

(** A non-nil error returned by a client stub: a gRPC status, or an error
    that [status.FromError] does not recognise. *)
Inductive client_error :=
| status_error (c : Code) (msg : string)
| other_error (msg : string).

(** [status.FromError] on a non-nil error. *)
Definition status_FromError (err : client_error) : option (Code * string) :=
  match err with
  | status_error c msg => Some (c, msg)
  | other_error _ => None
  end.

(** [net/http] status codes. *)
Definition StatusOK : Z := 200.
Definition StatusCreated : Z := 201.
Definition StatusBadRequest : Z := 400.
Definition StatusUnauthorized : Z := 401.
Definition StatusForbidden : Z := 403.
Definition StatusNotFound : Z := 404.
Definition StatusConflict : Z := 409.
Definition StatusInternalServerError : Z := 500.
Definition StatusServiceUnavailable : Z := 503.
Definition StatusGatewayTimeout : Z := 504.

(** [ordersv1.Order] as a client receives it: [created_at] is a pointer. *)
Record PbOrder := mkPbOrder {
  pb_order_id : string;
  pb_user_id : string;
  pb_amount : Z;
  pb_description : string;
  pb_status : Orders.OrderStatus;
  pb_created_at : option Z
}.

(** [gateway.Order]. *)
Record Order := mkOrder {
  OrderId : string;
  UserId : string;
  Amount : Z;
  Description : string;
  Status : string;
  CreatedAt : option Z
}.

(** The JSON payloads the handlers write. *)
Inductive Payload :=
| ErrorResponse (error : string) (user_id : option string)
| ListOrdersResponse (user_id : string) (orders : list Order)
| CreateOrderResponse (user_id : string) (order : Order)
| GetOrderResponse (user_id : string) (order : Order)
| CreateAccountResponse (user_id : string) (balance : Z)
| GetBalanceResponse (user_id : string) (balance : Z)
| TopUpAccountResponse (user_id : string) (balance : Z).

(** What a handler leaves on the [http.ResponseWriter]. *)
Record Response := mkResponse {
  resp_status : Z;
  resp_body : Payload
}.

(** [writeJSON]. *)
Definition writeJSON (status : Z) (payload : Payload) : Response :=
  mkResponse status payload.

(** [writeError]. *)
Definition writeError (userID : string) (statusCode : Z) (message : string)
    : Response :=
  writeJSON statusCode
    (ErrorResponse message (if bool_decide (userID ≠ "") then Some userID else None)).

(** [WriteBadRequest]; [err] is the message of a non-nil error. *)
Definition WriteBadRequest (userID : string) (err : option string) : Response :=
  let message := match err with Some m => m | None => "bad request" end in
  writeError userID StatusBadRequest message.

(** [grpcCodeToStatus]. *)
Definition grpcCodeToStatus (code : Code) : Z :=
  match code with
  | InvalidArgument | FailedPrecondition => StatusBadRequest
  | NotFound => StatusNotFound
  | AlreadyExists => StatusConflict
  | Unauthenticated => StatusUnauthorized
  | PermissionDenied => StatusForbidden
  | Unavailable => StatusServiceUnavailable
  | DeadlineExceeded => StatusGatewayTimeout
  | _ => StatusInternalServerError
  end.

(** [writeGRPCError]. *)
Definition writeGRPCError (userID : string) (err : client_error) : Response :=
  match status_FromError err with
  | None => writeError userID StatusInternalServerError "internal error"
  | Some (c, msg) => writeError userID (grpcCodeToStatus c) msg
  end.

(** [mapOrderStatus]. *)
Definition mapOrderStatus (status : Orders.OrderStatus) : string :=
  match status with
  | Orders.ORDER_STATUS_FINISHED => "FINISHED"
  | Orders.ORDER_STATUS_CANCELLED => "CANCELLED"
  | Orders.ORDER_STATUS_NEW => "NEW"
  | _ => "NEW"
  end.

(** [mapOrder]; [None] is the nil pointer. *)
Definition mapOrder (order : option PbOrder) : option Order :=
  match order with
  | None => None
  | Some o =>
      Some (mkOrder (pb_order_id o) (pb_user_id o) (pb_amount o) (pb_description o)
              (mapOrderStatus (pb_status o)) (pb_created_at o))
  end.

(** A request body as [decodeJSON] finds it: absent, not decodable into
    the destination (with the decoder's message), or decoded. *)
Inductive RequestBody (A : Type) :=
| NoBody
| Malformed (err : string)
| Json (a : A).
Arguments NoBody {A}.
Arguments Malformed {A} err.
Arguments Json {A} a.

(** [decodeJSON]; [inl] is the message of the error. *)
Definition decodeJSON {A} (body : RequestBody A) : string + A :=
  match body with
  | NoBody => inl "request body is required"
  | Malformed err => inl err
  | Json a => inr a
  end.

(** A request body as [decodeOptionalJSON] finds it: absent or of length
    zero, not decodable as an object, or an object with [n] members. *)
Inductive OptionalBody :=
| Empty
| NotAnObject (err : string)
| Object (n : nat).

(** [decodeOptionalJSON]; [Some] is the message of the error. *)
Definition decodeOptionalJSON (body : OptionalBody) : option string :=
  match body with
  | Empty => None
  | NotAnObject err => Some err
  | Object n => if bool_decide (0 < n)%nat then Some "request body must be empty" else None
  end.

Record CreateOrderBody := mkCreateOrderBody {
  cb_amount : Z;
  cb_description : string
}.

Record TopUpAccountBody := mkTopUpAccountBody {
  tb_amount : Z
}.

(** A client stub: the call reaches some world [D] and comes back with a
    reply or a non-nil error. *)
Definition Client (D Req Rep : Type) : Type :=
  Req → World D → (client_error + Rep) * World D.

Section Handlers.
Context `{GoStrings}.

(** [resolveUserID]; [newID] is what [uuid.NewString()] returns. *)
Definition resolveUserID (header : option string) (newID : string) : string * bool :=
  match header with
  | Some h => if bool_decide (strings_TrimSpace h ≠ "") then (h, false) else (newID, true)
  | None => (newID, true)
  end.

(** [getHeader]. *)
Definition getHeader (header : option string) : string :=
  match header with
  | None => ""
  | Some h => h
  end.

(** [Handler.CreateOrder] up to the call of the orders service: the
    response of an early return, or the request it sends. *)
Definition CreateOrder_request (XUserId IdempotencyKey : option string)
    (newID : string) (body : RequestBody CreateOrderBody)
    : Response + Orders.CreateOrderRequest :=
  let userID := (resolveUserID XUserId newID).1 in
  let idempotencyKey := getHeader IdempotencyKey in
  match decodeJSON body with
  | inl err => inl (writeError userID StatusBadRequest err)
  | inr body =>
      if bool_decide (cb_amount body ≤ 0)
         || bool_decide (strings_TrimSpace (cb_description body) = "")
      then inl (writeError userID StatusBadRequest
                  "amount must be > 0 and description is required")
      else inr (Orders.mkCreateOrderRequest userID (cb_amount body)
                  (cb_description body) idempotencyKey)
  end.

(** [Handler.CreateOrder]. *)
Definition CreateOrder {D}
    (orders_CreateOrder : Client D Orders.CreateOrderRequest (option PbOrder))
    (XUserId IdempotencyKey : option string) (newID : string)
    (body : RequestBody CreateOrderBody) : World D → Response * World D :=
  λ w,
    let userID := (resolveUserID XUserId newID).1 in
    match CreateOrder_request XUserId IdempotencyKey newID body with
    | inl early => (early, w)
    | inr req =>
        match orders_CreateOrder req w with
        | (inl err, w') => (writeGRPCError userID err, w')
        | (inr resp, w') =>
            match mapOrder resp with
            | None => (writeError userID StatusInternalServerError "empty order response", w')
            | Some mapped => (writeJSON StatusCreated (CreateOrderResponse userID mapped), w')
            end
        end
    end.

(** [Handler.TopUpAccount] up to the call of the payments service. *)
Definition TopUpAccount_request (XUserId IdempotencyKey : option string)
    (newID : string) (body : RequestBody TopUpAccountBody)
    : Response + Payments.TopUpRequest :=
  let userID := (resolveUserID XUserId newID).1 in
  let idempotencyKey := getHeader IdempotencyKey in
  match decodeJSON body with
  | inl err => inl (writeError userID StatusBadRequest err)
  | inr body =>
      if bool_decide (tb_amount body ≤ 0)
      then inl (writeError userID StatusBadRequest "amount must be > 0")
      else inr (Payments.mkTopUpRequest userID (tb_amount body) idempotencyKey)
  end.

(** [Handler.TopUpAccount]; the reply is the account of the response, and
    the getters read balance 0 from a nil account. *)
Definition TopUpAccount {D}
    (payments_TopUp : Client D Payments.TopUpRequest (option Payments.Account))
    (XUserId IdempotencyKey : option string) (newID : string)
    (body : RequestBody TopUpAccountBody) : World D → Response * World D :=
  λ w,
    let userID := (resolveUserID XUserId newID).1 in
    match TopUpAccount_request XUserId IdempotencyKey newID body with
    | inl early => (early, w)
    | inr req =>
        match payments_TopUp req w with
        | (inl err, w') => (writeGRPCError userID err, w')
        | (inr resp, w') =>
            let balance := match resp with
                           | Some a => Payments.acc_balance a
                           | None => 0
                           end in
            (writeJSON StatusOK (TopUpAccountResponse userID balance), w')
        end
    end.

(** [Handler.CreateAccount] up to the call of the payments service. *)
Definition CreateAccount_request (XUserId IdempotencyKey : option string)
    (newID : string) (body : OptionalBody)
    : Response + Payments.CreateAccountRequest :=
  let userID := (resolveUserID XUserId newID).1 in
  let idempotencyKey := getHeader IdempotencyKey in
  match decodeOptionalJSON body with
  | Some err => inl (writeError userID StatusBadRequest err)
  | None => inr (Payments.mkCreateAccountRequest userID idempotencyKey)
  end.

(** [Handler.CreateAccount]. *)
Definition CreateAccount {D}
    (payments_CreateAccount :
       Client D Payments.CreateAccountRequest (option Payments.Account))
    (XUserId IdempotencyKey : option string) (newID : string)
    (body : OptionalBody) : World D → Response * World D :=
  λ w,
    let userID := (resolveUserID XUserId newID).1 in
    match CreateAccount_request XUserId IdempotencyKey newID body with
    | inl early => (early, w)
    | inr req =>
        match payments_CreateAccount req w with
        | (inl err, w') => (writeGRPCError userID err, w')
        | (inr resp, w') =>
            let balance := match resp with
                           | Some a => Payments.acc_balance a
                           | None => 0
                           end in
            (writeJSON StatusCreated (CreateAccountResponse userID balance), w')
        end
    end.

(** [Handler.GetBalance]; here the header is not optional, and the reply
    is the balance of the response. *)
Definition GetBalance {D} (payments_GetBalance : Client D string Z)
    (XUserId : string) : World D → Response * World D :=
  λ w,
    let userID := XUserId in
    if bool_decide (strings_TrimSpace userID = "") then
      (writeError "" StatusBadRequest "X-User-Id header is required", w)
    else
      match payments_GetBalance userID w with
      | (inl err, w') => (writeGRPCError userID err, w')
      | (inr balance, w') => (writeJSON StatusOK (GetBalanceResponse userID balance), w')
      end.

(** [Handler.GetOrder]; the reply is the order of the response. *)
Definition GetOrder {D}
    (orders_GetOrder : Client D GetOrderRequest (option PbOrder))
    (XUserId : option string) (newID : string) (orderId : string)
    : World D → Response * World D :=
  λ w,
    let userID := (resolveUserID XUserId newID).1 in
    match orders_GetOrder (mkGetOrderRequest userID orderId) w with
    | (inl err, w') => (writeGRPCError userID err, w')
    | (inr resp, w') =>
        match mapOrder resp with
        | None => (writeError userID StatusInternalServerError "empty order response", w')
        | Some mapped => (writeJSON StatusOK (GetOrderResponse userID mapped), w')
        end
    end.

(** [Handler.ListOrders]; the reply is the list of orders of the response
    with its next_page_token, which the handler does not pass on. *)
Definition ListOrders {D}
    (orders_ListOrders :
       Client D OrdersApi.ListOrdersRequest (list (option PbOrder) * string))
    (XUserId : option string) (newID : string)
    (Limit : option Z) (PageToken : option string)
    : World D → Response * World D :=
  λ w,
    let userID := (resolveUserID XUserId newID).1 in
    let req :=
      OrdersApi.mkListOrdersRequest userID
        (match Limit with Some l => int32 l | None => 0 end)
        (match PageToken with Some t => t | None => "" end) in
    match orders_ListOrders req w with
    | (inl err, w') => (writeGRPCError userID err, w')
    | (inr resp, w') =>
        (writeJSON StatusOK (ListOrdersResponse userID (omap mapOrder resp.1)), w')
    end.

End Handlers.

End Gateway.

(** *** The gateway in front of the two services *)

(** The code of a status as the client reads it. *)
Definition grpc_code (c : Code) : Gateway.Code :=
  match c with
  | InvalidArgument => Gateway.InvalidArgument
  | NotFound => Gateway.NotFound
  | AlreadyExists => Gateway.AlreadyExists
  | FailedPrecondition => Gateway.FailedPrecondition
  | Internal => Gateway.Internal
  end.

(** What the error of a handler becomes for the client: the status it
    carries; gRPC reports an error that carries none as Unknown with the
    error's text. *)
Definition grpc_error (e : error) : Gateway.client_error :=
  match e with
  | ErrStatus c msg => Gateway.status_error (grpc_code c) msg
  | _ => Gateway.status_error Gateway.Unknown (error_Error e)
  end.

(** The order message as it arrives; the handlers always set
    [created_at]. *)
Definition pb_order (o : Orders.Order) : Gateway.PbOrder :=
  Gateway.mkPbOrder (Orders.o_order_id o) (Orders.o_user_id o) (Orders.o_amount o)
    (Orders.o_description o) (Orders.o_status o) (Some (Orders.o_created_at o)).

(** A call that reaches the handler and whose answer reaches the gateway
    (no deadline, no transport failure). *)
Definition served {D A B} (reply : A → B) (h : Sess D A)
    : World D → (Gateway.client_error + B) * World D :=
  λ w, match h w with
       | (Ok a, w') => (inr (reply a), w')
       | (Err e, w') => (inl (grpc_error e), w')
       end.

Definition orders_CreateOrder `{Wire} (nd : Nondet)
    : Gateway.Client Orders.DB Orders.CreateOrderRequest (option Gateway.PbOrder) :=
  λ req, served (λ o, Some (pb_order o)) (Orders.Handlers_CreateOrder nd req).

Definition payments_TopUp
    : Gateway.Client Payments.DB Payments.TopUpRequest (option Payments.Account) :=
  λ req, served Some (Payments.Handlers_TopUp req).

Definition payments_CreateAccount
    : Gateway.Client Payments.DB Payments.CreateAccountRequest
        (option Payments.Account) :=
  λ req, served Some (Payments.Handlers_CreateAccount req).

(** What the gateway's router sees of a request. *)
Record HttpRequest := mkHttpRequest {
  Method : string;
  Path : string;
  IdempotencyKey : option string;     (* the Idempotency-Key header *)
  XUserId : option string             (* the X-User-Id header *)
}.

(** [http.Header.Get]: the empty string when the header is absent. *)
Definition Header_Get (h : option string) : string :=
  match h with
  | Some v => v
  | None => ""
  end.

(** The middleware [Run] installs in front of every route (internal/app):
    a POST under the base path needs an Idempotency-Key that is not
    blank. *)
Definition idempotency_middleware `{GoStrings} {D} (BasePath : string)
    (r : HttpRequest) (next : World D → Gateway.Response * World D)
    : World D → Gateway.Response * World D :=
  λ w, if bool_decide (Method r = "POST") && String.prefix BasePath (Path r)
          && bool_decide (strings_TrimSpace (Header_Get (IdempotencyKey r)) = "")
       then (Gateway.WriteBadRequest (Header_Get (XUserId r))
               (Some "idempotency key is required"), w)
       else next w.

(** Modelled from the spec: the generated server wrapper
    ([gateway.HandlerWithOptions]) is not in the sources.  It mounts the
    routes under the base path and hands the two optional headers to the
    handler as pointers, nil when the header is absent. *)
Definition post_orders `{Wire} `{GoStrings} (BasePath : string) (nd : Nondet)
    (newID : string) (r : HttpRequest)
    (body : Gateway.RequestBody Gateway.CreateOrderBody)
    : World Orders.DB → Gateway.Response * World Orders.DB :=
  idempotency_middleware BasePath r
    (Gateway.CreateOrder (orders_CreateOrder nd) (XUserId r) (IdempotencyKey r)
       newID body).

(** Modelled from the spec: as [post_orders], for the top-up route. *)
Definition post_topup `{GoStrings} (BasePath : string)
    (newID : string) (r : HttpRequest)
    (body : Gateway.RequestBody Gateway.TopUpAccountBody)
    : World Payments.DB → Gateway.Response * World Payments.DB :=
  idempotency_middleware BasePath r
    (Gateway.TopUpAccount payments_TopUp (XUserId r) (IdempotencyKey r) newID body).

(** A stand-in for [strings.TrimSpace] that trims nothing. *)
Definition example_strings : GoStrings := {| strings_TrimSpace := λ s, s |}.

(** What the statements below need of [strings.TrimSpace] and
    [uuid.NewString]: trimming the empty string leaves it empty. *)
Class GoStringsLaws `{GoStrings} : Prop := {
  TrimSpace_empty : strings_TrimSpace "" = ""
}.

(** A POST of an order for user [u1] with key [k3], and a POST of a
    top-up of 5 for the same user, both under the base path [/api/v1]. *)
Definition example_post_order : HttpRequest :=
  mkHttpRequest "POST" "/api/v1/orders" (Some "k3") (Some "u1").

Definition example_order_body : Gateway.RequestBody Gateway.CreateOrderBody :=
  Gateway.Json (Gateway.mkCreateOrderBody 300 "book").

Definition example_topup_body : Gateway.RequestBody Gateway.TopUpAccountBody :=
  Gateway.Json (Gateway.mkTopUpAccountBody 5).

Definition example_created : Gateway.Response * World Orders.DB :=
  Gateway.CreateOrder (H:=example_strings) (orders_CreateOrder (H:=Example.wire) Example.nd)
    (Some "u1") (Some "k3") "generated-id" example_order_body example_orders_empty.

Definition example_topped_up : Gateway.Response * World Payments.DB :=
  Gateway.TopUpAccount (H:=example_strings) payments_TopUp
    (Some "u1") (Some "k1") "generated-id" example_topup_body Example.payments.

Definition example_posted : Gateway.Response * World Orders.DB :=
  post_orders (H:=Example.wire) (H0:=example_strings) "/api/v1" Example.nd
    "generated-id" example_post_order example_order_body example_orders_empty.

(** *** The request logger (api-gateway, internal/app/logging.go) *)

Module Logging.

(** The fields of [loggingResponseWriter] that the logger reads. *)
Record loggingResponseWriter := mkWriter {
  status : Z;
  bytes : Z
}.

(** What a handler does to its [http.ResponseWriter]: [WriteHeader(code)],
    or [Write(b)] for which the wrapped writer reports [n] bytes. *)
Inductive call :=
| WriteHeader (code : Z)
| Write (n : Z).

(** [loggingResponseWriter.WriteHeader] and [loggingResponseWriter.Write]. *)
Definition step (w : loggingResponseWriter) (c : call) : loggingResponseWriter :=
  match c with
  | WriteHeader code => mkWriter code (bytes w)
  | Write n =>
      mkWriter (if bool_decide (status w = 0) then Gateway.StatusOK else status w)
               (bytes w + n)
  end.

(** [requestLogger]: the writer starts with status 200 and no bytes, the
    next handler makes its calls, and the fields are logged. *)
Definition requestLogger (calls : list call) : loggingResponseWriter :=
  foldl step (mkWriter Gateway.StatusOK 0) calls.

(** The bytes reported by the [Write] calls, and the code of the last
    [WriteHeader] call if there is one. *)
Definition written_bytes (calls : list call) : Z :=
  foldr (λ c acc, match c with Write n => n + acc | _ => acc end) 0 calls.

Definition last_code (calls : list call) : option Z :=
  foldl (λ acc c, match c with WriteHeader code => Some code | _ => acc end) None calls.

(** The calls of [writeJSON] for a response whose encoding has [n]
    bytes. *)
Definition writeJSON_calls (resp : Gateway.Response) (n : Z) : list call :=
  [WriteHeader (Gateway.resp_status resp); Write n].

End Logging.

(** ** The statuses of the orders table *)

(** Every order row carries one of the three statuses of the state
    machine. *)
Definition statuses_valid (d : Orders.DB) : Prop :=
  ∀ r, r ∈ Orders.orders d →
       Orders.or_status r = "NEW" ∨ Orders.or_status r = "FINISHED" ∨
       Orders.or_status r = "CANCELLED".

Definition keeps_statuses : relation Orders.DB :=
  λ d d', statuses_valid d → statuses_valid d'.

(** ** The outbox beside the business tables *)

(** Orders: the outbox holds, in the order of the orders table, one
    PaymentRequested row per order, keyed by the order id. *)
Definition outbox_pairs_orders `{Wire} (d : Orders.DB) : Prop :=
  (λ ob, (ob_topic ob, ob_kafka_key ob)) <$> Orders.outbox d =
  (λ r, ("payments.payment_requested.v1", uuid_String (Orders.or_order_id r)))
    <$> Orders.orders d.

(** What a delivery and a publisher pass keep of the orders database. *)
Definition same_pairing : relation Orders.DB :=
  λ d d', (λ ob, (ob_topic ob, ob_kafka_key ob)) <$> Orders.outbox d' =
          (λ ob, (ob_topic ob, ob_kafka_key ob)) <$> Orders.outbox d ∧
          Orders.or_order_id <$> Orders.orders d' = Orders.or_order_id <$> Orders.orders d.

(** Payments: as many outbox rows as inbox rows. *)
Definition outbox_counts_inbox (d : Payments.DB) : Prop :=
  length (Payments.outbox d) = size (Payments.inbox d).

(** What the commands keep of the payments database. *)
Definition same_boxes : relation Payments.DB :=
  λ d d', Payments.inbox d' = Payments.inbox d ∧ Payments.outbox d' = Payments.outbox d.

(** ** The balance cache and GetBalance (payments-service) *)

Module BalanceCache.

(** [cache.Balance], the value kept under a key. *)
Record Balance := mkBalance {
  b_user_id : string;
  b_balance : Z
}.

(** What the service keeps in Redis, as for the order cache: the decoded
    struct stands for its JSON text, and [cache_faults] schedules the
    failures of the calls. *)
Record Redis := mkRedis {
  data : gmap string Balance;
  cache_faults : list bool
}.

(** A pointer to a [BalanceCache]: [None] is the nil pointer that
    [NewBalanceCache] returns when no client is configured. *)
Record BalanceCache := mkBalanceCache { ttl : Z }.

(** [key]. *)
Definition key (userID : string) : string := "payments:balance:" +:+ userID.

(** [BalanceCache.Get]: a nil receiver and a missing key both give
    [(nil, nil)]. *)
Definition Get (c : option BalanceCache) (userID : string)
    : Redis → OrderCache.outcome (option Balance) * Redis :=
  λ r, match c with
       | None => (OrderCache.Done None, r)
       | Some _ =>
           match cache_faults r with
           | true :: fs => (OrderCache.Failed, mkRedis (data r) fs)
           | fs => (OrderCache.Done (data r !! key userID), mkRedis (data r) (tail fs))
           end
       end.

(** [BalanceCache.Set] ([Set] is a reserved word); a nil receiver does
    nothing. *)
Definition SetBalance (c : option BalanceCache) (balance : Balance)
    : Redis → OrderCache.outcome unit * Redis :=
  λ r, match c with
       | None => (OrderCache.Done (), r)
       | Some _ =>
           match cache_faults r with
           | true :: fs => (OrderCache.Failed, mkRedis (data r) fs)
           | fs => (OrderCache.Done (),
                    mkRedis (<[key (b_user_id balance) := balance]> (data r)) (tail fs))
           end
       end.

End BalanceCache.

(** The database of the payments service together with its cache. *)
Record PaymentsStore := mkPaymentsStore {
  ps_db : Payments.DB;
  ps_redis : BalanceCache.Redis
}.

(** A statement of the payments database, run on the store. *)
Definition on_pdb {A} (stmt : Payments.DB → result A * Payments.DB)
    : PaymentsStore → result A * PaymentsStore :=
  λ s, let '(r, d) := stmt (ps_db s) in (r, mkPaymentsStore d (ps_redis s)).

(** A call of the cache, run on the store; it never fails the handler. *)
Definition on_pcache {A} (op : BalanceCache.Redis → A * BalanceCache.Redis)
    : Sess PaymentsStore A :=
  λ w, let '(a, r) := op (ps_redis (db w)) in
       (Ok a, set_db (mkPaymentsStore (ps_db (db w)) r) w).

(** The world of the store without the cache. *)
Definition payments_world (w : World PaymentsStore) : World Payments.DB :=
  mkWorld (ps_db (db w)) (faults w) (outbox_seq w) (writer_faults w) (written w).

(** A computation on the payments database, run on the store. *)
Definition with_pdb {A} (c : Sess Payments.DB A) : Sess PaymentsStore A :=
  λ w, let '(r, w') := c (payments_world w) in
       (r, mkWorld (mkPaymentsStore (db w') (ps_redis (db w))) (faults w')
             (outbox_seq w') (writer_faults w') (written w')).

(** [if h.cache != nil { h.cache.Set(...) }], the error only logged. *)
Definition cache_balance (cache : option BalanceCache.BalanceCache)
    (userID : string) (balance : Z) : Sess PaymentsStore unit :=
  match cache with
  | Some _ =>
      let* _ := on_pcache (BalanceCache.SetBalance cache
                             (BalanceCache.mkBalance userID balance)) in
      ret ()
  | None => ret ()
  end.

(** Modelled from the spec: the GetBalance query is not in the sources.
    It returns the balance of the user's account row, and no row when the
    user has no account. *)
Definition GetBalance (user_id : string) : Payments.DB → result Z * Payments.DB :=
  λ d, match Payments.accounts d !! user_id with
       | Some b => (Ok b, d)
       | None => (Err ErrNoRows, d)
       end.

(** [Handlers.CreateAccount] with the cache: the handler modelled above,
    then the write to the cache. *)
Definition Handlers_CreateAccount_cached (cache : option BalanceCache.BalanceCache)
    (req : Payments.CreateAccountRequest) : Sess PaymentsStore Payments.Account :=
  let* account := with_pdb (Payments.Handlers_CreateAccount req) in
  let* _ := cache_balance cache (Payments.acc_user_id account)
              (Payments.acc_balance account) in
  ret account.

(** [Handlers.TopUp] with the cache: without a key the new balance is
    always cached; with a key only when the transaction set
    [updateCache], which the replay path does not. *)
Definition Handlers_TopUp_cached (cache : option BalanceCache.BalanceCache)
    (req : Payments.TopUpRequest) : Sess PaymentsStore Payments.Account :=
  let userID := Payments.tu_user_id req in
  if bool_decide (userID = "") then
    fail (ErrStatus InvalidArgument "user_id is required")
  else if bool_decide (Payments.tu_amount req ≤ 0) then
    fail (ErrStatus InvalidArgument "amount must be > 0")
  else
    let idemKey := Payments.tu_idempotency_key req in
    if bool_decide (idemKey = "") then
      let* account :=
        with_pdb
          (on_error (autocommit (Payments.TopUp userID (Payments.tu_amount req)))
             (λ err, match err with
                     | ErrNoRows => fail (ErrStatus NotFound "account not found")
                     | _ => fail (ErrStatus Internal "failed to top up")
                     end)) in
      let* _ := cache_balance cache (Payments.acc_user_id account)
                  (Payments.acc_balance account) in
      ret (Payments.mkAccount (Payments.acc_user_id account)
             (Payments.acc_balance account))
    else
      let* (balance, updateCache) :=
        with_pdb
          (on_error (WithTx (Payments.TopUp_tx userID idemKey (Payments.tu_amount req)))
             (λ err, match status_FromError err with
                     | Some (c, msg) => fail (ErrStatus c msg)
                     | None => fail (ErrStatus Internal "failed to top up")
                     end)) in
      let* _ := if updateCache then cache_balance cache userID balance else ret () in
      ret (Payments.mkAccount userID balance).

(** [Handlers.GetBalance]. *)
Definition Handlers_GetBalance (cache : option BalanceCache.BalanceCache)
    (userID : string) : Sess PaymentsStore Z :=
  if bool_decide (userID = "") then
    fail (ErrStatus InvalidArgument "user_id is required")
  else
    let* cached := on_pcache (BalanceCache.Get cache userID) in
    match cached with
    | OrderCache.Done (Some c) => ret (BalanceCache.b_balance c)
    | _ =>
        let* balance :=
          on_error (autocommit (on_pdb (GetBalance userID)))
            (λ err, match err with
                    | ErrNoRows => fail (ErrStatus NotFound "account not found")
                    | _ => fail (ErrStatus Internal "failed to get balance")
                    end) in
        let* _ := cache_balance cache userID balance in
        ret balance
    end.

(** Deliveries to the payments consumer, run on the store; the consumer
    does not know the cache. *)
Definition deliveries `{Wire} (ms : list (string * Nondet * Message))
    (w : World PaymentsStore) : World PaymentsStore :=
  foldl (λ w '(topic, nd, m), (with_pdb (Payments.handleMessage topic nd m) w).2) w ms.

(** A store with the account of [u1] (balance 1000), an empty cache and
    no scheduled errors; and the same after a first GetBalance with the
    cache configured. *)
Definition example_pstore : World PaymentsStore :=
  Example.world (mkPaymentsStore (db Example.payments) (BalanceCache.mkRedis ∅ [])).

Definition example_pstore_read : World PaymentsStore :=
  (Handlers_GetBalance (Some (BalanceCache.mkBalanceCache 30)) "u1" example_pstore).2.

(** *** The gateway in front of the reads *)

Definition orders_GetOrder `{Wire} (cache : option OrderCache.OrderCache)
    : Gateway.Client OrdersStore GetOrderRequest (option Gateway.PbOrder) :=
  λ req, served (λ o, Some (pb_order o)) (Handlers_GetOrder cache req).

Definition orders_ListOrders `{Wire} `{Codec}
    : Gateway.Client Orders.DB OrdersApi.ListOrdersRequest
        (list (option Gateway.PbOrder) * string) :=
  λ req, served (λ r, ((λ o, Some (pb_order o)) <$> OrdersApi.lr_orders r,
                       OrdersApi.lr_next_page_token r))
           (OrdersApi.Handlers_ListOrders req).

Definition payments_GetBalance (cache : option BalanceCache.BalanceCache)
    : Gateway.Client PaymentsStore string Z :=
  λ userID, served (λ b, b) (Handlers_GetBalance cache userID).

(** * Reasoning about sessions *)

Section SessionLemmas.
Context {D : Type}.
Implicit Types (w : World D) (R : relation D).

(** How one round trip can end: a database error that leaves the contents
    alone, or the statement run on the current contents. *)
Lemma query_cases {A} (stmt : D → result A * D) w :
  (∃ fs, query stmt w = (Err ErrDb, set_faults fs w)) ∨
  (∃ fs, query stmt w = ((stmt (db w)).1, set_db (stmt (db w)).2 (set_faults fs w))).
Proof.
  unfold query. destruct (faults w) as [|[] fs] eqn:E.
  - right. exists []. by destruct (stmt (db w)).
  - left. by exists fs.
  - right. exists fs. by destruct (stmt (db w)).
Qed.

(** Without scheduled faults a round trip is the statement itself. *)
Lemma query_no_fault {A} (stmt : D → result A * D) w :
  faults w = [] →
  query stmt w = ((stmt (db w)).1, set_db (stmt (db w)).2 w).
Proof.
  intros E. unfold query. rewrite E. destruct (stmt (db w)) as [r d].
  destruct w; simpl in *; by subst.
Qed.

Lemma respects_ret R `{!Reflexive R} {A} (a : A) : respects R (ret a).
Proof. by intros w. Qed.

Lemma respects_fail R `{!Reflexive R} {A} e : respects R (fail (A:=A) e).
Proof. by intros w. Qed.

Lemma respects_of_option R `{!Reflexive R} {A} (o : option A) e :
  respects R (of_option o e).
Proof. destruct o; [apply respects_ret | apply respects_fail]; done. Qed.

Lemma respects_bind R `{!Transitive R} {A B} (c : Sess D A) (k : A → Sess D B) :
  respects R c → (∀ a, respects R (k a)) → respects R (bind c k).
Proof.
  intros Hc Hk w. unfold bind. specialize (Hc w).
  destruct (c w) as [[a|e] w']; simpl in *; [|done].
  etrans; [exact Hc | apply Hk].
Qed.

Lemma respects_on_error R `{!Transitive R} {A} (c : Sess D A) h :
  respects R c → (∀ e, respects R (h e)) → respects R (on_error c h).
Proof.
  intros Hc Hh w. unfold on_error. specialize (Hc w).
  destruct (c w) as [[a|e] w']; simpl in *; [done|].
  etrans; [exact Hc | apply Hh].
Qed.

Lemma respects_ignore_error R {A} (c : Sess D A) :
  respects R c → respects R (ignore_error c).
Proof. intros Hc w. apply Hc. Qed.

Lemma respects_attempt R {A} (c : Sess D A) :
  respects R c → respects R (attempt c).
Proof. intros Hc w. apply Hc. Qed.

Lemma respects_query R `{!Reflexive R} {A} (stmt : D → result A * D) :
  (∀ d, R d (stmt d).2) → respects R (query stmt).
Proof.
  intros Hs w. destruct (query_cases stmt w) as [[fs ->]|[fs ->]]; simpl; [done|].
  apply Hs.
Qed.

Lemma respects_WriteMessages R `{!Reflexive R} msg :
  respects R (WriteMessages (D:=D) msg).
Proof. intros w. unfold WriteMessages. by destruct (writer_faults w) as [|[] ?]. Qed.

Lemma respects_InsertOutbox R `{!Reflexive R} get set topic key payload :
  (∀ d row, R d (set (get d ++ [row]) d)) →
  respects R (InsertOutbox get set topic key payload).
Proof.
  intros Hs w. unfold InsertOutbox.
  refine (respects_query R _ _ (set_outbox_seq _ w)). intros d. apply Hs.
Qed.

Lemma query_run {A} (stmt : D → result A * D) d s wf wr :
  query stmt (mkWorld d [] s wf wr) = ((stmt d).1, mkWorld (stmt d).2 [] s wf wr).
Proof. unfold query. simpl. by destruct (stmt d). Qed.

(** Inversion of a successful computation, one lemma per combinator. *)
Lemma ret_ok {A} (a b : A) w w' : ret a w = (Ok b, w') → b = a ∧ w' = w.
Proof. unfold ret. by intros [= -> ->]. Qed.

Lemma bind_ok {A B} (c : Sess D A) (k : A → Sess D B) w b w2 :
  bind c k w = (Ok b, w2) → ∃ a w1, c w = (Ok a, w1) ∧ k a w1 = (Ok b, w2).
Proof.
  unfold bind. destruct (c w) as [[a|e] w1]; [|done]. intros E. by exists a, w1.
Qed.

Lemma query_ok {A} (stmt : D → result A * D) w a w1 :
  query stmt w = (Ok a, w1) →
  (stmt (db w)).1 = Ok a ∧ db w1 = (stmt (db w)).2 ∧
  outbox_seq w1 = outbox_seq w ∧ written w1 = written w.
Proof.
  destruct (query_cases stmt w) as [[fs ->]|[fs ->]]; [done|].
  by intros [= -> <-].
Qed.

Lemma of_option_ok {A} (o : option A) e w a w1 :
  of_option o e w = (Ok a, w1) → o = Some a ∧ w1 = w.
Proof. destruct o; [|done]. by intros [= -> ->]. Qed.

Lemma InsertOutbox_ok get set topic key payload w id w1 :
  InsertOutbox get set topic key payload w = (Ok id, w1) →
  id = outbox_seq w ∧
  db w1 = set (get (db w) ++ [mkOutboxRow id topic key payload None 0 None]) (db w) ∧
  outbox_seq w1 = id + 1 ∧ written w1 = written w.
Proof.
  unfold InsertOutbox. intros E. apply query_ok in E as (E1 & E2 & E3 & E4).
  simpl in *. by inversion E1.
Qed.

(** Inversion of any outcome of a round trip and of an error handler. *)
Lemma query_inv {A} (stmt : D → result A * D) w r w1 :
  query stmt w = (r, w1) →
  outbox_seq w1 = outbox_seq w ∧ written w1 = written w ∧
  ((r = Err ErrDb ∧ db w1 = db w) ∨
   (r = (stmt (db w)).1 ∧ db w1 = (stmt (db w)).2)).
Proof.
  destruct (query_cases stmt w) as [[fs ->]|[fs ->]]; intros [= <- <-]; simpl;
    split_and!; auto.
Qed.

Lemma on_error_ok {A} (c : Sess D A) h w a w2 :
  on_error c h w = (Ok a, w2) →
  c w = (Ok a, w2) ∨ ∃ e w1, c w = (Err e, w1) ∧ h e w1 = (Ok a, w2).
Proof.
  unfold on_error. destruct (c w) as [[a'|e] w1]; [by left|]. right. eauto.
Qed.

Lemma fail_ok {A} e w (a : A) w' : fail e w = (Ok a, w') → False.
Proof. done. Qed.

(** How a transaction can end: with an error and the contents it started
    from, or with the value and the contents its body produced. *)
Lemma WithTx_cases {A} (fn : Sess D A) w :
  (∃ e, (WithTx fn w).1 = Err e ∧ db (WithTx fn w).2 = db w) ∨
  (∃ fs a w2, fn (set_faults fs w) = (Ok a, w2) ∧
              (WithTx fn w).1 = Ok a ∧ db (WithTx fn w).2 = db w2).
Proof.
  unfold WithTx.
  destruct (query_cases (λ d : D, (Ok (), d)) w) as [[fs ->]|[fs ->]]; simpl.
  { left. by eexists. }
  replace (set_db (db w) (set_faults fs w)) with (set_faults fs w)
    by (by destruct w).
  destruct (fn (set_faults fs w)) as [[a|e] w2] eqn:Efn; simpl.
  2:{ left. by eexists. }
  destruct (query_cases (λ d : D, (Ok (), d)) w2) as [[fs' ->]|[fs' ->]]; simpl.
  { left. by eexists. }
  right. by exists fs, a, w2.
Qed.

Lemma WithTx_err {A} (fn : Sess D A) w e w1 :
  WithTx fn w = (Err e, w1) → db w1 = db w.
Proof.
  intros E. destruct (WithTx_cases fn w) as [(e' & _ & Hd)|(fs & a & w2 & _ & Hr & _)];
    rewrite E in *; simpl in *; done.
Qed.

Lemma WithTx_ok {A} (fn : Sess D A) w a w1 :
  WithTx fn w = (Ok a, w1) →
  ∃ fs w2, fn (set_faults fs w) = (Ok a, w2) ∧ db w1 = db w2.
Proof.
  intros E. destruct (WithTx_cases fn w) as [(e' & Hr & _)|(fs & a' & w2 & Hfn & Hr & Hd)];
    rewrite E in *; simpl in *; [done|].
  inversion Hr; subst a'. by exists fs, w2.
Qed.

Lemma respects_WithTx R `{!Reflexive R} {A} (fn : Sess D A) :
  respects R fn → respects R (WithTx fn).
Proof.
  intros Hfn w. destruct (WithTx_cases fn w) as [(e & _ & ->)|(fs & a & w2 & E & _ & ->)].
  - done.
  - specialize (Hfn (set_faults fs w)). by rewrite E in Hfn.
Qed.

(** Without scheduled faults a transaction whose body succeeds commits
    what the body produced. *)
Lemma WithTx_no_fault {A} (fn : Sess D A) w a w2 :
  faults w = [] → fn w = (Ok a, w2) → faults w2 = [] →
  WithTx fn w = (Ok a, w2).
Proof.
  intros E Efn E2. unfold WithTx. rewrite (query_no_fault _ w E). simpl.
  replace (set_db (db w) w) with w by (by destruct w).
  rewrite Efn, (query_no_fault _ w2 E2). simpl. by destruct w2.
Qed.

(** A transaction whose body fails leaves the contents as they were. *)
Lemma WithTx_no_fault_err {A} (fn : Sess D A) w e w2 :
  faults w = [] → fn w = (Err e, w2) →
  WithTx fn w = (Err e, set_db (db w) w2).
Proof.
  intros E Efn. unfold WithTx. rewrite (query_no_fault _ w E). simpl.
  replace (set_db (db w) w) with w by (by destruct w).
  by rewrite Efn.
Qed.

End SessionLemmas.

Global Instance keeps_nonneg_refl : Reflexive keeps_nonneg.
Proof. intros d Hd. exact Hd. Qed.

Global Instance keeps_nonneg_trans : Transitive keeps_nonneg.
Proof. intros d1 d2 d3 H12 H23 H1. apply H23, H12, H1. Qed.

(** One step of a proof that a handler respects a relation. *)
Ltac respects_step :=
  lazymatch goal with
  | |- respects _ (ret _) => apply respects_ret; apply _
  | |- respects _ (fail _) => apply respects_fail; apply _
  | |- respects _ (of_option _ _) => apply respects_of_option; apply _
  | |- respects _ (ignore_error _) => apply respects_ignore_error
  | |- respects _ (attempt _) => apply respects_attempt
  | |- respects _ (WriteMessages _) => apply respects_WriteMessages; apply _
  | |- respects _ (WithTx _) => apply respects_WithTx; [apply _|]
  | |- respects _ (bind _ _) =>
      apply respects_bind; [apply _| |intros ?; cbv beta]
  | |- respects _ (on_error _ _) =>
      apply respects_on_error; [apply _| |intros ?; cbv beta]
  | |- respects _ (autocommit _) => unfold autocommit
  | |- respects _ (if ?b then _ else _) => destruct b eqn:?
  | |- respects _ (match ?x with _ => _ end) => destruct x eqn:?
  end.

Section PaymentsInvariant.
Context `{Wire}.

Lemma nonneg_insert d u b :
  0 ≤ b → keeps_nonneg d (Payments.set_accounts (<[u := b]> (Payments.accounts d)) d).
Proof.
  intros Hb Hd u' b'. simpl. rewrite lookup_insert.
  case_decide; [naive_solver | apply Hd].
Qed.

Lemma nonneg_same_accounts d d' :
  Payments.accounts d' = Payments.accounts d → keeps_nonneg d d'.
Proof. intros E Hd u b. rewrite E. apply Hd. Qed.

Lemma CreateAccount_nonneg u d : keeps_nonneg d (Payments.CreateAccount u d).2.
Proof.
  unfold Payments.CreateAccount. destruct (_ !! u); simpl; [done|].
  by apply nonneg_insert.
Qed.

Lemma CreateAccountIdempotent_nonneg u d :
  keeps_nonneg d (Payments.CreateAccountIdempotent u d).2.
Proof.
  unfold Payments.CreateAccountIdempotent. destruct (_ !! u); simpl; [done|].
  by apply nonneg_insert.
Qed.

Lemma TopUp_nonneg u a d : 0 < a → keeps_nonneg d (Payments.TopUp u a d).2.
Proof.
  intros Ha. unfold Payments.TopUp. destruct (_ !! u) as [b|] eqn:E; simpl; [|done].
  intros Hd. apply nonneg_insert; [|done]. specialize (Hd u b E). lia.
Qed.

Lemma TryDeductOnce_nonneg o u a d :
  keeps_nonneg d (Payments.TryDeductOnce o u a d).2.
Proof.
  unfold Payments.TryDeductOnce. destruct (_ !! o); simpl; [done|].
  destruct (_ !! u) as [b|] eqn:E; simpl; [|done].
  case_bool_decide; simpl; [|done].
  intros Hd. eapply nonneg_same_accounts; [|apply nonneg_insert; [|done]].
  - done.
  - lia.
Qed.

Lemma Handlers_CreateAccount_nonneg req :
  respects keeps_nonneg (Payments.Handlers_CreateAccount req).
Proof.
  unfold Payments.Handlers_CreateAccount, autocommit.
  repeat respects_step.
  - apply respects_query; [apply _|]. apply CreateAccount_nonneg.
  - apply respects_query; [apply _|]. apply CreateAccountIdempotent_nonneg.
Qed.

Lemma topup_idempotency_nonneg d t :
  keeps_nonneg d (Payments.set_topup_idempotency t d).
Proof. by apply nonneg_same_accounts. Qed.

Lemma Handlers_TopUp_nonneg req :
  respects keeps_nonneg (Payments.Handlers_TopUp req).
Proof.
  unfold Payments.Handlers_TopUp, Payments.TopUp_tx.
  do 2 (respects_step; [respects_step|]).
  assert (0 < Payments.tu_amount req) as Hpos
    by (match goal with H : bool_decide _ = false |- _ =>
          apply bool_decide_eq_false in H; lia end).
  repeat respects_step;
    (apply respects_query; [apply _|]; intros d;
     first [ by apply TopUp_nonneg
           | unfold Payments.InsertTopupIdempotency, Payments.GetTopupIdempotency,
               Payments.SetTopupIdempotencyBalance, Payments.DeleteTopupIdempotency;
             repeat case_match; simpl;
             first [ apply topup_idempotency_nonneg | reflexivity ] ]).
Qed.

Lemma handleMessage_nonneg topic nd m :
  respects keeps_nonneg (Payments.handleMessage topic nd m).
Proof.
  unfold Payments.handleMessage, Payments.handleMessage_tx, Payments.classify.
  repeat respects_step;
    first [ apply respects_InsertOutbox; [apply _|]; intros d row;
            by apply nonneg_same_accounts
          | apply respects_query; [apply _|]; intros d;
            first [ apply TryDeductOnce_nonneg
                  | unfold Payments.InsertInboxCheck, Payments.AccountExists;
                    repeat case_match; simpl;
                    first [ by apply nonneg_same_accounts | reflexivity ] ] ].
Qed.

Lemma payments_step_nonneg op w :
  balances_nonneg (db w) → balances_nonneg (db (payments_step op w)).
Proof.
  destruct op; simpl.
  - apply Handlers_CreateAccount_nonneg.
  - apply Handlers_TopUp_nonneg.
  - apply handleMessage_nonneg.
Qed.

(** C4. Every account balance is at least 0 in every committed state that
    a sequence of create-account, top-up and debit (PaymentRequested
    delivery) operations goes through, whatever database errors occur on
    the way: the debit only subtracts an amount the balance covers, and
    top-up only adds amounts it validated as positive. *)
Theorem balance_never_negative (ops : list PaymentsOp) (w : World Payments.DB) :
  balances_nonneg (db w) →
  Forall (λ w', balances_nonneg (db w')) (payments_trace ops w).
Proof.
  revert w. induction ops as [|op ops IH]; intros w Hw; simpl.
  - by constructor.
  - constructor; [done|]. apply IH. by apply payments_step_nonneg.
Qed.

End PaymentsInvariant.

Lemma balance_never_negative_witness :
  let ops := [PTopUp (Payments.mkTopUpRequest "u1" 50 "k6");
              PDeliver Example.result_topic Example.nd Example.requested_msg] in
  balances_nonneg (db Example.payments) ∧
  Forall (λ w', balances_nonneg (db w'))
    (payments_trace (H:=Example.wire) ops Example.payments).
Proof.
  intros ops.
  assert (balances_nonneg (db Example.payments)) as H0.
  { intros u b E. simpl in E. apply lookup_singleton_Some in E as [_ <-]. lia. }
  split; [exact H0|].
  exact (balance_never_negative (H:=Example.wire) ops Example.payments H0).
Defined.

(** * The payments consumer *)

Lemma TryDeductOnce_result o u a d :
  (Payments.TryDeductOnce o u a d).1 = Ok (if debits d o u a then 1 else 0).
Proof.
  unfold Payments.TryDeductOnce, debits.
  destruct (_ !! o); simpl; [done|].
  destruct (_ !! u); simpl; [|done]. by case_bool_decide.
Qed.

Lemma TryDeductOnce_accounts_dom o u a d u' :
  is_Some (Payments.accounts (Payments.TryDeductOnce o u a d).2 !! u') ↔
  is_Some (Payments.accounts d !! u').
Proof.
  unfold Payments.TryDeductOnce.
  destruct (_ !! o); simpl; [done|].
  destruct (_ !! u) eqn:E; simpl; [|done]. case_bool_decide; simpl; [|done].
  rewrite lookup_insert. case_decide; subst; [|done]. rewrite E. split; eauto.
Qed.

Lemma TryDeductOnce_outbox o u a d :
  Payments.outbox (Payments.TryDeductOnce o u a d).2 = Payments.outbox d.
Proof. unfold Payments.TryDeductOnce. by repeat case_match. Qed.

Lemma TryDeductOnce_inbox o u a d :
  Payments.inbox (Payments.TryDeductOnce o u a d).2 = Payments.inbox d.
Proof. unfold Payments.TryDeductOnce. by repeat case_match. Qed.

Lemma TryDeductOnce_operations o u a d :
  Payments.payment_operations (Payments.TryDeductOnce o u a d).2 !! o =
  if debits d o u a then Some (Payments.mkOperationRow u a)
  else Payments.payment_operations d !! o.
Proof.
  unfold Payments.TryDeductOnce, debits.
  destruct (Payments.payment_operations d !! o) eqn:Eo; simpl; [done|].
  destruct (_ !! u); simpl; [|done].
  case_bool_decide; simpl; [|done]. by rewrite lookup_insert_eq.
Qed.

Lemma outcome_stable msgID orderID ev d :
  expected_outcome
    (debits (Payments.set_inbox (<[msgID := orderID]> (Payments.inbox d)) d)
            orderID (rq_user_id ev) (rq_amount ev))
    (bool_decide (is_Some (Payments.accounts (after_debit msgID orderID ev d)
                             !! rq_user_id ev)))
  = outcome_of orderID ev d.
Proof.
  unfold outcome_of, after_debit. f_equal.
  apply bool_decide_ext. by rewrite TryDeductOnce_accounts_dom.
Qed.

Section PaymentsConsumer.
Context `{Wire}.

Lemma classify_ok user (op_inserted : bool) w r w1 :
  Payments.classify user (if op_inserted then 1 else 0) w = (Ok r, w1) →
  r = expected_outcome op_inserted
        (bool_decide (is_Some (Payments.accounts (db w) !! user)))
  ∧ db w1 = db w ∧ outbox_seq w1 = outbox_seq w.
Proof.
  unfold Payments.classify, expected_outcome. destruct op_inserted; simpl.
  { intros E. apply ret_ok in E as [-> ->]. done. }
  intros E. apply bind_ok in E as (ex & w' & Eq & E).
  apply query_ok in Eq as (E1 & E2 & E3 & _). simpl in *.
  inversion E1; subst ex; clear E1.
  destruct (bool_decide _); simpl in E; apply ret_ok in E as [-> ->];
    by rewrite E2, E3.
Qed.

Lemma classify_run user (b : bool) d s wf wr :
  Payments.classify user (if b then 1 else 0) (mkWorld d [] s wf wr) =
  (Ok (expected_outcome b (bool_decide (is_Some (Payments.accounts d !! user)))),
   mkWorld d [] s wf wr).
Proof.
  unfold Payments.classify, expected_outcome. destruct b; simpl; [done|].
  unfold bind. rewrite query_run. simpl. by destruct (bool_decide _).
Qed.

(** What a successful run of the transaction body did, under any schedule
    of database errors. *)
Lemma handleMessage_tx_ok topic nd ev msgID orderID w a w2 :
  Payments.handleMessage_tx topic nd ev msgID orderID w = (Ok a, w2) →
  match Payments.inbox (db w) !! msgID with
  | Some _ => db w2 = db w
  | None =>
      ∃ payload,
        marshal_PaymentResult
          (mkPaymentResult (nd_event_id nd) (nd_now nd) (uuid_String orderID)
             (rq_user_id ev) (outcome_of orderID ev (db w)).1
             (outcome_of orderID ev (db w)).2) = Some payload ∧
        db w2 = Payments.set_outbox
                  (Payments.outbox (db w) ++
                     [mkOutboxRow (outbox_seq w) topic (uuid_String orderID)
                                  payload None 0 None])
                  (after_debit msgID orderID ev (db w))
  end.
Proof.
  unfold Payments.handleMessage_tx. intros E.
  apply bind_ok in E as (ins & w1 & Eq & E).
  apply query_ok in Eq as (E1 & Ed1 & Es1 & _).
  unfold Payments.InsertInboxCheck in E1, Ed1.
  destruct (Payments.inbox (db w) !! msgID) eqn:Ei; simpl in *.
  { inversion E1; subst ins. simpl in E. apply ret_ok in E as [_ ->]. done. }
  inversion E1; subst ins; clear E1. simpl in E.
  apply bind_ok in E as (op & w3 & Eq & E).
  apply query_ok in Eq as (E3 & Ed3 & Es3 & _).
  rewrite TryDeductOnce_result in E3. inversion E3; subst op; clear E3.
  apply bind_ok in E as ([status reason] & w4 & Ec & E).
  apply classify_ok in Ec as (Ec & Ed4 & Es4).
  apply bind_ok in E as (payload & w5 & Eo & E).
  apply of_option_ok in Eo as [Em ->].
  apply bind_ok in E as (id & w6 & Eo & E).
  apply InsertOutbox_ok in Eo as (-> & Ed6 & _).
  apply ret_ok in E as [_ ->].
  assert ((status, reason) = outcome_of orderID ev (db w)) as Eout.
  { rewrite Ec, Ed3, Ed1. apply outcome_stable. }
  rewrite <-Eout. simpl. exists payload. split; [done|].
  rewrite Ed6, Ed4, Es4, Es3, Es1, Ed3, Ed1. unfold after_debit.
  by rewrite TryDeductOnce_outbox.
Qed.

(** The run of the transaction body on a duplicate, without database
    errors. *)
Lemma handleMessage_tx_duplicate topic nd ev msgID orderID w :
  faults w = [] → is_Some (Payments.inbox (db w) !! msgID) →
  Payments.handleMessage_tx topic nd ev msgID orderID w = (Ok (), w).
Proof.
  intros Ef [x Ei]. destruct w as [d fs s wf wr]; simpl in *; subst fs.
  unfold Payments.handleMessage_tx, bind. rewrite query_run.
  unfold Payments.InsertInboxCheck. rewrite Ei. simpl. done.
Qed.

(** The run of the transaction body on a fresh event, without database
    errors. *)
Lemma handleMessage_tx_fresh topic nd ev msgID orderID w payload :
  faults w = [] → Payments.inbox (db w) !! msgID = None →
  marshal_PaymentResult
    (mkPaymentResult (nd_event_id nd) (nd_now nd) (uuid_String orderID)
       (rq_user_id ev) (outcome_of orderID ev (db w)).1
       (outcome_of orderID ev (db w)).2) = Some payload →
  Payments.handleMessage_tx topic nd ev msgID orderID w =
    (Ok (),
     set_db (Payments.set_outbox
               (Payments.outbox (db w) ++
                  [mkOutboxRow (outbox_seq w) topic (uuid_String orderID)
                               payload None 0 None])
               (after_debit msgID orderID ev (db w)))
       (set_outbox_seq (outbox_seq w + 1) w)).
Proof.
  intros Ef Ei Em. destruct w as [d fs s wf wr]; simpl in *; subst fs.
  unfold Payments.handleMessage_tx, bind. rewrite query_run.
  unfold Payments.InsertInboxCheck at 1 2. rewrite Ei. simpl.
  rewrite query_run. rewrite TryDeductOnce_result.
  rewrite classify_run. fold (after_debit msgID orderID ev d).
  rewrite outcome_stable. destruct (outcome_of orderID ev d) as [status reason].
  simpl in *. rewrite Em. simpl. unfold InsertOutbox. simpl.
  unfold set_outbox_seq, ret, set_db, set_faults. simpl.
  unfold after_debit. by rewrite TryDeductOnce_outbox.
Qed.

(** What a delivery can have committed, under any schedule of database
    errors: nothing, or the whole effect of a fresh event. *)
Lemma payments_handleMessage_db topic nd m ev msgID orderID w :
  unmarshal_PaymentRequested (msg_value m) = Some ev →
  Payments.validate ev = Some (msgID, orderID) →
  db (Payments.handleMessage topic nd m w).2 = db w ∨
  (Payments.inbox (db w) !! msgID = None ∧
   ∃ row, ob_id row = outbox_seq w ∧ ob_topic row = topic ∧
     ob_kafka_key row = uuid_String orderID ∧
     db (Payments.handleMessage topic nd m w).2 =
       Payments.set_outbox (Payments.outbox (db w) ++ [row])
         (after_debit msgID orderID ev (db w))).
Proof.
  intros Eu Ev. unfold Payments.handleMessage. rewrite Eu, Ev.
  destruct (WithTx_cases (Payments.handleMessage_tx topic nd ev msgID orderID) w)
    as [(e & _ & ->)|(fs & a & w2 & E & _ & ->)]; [by left|].
  apply handleMessage_tx_ok in E. simpl in E.
  destruct (Payments.inbox (db w) !! msgID) eqn:Ei; [by left|].
  right. split; [done|]. destruct E as (payload & _ & ->).
  by eexists (mkOutboxRow _ _ _ _ _ _ _).
Qed.

End PaymentsConsumer.

(** * The orders consumer *)

Section OrdersConsumer.
Context `{Wire}.

Lemma orders_handleMessage_tx_ok msgID orderID status w a w2 :
  Orders.handleMessage_tx msgID orderID status w = (Ok a, w2) →
  db w2 = if bool_decide (msgID ∈ Orders.inbox (db w)) then db w
          else after_result msgID orderID status (db w).
Proof.
  unfold Orders.handleMessage_tx. intros E.
  apply bind_ok in E as (ins & w1 & Eq & E).
  apply query_ok in Eq as (E1 & Ed1 & _).
  unfold Orders.InsertInboxCheck in E1, Ed1.
  destruct (bool_decide (msgID ∈ Orders.inbox (db w))); simpl in *.
  { inversion E1; subst ins. simpl in E. apply ret_ok in E as [_ ->]. done. }
  inversion E1; subst ins; clear E1. simpl in E.
  apply query_ok in E as (_ & Ed2 & _). simpl in Ed2. by rewrite Ed2, Ed1.
Qed.

Lemma orders_handleMessage_tx_run msgID orderID status w :
  faults w = [] →
  Orders.handleMessage_tx msgID orderID status w =
  (Ok (), (if bool_decide (msgID ∈ Orders.inbox (db w)) then w
           else set_db (after_result msgID orderID status (db w)) w)).
Proof.
  intros Ef. destruct w as [d fs s wf wr]; simpl in *; subst fs.
  unfold Orders.handleMessage_tx, bind. rewrite query_run.
  unfold Orders.InsertInboxCheck.
  destruct (bool_decide (msgID ∈ Orders.inbox d)); simpl; [done|].
  rewrite query_run. reflexivity.
Qed.

(** What a delivery can have committed, under any schedule of database
    errors: nothing, or the inbox row together with the status update. *)
Lemma orders_handleMessage_db m ev msgID orderID w :
  unmarshal_PaymentResult (msg_value m) = Some ev →
  uuid_Parse (rs_event_id ev) = Some msgID →
  uuid_Parse (rs_order_id ev) = Some orderID →
  db (Orders.handleMessage m w).2 = db w ∨
  ((msgID ∉ Orders.inbox (db w)) ∧
   db (Orders.handleMessage m w).2 =
     after_result msgID orderID (Orders.newStatus ev) (db w)).
Proof.
  intros Eu Em Eo. unfold Orders.handleMessage. rewrite Eu, Em, Eo.
  destruct (WithTx_cases (Orders.handleMessage_tx msgID orderID (Orders.newStatus ev)) w)
    as [(e & _ & ->)|(fs & a & w2 & E & _ & ->)]; [by left|].
  apply orders_handleMessage_tx_ok in E. rewrite E. clear E. simpl.
  case_bool_decide; [by left|by right].
Qed.

End OrdersConsumer.

(** * Inbox deduplication and the classification of the debit *)

Section Consumers.
Context `{Wire}.

Lemma payments_duplicate_commits topic nd m ev msgID orderID w :
  unmarshal_PaymentRequested (msg_value m) = Some ev →
  Payments.validate ev = Some (msgID, orderID) →
  faults w = [] → is_Some (Payments.inbox (db w) !! msgID) →
  Payments.handleMessage topic nd m w = (Ok (), w).
Proof.
  intros Eu Ev Ef Ei. unfold Payments.handleMessage. rewrite Eu, Ev.
  apply WithTx_no_fault; [done| |done]. by apply handleMessage_tx_duplicate.
Qed.

Lemma orders_duplicate_commits m ev msgID orderID w :
  unmarshal_PaymentResult (msg_value m) = Some ev →
  uuid_Parse (rs_event_id ev) = Some msgID →
  uuid_Parse (rs_order_id ev) = Some orderID →
  faults w = [] → msgID ∈ Orders.inbox (db w) →
  Orders.handleMessage m w = (Ok (), w).
Proof.
  intros Eu Em Eo Ef Ei. unfold Orders.handleMessage. rewrite Eu, Em, Eo.
  apply WithTx_no_fault; [done| |done].
  rewrite orders_handleMessage_tx_run by done. by rewrite bool_decide_eq_true_2.
Qed.

(** A first delivery without database errors commits the inbox row and
    the status update. *)
Lemma orders_fresh_commits m ev msgID orderID w :
  unmarshal_PaymentResult (msg_value m) = Some ev →
  uuid_Parse (rs_event_id ev) = Some msgID →
  uuid_Parse (rs_order_id ev) = Some orderID →
  faults w = [] → msgID ∉ Orders.inbox (db w) →
  Orders.handleMessage m w =
  (Ok (), set_db (after_result msgID orderID (Orders.newStatus ev) (db w)) w).
Proof.
  intros Eu Em Eo Ef Ei. unfold Orders.handleMessage. rewrite Eu, Em, Eo.
  apply WithTx_no_fault; [done| |by destruct w].
  rewrite orders_handleMessage_tx_run by done. by rewrite bool_decide_eq_false_2.
Qed.

(** C1. For a PaymentRequested event (payments consumer, unprimed
    variables) and a PaymentResult event (orders consumer, primed
    variables) that decode and validate:
    - when the event id already has an inbox row, the handler leaves the
      database exactly as it was (no debit, no outbox row, no status
      update) under every schedule of database errors, and without such
      errors it returns nil, so the transaction commits;
    - in payments, the business tables (accounts, operations, outbox)
      change if and only if the inbox row of the event was newly inserted by
      the same call, and then exactly one outbox row was appended;
    - in orders, the status update is in the committed state when the inbox
      row was newly inserted, and the orders table is untouched
      otherwise. *)
Theorem inbox_gates_side_effects
    topic nd m ev msgID orderID (w : World Payments.DB)
    m' ev' msgID' orderID' (w' : World Orders.DB) :
  unmarshal_PaymentRequested (msg_value m) = Some ev →
  Payments.validate ev = Some (msgID, orderID) →
  unmarshal_PaymentResult (msg_value m') = Some ev' →
  uuid_Parse (rs_event_id ev') = Some msgID' →
  uuid_Parse (rs_order_id ev') = Some orderID' →
  let res := Payments.handleMessage topic nd m w in
  let newly := Payments.inbox (db w) !! msgID = None ∧
               is_Some (Payments.inbox (db res.2) !! msgID) in
  let res' := Orders.handleMessage m' w' in
  let newly' := (msgID' ∉ Orders.inbox (db w')) ∧
                msgID' ∈ Orders.inbox (db res'.2) in
  ((is_Some (Payments.inbox (db w) !! msgID) →
      db res.2 = db w ∧ (faults w = [] → res.1 = Ok ())) ∧
   (newly ↔ payments_business (db res.2) ≠ payments_business (db w)) ∧
   (newly → ∃ row, Payments.outbox (db res.2) = Payments.outbox (db w) ++ [row]))
  ∧
  ((msgID' ∈ Orders.inbox (db w') →
      db res'.2 = db w' ∧ (faults w' = [] → res'.1 = Ok ())) ∧
   (newly' → Orders.orders (db res'.2) =
               Orders.update_if_new orderID' (Orders.newStatus ev')
                 <$> Orders.orders (db w')) ∧
   (¬ newly' → Orders.orders (db res'.2) = Orders.orders (db w'))).
Proof.
  intros Eu Ev Eu' Em' Eo' res newly res' newly'. split.
  - destruct (payments_handleMessage_db topic nd m ev msgID orderID w Eu Ev)
      as [Hd|(Ei & row & _ & _ & _ & Hd)]; fold res in Hd.
    + (* nothing was committed *)
      split; [|split].
      * intros Hdup. split; [done|]. intros Ef. subst res.
        by rewrite (payments_duplicate_commits _ _ _ ev msgID orderID).
      * subst newly. rewrite Hd. split; [|done].
        intros [E1 [x E2]]. congruence.
      * subst newly. rewrite Hd. intros [E1 [x E2]]. congruence.
    + (* the effect of a fresh event was committed *)
      assert (Payments.outbox (db res.2) = Payments.outbox (db w) ++ [row]) as Ho.
      { rewrite Hd. done. }
      assert (newly) as Hn.
      { split; [done|]. rewrite Hd. simpl. unfold after_debit.
        rewrite TryDeductOnce_inbox. simpl. rewrite lookup_insert_eq. eauto. }
      split; [|split].
      * intros [x Hx]. congruence.
      * split; [|done]. intros _ E. unfold payments_business in E.
        assert (length (Payments.outbox (db res.2))
                = length (Payments.outbox (db w))) as Hl by congruence.
        rewrite Ho, length_app in Hl. simpl in Hl. lia.
      * intros _. by exists row.
  - destruct (orders_handleMessage_db m' ev' msgID' orderID' w' Eu' Em' Eo')
      as [Hd|(Ei & Hd)]; fold res' in Hd.
    + split; [|split].
      * intros Hdup. split; [done|]. intros Ef. subst res'.
        by rewrite (orders_duplicate_commits _ ev' msgID' orderID').
      * subst newly'. rewrite Hd. intros [E1 E2]. done.
      * intros _. by rewrite Hd.
    + split; [|split].
      * done.
      * intros _. by rewrite Hd.
      * intros Hn. exfalso. apply Hn. split; [done|]. rewrite Hd. simpl.
        set_solver.
Qed.

(** C2. A PaymentRequested event that validates and is not a duplicate,
    handled without database errors and with a result that serializes:
    the handler returns nil and appends exactly one outbox row, with
    [kafka_key = order_id], whose payload is the PaymentResult carrying
    [status]; the inbox row is committed with it; and [status] is SUCCESS
    when the operation row was inserted, FAIL_NO_ACCOUNT when it was not
    and the user has no account row, FAIL_NOT_ENOUGH_FUNDS when it was not
    and an account row exists. *)
Theorem debit_outcome_classified
    topic nd m ev msgID orderID (w : World Payments.DB) :
  unmarshal_PaymentRequested (msg_value m) = Some ev →
  Payments.validate ev = Some (msgID, orderID) →
  Payments.inbox (db w) !! msgID = None →
  faults w = [] →
  (∀ r, is_Some (marshal_PaymentResult r)) →
  let res := Payments.handleMessage topic nd m w in
  let user := rq_user_id ev in
  let op_inserted :=
    Payments.payment_operations (db w) !! orderID = None ∧
    is_Some (Payments.payment_operations (db res.2) !! orderID) in
  ∃ status reason payload,
    res.1 = Ok () ∧
    marshal_PaymentResult
      (mkPaymentResult (nd_event_id nd) (nd_now nd) (uuid_String orderID)
                       user status reason) = Some payload ∧
    Payments.outbox (db res.2) =
      Payments.outbox (db w) ++
        [mkOutboxRow (outbox_seq w) topic (uuid_String orderID) payload None 0 None] ∧
    is_Some (Payments.inbox (db res.2) !! msgID) ∧
    (op_inserted → status = STATUS_SUCCESS) ∧
    (¬ op_inserted → Payments.accounts (db w) !! user = None →
       status = STATUS_FAIL_NO_ACCOUNT) ∧
    (¬ op_inserted → is_Some (Payments.accounts (db w) !! user) →
       status = STATUS_FAIL_NOT_ENOUGH_FUNDS).
Proof.
  intros Eu Ev Ei Ef Hm res user op_inserted.
  destruct (Hm (mkPaymentResult (nd_event_id nd) (nd_now nd) (uuid_String orderID)
                  user (outcome_of orderID ev (db w)).1
                  (outcome_of orderID ev (db w)).2)) as [payload Ep].
  assert (res = (Ok (),
     set_db (Payments.set_outbox
               (Payments.outbox (db w) ++
                  [mkOutboxRow (outbox_seq w) topic (uuid_String orderID)
                               payload None 0 None])
               (after_debit msgID orderID ev (db w)))
       (set_outbox_seq (outbox_seq w + 1) w))) as Hres.
  { subst res. unfold Payments.handleMessage. rewrite Eu, Ev.
    apply WithTx_no_fault; [done| |done]. by apply handleMessage_tx_fresh. }
  assert (op_inserted ↔ debits (db w) orderID user (rq_amount ev) = true) as Hop.
  { subst op_inserted. rewrite Hres. simpl. unfold after_debit.
    rewrite TryDeductOnce_operations.
    change (debits (Payments.set_inbox _ (db w)) orderID (rq_user_id ev) (rq_amount ev))
      with (debits (db w) orderID user (rq_amount ev)).
    destruct (debits (db w) orderID user (rq_amount ev)) eqn:Ed; simpl.
    - split; [done|]. intros _. split; [|eauto].
      unfold debits in Ed. apply andb_prop in Ed as [Ed _].
      by apply bool_decide_eq_true in Ed.
    - split; [|done]. intros [E1 [x E2]]. congruence. }
  exists (outcome_of orderID ev (db w)).1, (outcome_of orderID ev (db w)).2, payload.
  rewrite Hres. simpl. split_and!; try done.
  - unfold after_debit. rewrite TryDeductOnce_inbox. simpl.
    rewrite lookup_insert_eq. eauto.
  - intros Ho. apply Hop in Ho. unfold outcome_of. fold user. by rewrite Ho.
  - intros Ho Ea. unfold outcome_of. fold user.
    destruct (debits (db w) orderID user (rq_amount ev));
      [by destruct Ho; apply Hop|].
    simpl. rewrite Ea. by rewrite bool_decide_eq_false_2 by (by intros [??]).
  - intros Ho Ea. unfold outcome_of. fold user.
    destruct (debits (db w) orderID user (rq_amount ev));
      [by destruct Ho; apply Hop|].
    simpl. by rewrite bool_decide_eq_true_2.
Qed.

End Consumers.

Lemma inbox_gates_side_effects_witness :
  unmarshal_PaymentRequested (Wire:=Example.wire) (msg_value Example.requested_msg)
    = Some Example.requested ∧
  Payments.validate (H:=Example.wire) Example.requested = Some (2%N, 1%N) ∧
  unmarshal_PaymentResult (Wire:=Example.wire) (msg_value Example.succeeded_msg)
    = Some Example.succeeded ∧
  uuid_Parse (Wire:=Example.wire) (rs_event_id Example.succeeded) = Some 3%N ∧
  uuid_Parse (Wire:=Example.wire) (rs_order_id Example.succeeded) = Some 1%N ∧
  db (Payments.handleMessage (H:=Example.wire) Example.result_topic Example.nd
        Example.requested_msg Example.payments_seen).2 = db Example.payments_seen ∧
  db (Orders.handleMessage (H:=Example.wire) Example.succeeded_msg
        Example.orders_seen).2 = db Example.orders_seen.
Proof.
  assert (unmarshal_PaymentRequested (Wire:=Example.wire)
            (msg_value Example.requested_msg) = Some Example.requested)
    as H1 by reflexivity.
  assert (Payments.validate (H:=Example.wire) Example.requested = Some (2%N, 1%N))
    as H2 by reflexivity.
  assert (unmarshal_PaymentResult (Wire:=Example.wire)
            (msg_value Example.succeeded_msg) = Some Example.succeeded)
    as H3 by reflexivity.
  assert (uuid_Parse (Wire:=Example.wire) (rs_event_id Example.succeeded) = Some 3%N)
    as H4 by reflexivity.
  assert (uuid_Parse (Wire:=Example.wire) (rs_order_id Example.succeeded) = Some 1%N)
    as H5 by reflexivity.
  destruct (inbox_gates_side_effects (H:=Example.wire) Example.result_topic
              Example.nd Example.requested_msg Example.requested 2%N 1%N
              Example.payments_seen Example.succeeded_msg Example.succeeded
              3%N 1%N Example.orders_seen H1 H2 H3 H4 H5)
    as [(Hp & _) (Ho & _)].
  repeat (split; [assumption|]). split.
  - apply Hp. exists 1%N. reflexivity.
  - apply Ho. vm_compute. reflexivity.
Defined.

Lemma debit_outcome_classified_witness :
  unmarshal_PaymentRequested (Wire:=Example.wire) (msg_value Example.requested_msg)
    = Some Example.requested ∧
  Payments.validate (H:=Example.wire) Example.requested = Some (2%N, 1%N) ∧
  Payments.inbox (db Example.payments) !! 2%N = None ∧
  faults Example.payments = [] ∧
  (∀ r, is_Some (marshal_PaymentResult (Wire:=Example.wire) r)) ∧
  ∃ payload,
    Payments.outbox
      (db (Payments.handleMessage (H:=Example.wire) Example.result_topic
             Example.nd Example.requested_msg Example.payments).2) =
    [mkOutboxRow 1 Example.result_topic Example.id1 payload None 0 None].
Proof.
  assert (unmarshal_PaymentRequested (Wire:=Example.wire)
            (msg_value Example.requested_msg) = Some Example.requested)
    as H1 by reflexivity.
  assert (Payments.validate (H:=Example.wire) Example.requested = Some (2%N, 1%N))
    as H2 by reflexivity.
  assert (Payments.inbox (db Example.payments) !! 2%N = None) as H3 by reflexivity.
  assert (faults Example.payments = []) as H4 by reflexivity.
  assert (∀ r, is_Some (marshal_PaymentResult (Wire:=Example.wire) r)) as H5
    by (intros r; eexists; reflexivity).
  destruct (debit_outcome_classified (H:=Example.wire) Example.result_topic
              Example.nd Example.requested_msg Example.requested 2%N 1%N
              Example.payments H1 H2 H3 H4 H5)
    as (status & reason & payload & _ & _ & E & _).
  repeat (split; [assumption|]). exists payload. exact E.
Defined.

(** * The order state machine *)

Lemma row_evolves_refl r : row_evolves r r.
Proof. split; [by destruct r|by left]. Qed.

Lemma row_evolves_trans r1 r2 r3 :
  row_evolves r1 r2 → row_evolves r2 r3 → row_evolves r1 r3.
Proof.
  intros [E12 H12] [E23 H23]. split.
  - rewrite E23 at 1. rewrite E12. by destruct r1.
  - destruct H23 as [->|[E2 T3]]; [done|].
    destruct H12 as [<-|[E1 T2]]; [by right|].
    rewrite E2 in T2. by destruct T2.
Qed.

Global Instance orders_evolve_refl : Reflexive orders_evolve.
Proof. intros d i r E. exists r. split; [done|apply row_evolves_refl]. Qed.

Global Instance orders_evolve_trans : Transitive orders_evolve.
Proof.
  intros d1 d2 d3 H12 H23 i r E.
  destruct (H12 i r E) as (r2 & E2 & Hr2).
  destruct (H23 i r2 E2) as (r3 & E3 & Hr3).
  exists r3. split; [done|]. by eapply row_evolves_trans.
Qed.

Lemma evolve_same_orders d d' :
  Orders.orders d' = Orders.orders d → orders_evolve d d'.
Proof. intros E i r Hi. rewrite E. exists r. split; [done|apply row_evolves_refl]. Qed.

Lemma evolve_append d row :
  orders_evolve d (Orders.set_orders (Orders.orders d ++ [row]) d).
Proof.
  intros i r Hi. exists r. split; [|apply row_evolves_refl].
  simpl. by apply lookup_app_l_Some.
Qed.

Lemma update_if_new_evolves oid s r :
  terminal s → row_evolves r (Orders.update_if_new oid s r).
Proof.
  intros Hs. unfold Orders.update_if_new. case_bool_decide as Hc.
  - destruct Hc as [_ Hn]. split; [done|]. by right.
  - apply row_evolves_refl.
Qed.

Lemma evolve_update oid s d :
  terminal s → orders_evolve d (Orders.UpdateOrderStatusIfNew oid s d).2.
Proof.
  intros Hs i r Hi. simpl. rewrite list_lookup_fmap, Hi. simpl.
  eexists. split; [done|]. by apply update_if_new_evolves.
Qed.

Section OrdersEvolution.
Context `{Wire}.

Lemma newStatus_terminal ev : terminal (Orders.newStatus ev).
Proof. unfold Orders.newStatus, terminal. case_bool_decide; eauto. Qed.

Lemma handleMessage_evolves m : respects orders_evolve (Orders.handleMessage m).
Proof.
  unfold Orders.handleMessage, Orders.handleMessage_tx.
  repeat respects_step; (apply respects_query; [apply _|]; intros d).
  - unfold Orders.InsertInboxCheck. case_bool_decide; simpl; [done|].
    by apply evolve_same_orders.
  - apply evolve_update, newStatus_terminal.
Qed.

Lemma CreateOrder_evolves nd req :
  respects orders_evolve (Orders.Handlers_CreateOrder nd req).
Proof.
  unfold Orders.Handlers_CreateOrder, Orders.CreateOrder_tx, Orders.CreateOrder_insert.
  repeat respects_step;
    first [ apply respects_InsertOutbox; [apply _|]; intros d row';
            by apply evolve_same_orders
          | apply respects_query; [apply _|]; intros d;
            unfold Orders.CreateOrder, Orders.CreateOrderIdempotent,
              Orders.GetOrderByIdempotency;
            repeat case_match; simpl;
            first [ apply evolve_append | reflexivity ] ].
Qed.

Lemma publish_rows_evolves now rows :
  respects orders_evolve (Orders.publish_rows now rows).
Proof.
  induction rows as [|r rows IH]; simpl.
  - respects_step.
  - repeat respects_step; try exact IH;
      (apply respects_query; [apply _|]; intros d; by apply evolve_same_orders).
Qed.

Lemma publishOnce_evolves batch now :
  respects orders_evolve (Orders.publishOnce batch now).
Proof.
  unfold Orders.publishOnce. repeat respects_step.
  - apply respects_query; [apply _|]. intros d. reflexivity.
  - apply publish_rows_evolves.
Qed.

Lemma orders_step_evolves op w : orders_evolve (db w) (db (orders_step op w)).
Proof.
  destruct op; simpl.
  - apply CreateOrder_evolves.
  - apply handleMessage_evolves.
  - apply publishOnce_evolves.
Qed.

Lemma orders_run_evolves ops w : orders_evolve (db w) (db (orders_run ops w)).
Proof.
  revert w. induction ops as [|op ops IH]; intros w; simpl; [reflexivity|].
  etrans; [apply orders_step_evolves|apply IH].
Qed.

End OrdersEvolution.

Section OrderStateMachine.
Context `{Wire}.

(** C3. For a PaymentResult that decodes and an order row [r] (row [i] of
    the orders table):
    - the new status is FINISHED when the event status is SUCCESS and
      CANCELLED for every other status;
    - one delivery leaves the row as it is, or, only if its status is NEW
      and its order id is the event's, sets that new status;
    - the first delivery of the event (its id has no inbox row), handled
      without database errors, returns nil and does set that new status
      on the row when the row is NEW and carries the event's order id,
      and then the row's status is FINISHED exactly when the event status
      is SUCCESS and CANCELLED otherwise;
    - along every sequence of operations of the orders service (deliveries
      among them), under every schedule of database errors, the row keeps
      all other columns and its status stays or goes from NEW to FINISHED
      or CANCELLED; once it has changed it does not change again, and a
      terminal status never changes. *)
Theorem order_status_machine
    m ev msgID orderID (w : World Orders.DB) ops1 ops2 i r :
  unmarshal_PaymentResult (msg_value m) = Some ev →
  uuid_Parse (rs_event_id ev) = Some msgID →
  uuid_Parse (rs_order_id ev) = Some orderID →
  Orders.orders (db w) !! i = Some r →
  (* the mapping of the event status *)
  ((rs_status ev = STATUS_SUCCESS → Orders.newStatus ev = "FINISHED") ∧
   (rs_status ev ≠ STATUS_SUCCESS → Orders.newStatus ev = "CANCELLED")) ∧
  (* one delivery *)
  (∃ r', Orders.orders (db (Orders.handleMessage m w).2) !! i = Some r' ∧
         (r' = r ∨
          (Orders.or_status r = "NEW" ∧ Orders.or_order_id r = orderID ∧
           r' = Orders.set_status (Orders.newStatus ev) r))) ∧
  (* every sequence of operations, split anywhere *)
  (∃ r1 r2,
     Orders.orders (db (orders_run ops1 w)) !! i = Some r1 ∧
     Orders.orders (db (orders_run ops2 (orders_run ops1 w))) !! i = Some r2 ∧
     row_evolves r r1 ∧ row_evolves r1 r2 ∧
     (Orders.or_status r1 ≠ Orders.or_status r →
        Orders.or_status r = "NEW" ∧ terminal (Orders.or_status r1) ∧
        Orders.or_status r2 = Orders.or_status r1) ∧
     (terminal (Orders.or_status r) → Orders.or_status r1 = Orders.or_status r)) ∧
  (* the first delivery, without database errors, applies the new status *)
  (faults w = [] → (msgID ∉ Orders.inbox (db w)) →
   Orders.or_status r = "NEW" → Orders.or_order_id r = orderID →
   (Orders.handleMessage m w).1 = Ok () ∧
   Orders.orders (db (Orders.handleMessage m w).2) !! i =
     Some (Orders.set_status (Orders.newStatus ev) r) ∧
   Orders.or_status (Orders.set_status (Orders.newStatus ev) r) =
     (if bool_decide (rs_status ev = STATUS_SUCCESS) then "FINISHED" else "CANCELLED")).
Proof.
  intros Eu Em Eo Hi. split_and!.
  - intros E. unfold Orders.newStatus. by rewrite bool_decide_eq_true_2.
  - intros E. unfold Orders.newStatus. by rewrite bool_decide_eq_false_2.
  - destruct (orders_handleMessage_db m ev msgID orderID w Eu Em Eo)
      as [->|(_ & ->)].
    + exists r. split; [done|by left].
    + simpl. rewrite list_lookup_fmap, Hi. simpl. eexists. split; [done|].
      unfold Orders.update_if_new. case_bool_decide as Hc; [|by left].
      right. by destruct Hc.
  - destruct (orders_run_evolves ops1 w i r Hi) as (r1 & E1 & H1).
    destruct (orders_run_evolves ops2 (orders_run ops1 w) i r1 E1) as (r2 & E2 & H2).
    exists r1, r2. split_and!; try done.
    + intros Hne. destruct H1 as [_ [?|[En Ht]]]; [done|].
      split_and!; try done.
      destruct H2 as [_ [?|[En2 _]]]; [done|].
      rewrite En2 in Ht. by destruct Ht.
    + intros Ht. destruct H1 as [_ [?|[En _]]]; [done|].
      rewrite En in Ht. by destruct Ht.
  - intros Ef Ei En Eid.
    rewrite (orders_fresh_commits m ev msgID orderID w Eu Em Eo Ef Ei). simpl.
    split_and!; [done| |done].
    rewrite list_lookup_fmap, Hi. simpl. unfold Orders.update_if_new.
    by rewrite bool_decide_eq_true_2.
Qed.
End OrderStateMachine.

Lemma order_status_machine_witness :
  unmarshal_PaymentResult (Wire:=Example.wire) (msg_value Example.succeeded_msg)
    = Some Example.succeeded ∧
  uuid_Parse (Wire:=Example.wire) (rs_event_id Example.succeeded) = Some 3%N ∧
  uuid_Parse (Wire:=Example.wire) (rs_order_id Example.succeeded) = Some 1%N ∧
  Orders.orders (db Example.orders) !! 0%nat = Some (Example.order1 "NEW") ∧
  (∃ r', Orders.orders
           (db (Orders.handleMessage (H:=Example.wire) Example.succeeded_msg
                  Example.orders).2) !! 0%nat = Some r' ∧
         (r' = Example.order1 "NEW" ∨
          (Orders.or_status (Example.order1 "NEW") = "NEW" ∧
           Orders.or_order_id (Example.order1 "NEW") = 1%N ∧
           r' = Orders.set_status (Orders.newStatus Example.succeeded)
                  (Example.order1 "NEW")))) ∧
  faults Example.orders = [] ∧
  (3%N ∉ Orders.inbox (db Example.orders)) ∧
  (Orders.handleMessage (H:=Example.wire) Example.succeeded_msg Example.orders).1
    = Ok () ∧
  Orders.orders
    (db (Orders.handleMessage (H:=Example.wire) Example.succeeded_msg
           Example.orders).2) !! 0%nat = Some (Example.order1 "FINISHED").
Proof.
  assert (unmarshal_PaymentResult (Wire:=Example.wire)
            (msg_value Example.succeeded_msg) = Some Example.succeeded)
    as H1 by reflexivity.
  assert (uuid_Parse (Wire:=Example.wire) (rs_event_id Example.succeeded) = Some 3%N)
    as H2 by reflexivity.
  assert (uuid_Parse (Wire:=Example.wire) (rs_order_id Example.succeeded) = Some 1%N)
    as H3 by reflexivity.
  assert (Orders.orders (db Example.orders) !! 0%nat = Some (Example.order1 "NEW"))
    as H4 by reflexivity.
  assert (faults Example.orders = []) as H5 by reflexivity.
  assert (3%N ∉ Orders.inbox (db Example.orders)) as H6
    by apply not_elem_of_empty.
  destruct (order_status_machine (H:=Example.wire) Example.succeeded_msg
              Example.succeeded 3%N 1%N Example.orders
              [ODeliver Example.succeeded_msg] [ODeliver (mkMessage Example.id1 [x02])]
              0%nat (Example.order1 "NEW") H1 H2 H3 H4) as (_ & Hd & _ & Ha).
  destruct (Ha H5 H6 eq_refl eq_refl) as (Hr & Hrow & _).
  repeat (split; [assumption|]). exact Hrow.
Defined.

(** * Keyed top-up *)

Lemma TopUp_tx_run u k a d s wf wr :
  Payments.TopUp_tx u k a (mkWorld d [] s wf wr) =
  match Payments.topup_idempotency d !! (u, k) with
  | Some row =>
      if bool_decide (Payments.ti_amount row ≠ a)
      then (Err mismatch, mkWorld d [] s wf wr)
      else (Ok (Payments.ti_balance_after row, false), mkWorld d [] s wf wr)
  | None =>
      match Payments.accounts d !! u with
      | Some c => (Ok (c + a, true), mkWorld (topped_up u k a c d) [] s wf wr)
      | None =>
          (Err (ErrStatus NotFound "account not found"),
           mkWorld (Payments.set_topup_idempotency
                      (delete (u, k)
                         (<[(u, k) := Payments.mkTopupRow a 0]>
                            (Payments.topup_idempotency d))) d) [] s wf wr)
      end
  end.
Proof.
  unfold Payments.TopUp_tx, bind. rewrite query_run.
  unfold Payments.InsertTopupIdempotency at 1 2.
  destruct (Payments.topup_idempotency d !! (u, k)) as [row|] eqn:Ei; simpl.
  - rewrite query_run. unfold Payments.GetTopupIdempotency. rewrite Ei. simpl.
    by case_bool_decide.
  - unfold on_error. rewrite query_run. unfold Payments.TopUp at 1 2. simpl.
    destruct (Payments.accounts d !! u) as [c|] eqn:Ea; simpl.
    + rewrite query_run. unfold Payments.SetTopupIdempotencyBalance. simpl.
      rewrite lookup_insert_eq. simpl. unfold topped_up, ret.
      by rewrite insert_insert_eq.
    + unfold Payments.TopUp. simpl. rewrite Ea. done.
Qed.

Lemma TopUp_tx_ok u k a w bal upd w2 :
  Payments.TopUp_tx u k a w = (Ok (bal, upd), w2) →
  match Payments.topup_idempotency (db w) !! (u, k) with
  | Some row => Payments.ti_amount row = a ∧ bal = Payments.ti_balance_after row ∧
                db w2 = db w
  | None => ∃ c, Payments.accounts (db w) !! u = Some c ∧ bal = c + a ∧
                 db w2 = topped_up u k a c (db w)
  end.
Proof.
  unfold Payments.TopUp_tx. intros E.
  apply bind_ok in E as (ins & w1 & Eq & E).
  apply query_ok in Eq as (E1 & Ed1 & _).
  unfold Payments.InsertTopupIdempotency in E1, Ed1.
  destruct (Payments.topup_idempotency (db w) !! (u, k)) as [row|] eqn:Ei;
    simpl in *; inversion E1; subst ins; clear E1; simpl in E.
  - apply bind_ok in E as (ex & w3 & Eq & E).
    apply query_ok in Eq as (E3 & Ed3 & _).
    unfold Payments.GetTopupIdempotency in E3, Ed3. rewrite Ed1, Ei in E3, Ed3.
    simpl in *. inversion E3; subst ex; clear E3.
    case_bool_decide as Hne; [done|]. apply ret_ok in E as [[= -> ->] ->].
    done.
  - apply bind_ok in E as (acc & w3 & Eq & E).
    apply on_error_ok in Eq as [Eq|(e & w' & _ & Eh)].
    2:{ apply bind_ok in Eh as (? & ? & _ & Eh). by destruct e. }
    apply query_ok in Eq as (E3 & Ed3 & _).
    unfold Payments.TopUp in E3, Ed3. rewrite Ed1 in E3, Ed3. simpl in *.
    destruct (Payments.accounts (db w) !! u) as [c|] eqn:Ea; [|done].
    simpl in *. inversion E3; subst acc; clear E3.
    apply bind_ok in E as (b' & w4 & Eq & E).
    apply query_ok in Eq as (E4 & Ed4 & _).
    unfold Payments.SetTopupIdempotencyBalance in E4, Ed4.
    rewrite Ed3 in E4, Ed4. simpl in *. rewrite lookup_insert_eq in E4, Ed4.
    simpl in *. apply ret_ok in E as [[= -> ->] ->].
    exists c. split_and!; [done..|]. rewrite Ed4. unfold topped_up.
    by rewrite insert_insert_eq.
Qed.

Lemma Handlers_TopUp_keyed req :
  keyed_topup req →
  Payments.Handlers_TopUp req =
  (let* (balance, _) :=
     on_error (WithTx (Payments.TopUp_tx (Payments.tu_user_id req)
                         (Payments.tu_idempotency_key req) (Payments.tu_amount req)))
       (λ err, match status_FromError err with
               | Some (c, msg) => fail (ErrStatus c msg)
               | None => fail (ErrStatus Internal "failed to top up")
               end) in
   ret (Payments.mkAccount (Payments.tu_user_id req) balance)).
Proof.
  intros (Hu & Ha & Hk). unfold Payments.Handlers_TopUp.
  rewrite !bool_decide_eq_false_2; [done|done|lia|done].
Qed.

(** The keyed top-up without database errors. *)
Lemma Handlers_TopUp_run req w :
  keyed_topup req → faults w = [] →
  let u := Payments.tu_user_id req in
  let k := Payments.tu_idempotency_key req in
  let a := Payments.tu_amount req in
  Payments.Handlers_TopUp req w =
  match Payments.topup_idempotency (db w) !! (u, k) with
  | Some row =>
      if bool_decide (Payments.ti_amount row ≠ a) then (Err mismatch, w)
      else (Ok (Payments.mkAccount u (Payments.ti_balance_after row)), w)
  | None =>
      match Payments.accounts (db w) !! u with
      | Some c => (Ok (Payments.mkAccount u (c + a)),
                   set_db (topped_up u k a c (db w)) w)
      | None => (Err (ErrStatus NotFound "account not found"), w)
      end
  end.
Proof.
  intros Hreq Ef u k a. rewrite Handlers_TopUp_keyed by done. fold u k a.
  destruct w as [d fs s wf wr]; simpl in *; subst fs.
  pose proof (TopUp_tx_run u k a d s wf wr) as Htx.
  unfold bind, on_error.
  destruct (Payments.topup_idempotency d !! (u, k)) as [row|] eqn:Ei.
  - case_bool_decide.
    + erewrite WithTx_no_fault_err; [|done|exact Htx]. done.
    + erewrite WithTx_no_fault; [|done|exact Htx|done]. done.
  - destruct (Payments.accounts d !! u) as [c|] eqn:Ea.
    + erewrite WithTx_no_fault; [|done|exact Htx|done]. done.
    + erewrite WithTx_no_fault_err; [|done|exact Htx]. done.
Qed.

(** What a keyed top-up that returned an account did, under any schedule
    of database errors. *)
Lemma Handlers_TopUp_ok req w acc w1 :
  keyed_topup req →
  Payments.Handlers_TopUp req w = (Ok acc, w1) →
  let u := Payments.tu_user_id req in
  let k := Payments.tu_idempotency_key req in
  let a := Payments.tu_amount req in
  match Payments.topup_idempotency (db w) !! (u, k) with
  | Some row => Payments.ti_amount row = a ∧
                acc = Payments.mkAccount u (Payments.ti_balance_after row) ∧
                db w1 = db w
  | None => ∃ c, Payments.accounts (db w) !! u = Some c ∧
                 acc = Payments.mkAccount u (c + a) ∧
                 db w1 = topped_up u k a c (db w)
  end.
Proof.
  intros Hreq E u k a. rewrite Handlers_TopUp_keyed in E by done. fold u k a in E.
  apply bind_ok in E as ([bal upd] & w2 & Etx & E).
  apply ret_ok in E as [-> ->].
  apply on_error_ok in Etx as [Etx|(e & w' & _ & Eh)].
  2:{ by destruct (status_FromError e) as [[??]|]. }
  apply WithTx_ok in Etx as (fs & w3 & Etx & Hd).
  apply TopUp_tx_ok in Etx. simpl in Etx. rewrite Hd.
  destruct (Payments.topup_idempotency (db w) !! (u, k)) as [row|].
  - destruct Etx as (? & -> & ?). done.
  - destruct Etx as (c & ? & -> & ?). by exists c.
Qed.

(** A keyed top-up that returned an error changed nothing. *)
Lemma Handlers_TopUp_err req w e w1 :
  Payments.Handlers_TopUp req w = (Err e, w1) →
  Payments.tu_idempotency_key req ≠ "" → db w1 = db w.
Proof.
  unfold Payments.Handlers_TopUp. intros E Hk.
  repeat (case_bool_decide; [by inversion E|]).
  unfold bind, on_error in E.
  destruct (WithTx _ w) as [[[bal upd]|e'] w2] eqn:Etx; [done|].
  apply WithTx_err in Etx.
  destruct (status_FromError e') as [[??]|]; inversion E; by subst.
Qed.

Lemma Handlers_CreateAccount_run create w :
  faults w = [] → Payments.ca_user_id create ≠ "" →
  Payments.accounts (db w) !! Payments.ca_user_id create = None →
  Payments.Handlers_CreateAccount create w =
  (Ok (Payments.mkAccount (Payments.ca_user_id create) 0),
   set_db (Payments.set_accounts
             (<[Payments.ca_user_id create := 0]> (Payments.accounts (db w))) (db w)) w).
Proof.
  intros Ef Hu Ea. destruct w as [d fs s wf wr]; simpl in *; subst fs.
  unfold Payments.Handlers_CreateAccount, autocommit, on_error.
  rewrite bool_decide_eq_false_2 by done.
  case_bool_decide; rewrite query_run;
    unfold Payments.CreateAccount, Payments.CreateAccountIdempotent;
    rewrite Ea; done.
Qed.

(** C5. A TopUp that carries a key and passes validation, run without
    database errors:
    - the idempotency insert stores the row with [balance_after = 0] and
      reports 1, or reports 0 on a key that is already there and changes
      nothing;
    - on a duplicate key whose stored amount matches, the stored
      [balance_after] is returned and nothing changes, the balance
      included;
    - on a fresh key with an account, the amount is added to the balance
      and the new balance is written back to the idempotency row;
    - on a fresh key without an account, the call fails with not_found, the
      database is as before, so no idempotency row remains for the key, and
      the same call succeeds once the account has been created. *)
Theorem keyed_topup_behaviour
    (req : Payments.TopUpRequest) (create : Payments.CreateAccountRequest)
    (w : World Payments.DB) :
  keyed_topup req → faults w = [] →
  Payments.ca_user_id create = Payments.tu_user_id req →
  let u := Payments.tu_user_id req in
  let k := Payments.tu_idempotency_key req in
  let a := Payments.tu_amount req in
  let res := Payments.Handlers_TopUp req w in
  match Payments.topup_idempotency (db w) !! (u, k) with
  | Some row =>
      Payments.InsertTopupIdempotency u k a (db w) = (Ok 0, db w) ∧
      (Payments.ti_amount row = a →
       res = (Ok (Payments.mkAccount u (Payments.ti_balance_after row)), w))
  | None =>
      (Payments.InsertTopupIdempotency u k a (db w)).1 = Ok 1 ∧
      Payments.topup_idempotency (Payments.InsertTopupIdempotency u k a (db w)).2
        !! (u, k) = Some (Payments.mkTopupRow a 0) ∧
      match Payments.accounts (db w) !! u with
      | Some c =>
          res.1 = Ok (Payments.mkAccount u (c + a)) ∧
          Payments.accounts (db res.2) = <[u := c + a]> (Payments.accounts (db w)) ∧
          Payments.topup_idempotency (db res.2) =
            <[(u, k) := Payments.mkTopupRow a (c + a)]>
              (Payments.topup_idempotency (db w))
      | None =>
          res.1 = Err (ErrStatus NotFound "account not found") ∧
          db res.2 = db w ∧
          Payments.topup_idempotency (db res.2) !! (u, k) = None ∧
          (Payments.Handlers_TopUp req
             (Payments.Handlers_CreateAccount create res.2).2).1
            = Ok (Payments.mkAccount u a)
      end
  end.
Proof.
  intros Hreq Ef Hc u k a res.
  pose proof (Handlers_TopUp_run req w Hreq Ef) as Hrun.
  cbv zeta in Hrun. fold u k a res in Hrun.
  unfold Payments.InsertTopupIdempotency.
  destruct (Payments.topup_idempotency (db w) !! (u, k)) as [row|] eqn:Ei;
    cbv iota in Hrun.
  - split; [done|]. intros Em. by rewrite bool_decide_eq_false_2 in Hrun by tauto.
  - simpl. split; [done|]. split; [by rewrite lookup_insert_eq|].
    destruct (Payments.accounts (db w) !! u) as [c|] eqn:Ea; rewrite Hrun; simpl.
    + done.
    + split_and!; try done.
      assert (Payments.ca_user_id create ≠ "") as Hu
        by (rewrite Hc; apply Hreq).
      rewrite Handlers_CreateAccount_run by (done || by rewrite Hc).
      simpl. rewrite Handlers_TopUp_run by done. simpl.
      fold u k a. rewrite Ei, Hc. fold u. rewrite lookup_insert_eq. simpl.
      by rewrite Z.add_0_l.
Qed.

Global Instance idempotency_same_refl : Reflexive idempotency_same.
Proof. by intros d. Qed.

Global Instance idempotency_same_trans : Transitive idempotency_same.
Proof. intros d1 d2 d3 H12 H23. unfold idempotency_same in *. congruence. Qed.

Global Instance idempotency_kept_refl : Reflexive idempotency_kept.
Proof. by intros d key row. Qed.

Global Instance idempotency_kept_trans : Transitive idempotency_kept.
Proof. intros d1 d2 d3 H12 H23 key row E. by apply H23, H12. Qed.


Section TopUpReplay.
Context `{Wire}.








End TopUpReplay.

Lemma keyed_topup_behaviour_witness :
  let req := Payments.mkTopUpRequest "u1" 50 "k6" in
  let create := Payments.mkCreateAccountRequest "u1" "k1" in
  keyed_topup req ∧ faults Example.payments = [] ∧
  Payments.ca_user_id create = Payments.tu_user_id req ∧
  (Payments.Handlers_TopUp req Example.payments).1 = Ok (Payments.mkAccount "u1" 1050).
Proof.
  intros req create.
  assert (keyed_topup req) as H1 by (repeat split; (done || lia)).
  assert (faults Example.payments = []) as H2 by reflexivity.
  assert (Payments.ca_user_id create = Payments.tu_user_id req) as H3 by reflexivity.
  pose proof (keyed_topup_behaviour req create Example.payments H1 H2 H3) as H.
  repeat (split; [assumption|]).
  vm_compute in H. destruct H as (_ & _ & H & _). exact H.
Defined.

(** * Keyed create-order *)

Lemma list_find_Exists {A} (P : A → Prop) `{!∀ x, Decision (P x)} (l : list A) :
  Exists P l ↔ is_Some (list_find P l).
Proof.
  rewrite Exists_exists. split.
  - intros (x & Hx & HP). apply list_elem_of_lookup in Hx as [i Hi].
    destruct (list_find P l) eqn:E; [eauto|].
    apply list_find_None in E. rewrite Forall_forall in E.
    destruct (E x); [|done]. by eapply list_elem_of_lookup_2.
  - intros [[i x] E]. apply list_find_Some in E as (Hi & HP & _).
    exists x. split; [|done]. by eapply list_elem_of_lookup_2.
Qed.

Section CreateOrder.
Context `{Wire}.

Lemma Handlers_CreateOrder_keyed nd req :
  keyed_order req →
  Orders.Handlers_CreateOrder nd req =
  on_error (WithTx (Orders.CreateOrder_tx nd req))
    (λ err, match status_FromError err with
            | Some (c, msg) => fail (ErrStatus c msg)
            | None => fail (ErrStatus Internal "failed to create order")
            end).
Proof.
  intros (Hu & Ha & Hd & Hk). unfold Orders.Handlers_CreateOrder.
  rewrite !bool_decide_eq_false_2; [done|done|lia|done].
Qed.

(** The transaction body of a keyed CreateOrder without database errors. *)
Lemma CreateOrder_tx_run nd req d s wf wr :
  Orders.co_idempotency_key req ≠ "" →
  Orders.CreateOrder_tx nd req (mkWorld d [] s wf wr) =
  match list_find (Orders.has_idempotency (Orders.co_user_id req)
                     (Orders.co_idempotency_key req)) (Orders.orders d) with
  | Some (_, row) =>
      if replayed req row
      then (Ok (Orders.order_of_row row), mkWorld d [] s wf wr)
      else (Err mismatch, mkWorld d [] s wf wr)
  | None =>
      if Orders.has_order_id (nd_uuid nd) d then (Err ErrDb, mkWorld d [] s wf wr)
      else
        match marshal_PaymentRequested (requested_event nd req) with
        | Some payload =>
            (Ok (Orders.order_of_row (new_order_row nd req)),
             mkWorld (order_created nd req payload s d) [] (s + 1) wf wr)
        | None =>
            (Err (ErrStatus Internal "failed to marshal event"),
             mkWorld (Orders.set_orders (Orders.orders d ++ [new_order_row nd req]) d)
                     [] s wf wr)
        end
  end.
Proof.
  intros Hk. unfold Orders.CreateOrder_tx, Orders.CreateOrder_insert.
  rewrite bool_decide_eq_false_2 by done.
  unfold bind at 1. unfold on_error, bind at 1. rewrite query_run.
  destruct (list_find _ (Orders.orders d)) as [[i row]|] eqn:Ef.
  - assert (Orders.CreateOrderIdempotent nd (Orders.co_user_id req)
              (Orders.co_amount req) (Orders.co_description req)
              (Orders.co_idempotency_key req) d = (Err ErrNoRows, d)) as ->.
    { unfold Orders.CreateOrderIdempotent.
      by rewrite bool_decide_eq_true_2 by (rewrite list_find_Exists, Ef; eauto). }
    simpl. unfold bind. rewrite query_run. unfold Orders.GetOrderByIdempotency.
    rewrite Ef. simpl. unfold replayed. by destruct (_ || _).
  - assert (Orders.CreateOrderIdempotent nd (Orders.co_user_id req)
              (Orders.co_amount req) (Orders.co_description req)
              (Orders.co_idempotency_key req) d =
            if Orders.has_order_id (nd_uuid nd) d then (Err ErrDb, d)
            else (Ok (new_order_row nd req),
                  Orders.set_orders (Orders.orders d ++ [new_order_row nd req]) d))
      as ->.
    { unfold Orders.CreateOrderIdempotent.
      by rewrite bool_decide_eq_false_2
        by (rewrite list_find_Exists, Ef; by intros [??]). }
    destruct (Orders.has_order_id (nd_uuid nd) d) eqn:Eid; simpl; [done|].
    unfold bind, on_error. fold (requested_event nd req).
    destruct (marshal_PaymentRequested (requested_event nd req)) as [payload|]; simpl.
    + done.
    + done.
Qed.

(** What a keyed transaction body that returned an order did, under any
    schedule of database errors. *)
Lemma CreateOrder_tx_ok nd req w resp w2 :
  Orders.co_idempotency_key req ≠ "" →
  Orders.CreateOrder_tx nd req w = (Ok resp, w2) →
  match list_find (Orders.has_idempotency (Orders.co_user_id req)
                     (Orders.co_idempotency_key req)) (Orders.orders (db w)) with
  | Some (_, row) =>
      replayed req row = true ∧ resp = Orders.order_of_row row ∧ db w2 = db w
  | None =>
      Orders.has_order_id (nd_uuid nd) (db w) = false ∧
      ∃ payload,
        marshal_PaymentRequested (requested_event nd req) = Some payload ∧
        resp = Orders.order_of_row (new_order_row nd req) ∧
        db w2 = order_created nd req payload (outbox_seq w) (db w)
  end.
Proof.
  intros Hk. unfold Orders.CreateOrder_tx, Orders.CreateOrder_insert.
  rewrite bool_decide_eq_false_2 by done. intros E.
  pose proof (list_find_Exists
                (Orders.has_idempotency (Orders.co_user_id req)
                   (Orders.co_idempotency_key req)) (Orders.orders (db w))) as Hfind.
  apply bind_ok in E as (r & w1 & Ei & E).
  apply on_error_ok in Ei as [Ei|(e & w' & Ei & Eh)].
  - (* the insert returned a row *)
    apply bind_ok in Ei as (row & w3 & Eq & Er). apply ret_ok in Er as [-> ->].
    apply query_ok in Eq as (E1 & Ed1 & Es1 & _).
    unfold Orders.CreateOrderIdempotent in E1, Ed1.
    case_bool_decide as Hex; [done|].
    destruct (list_find _ (Orders.orders (db w))) as [?|];
      [destruct Hex; apply Hfind; eauto|].
    destruct (Orders.has_order_id (nd_uuid nd) (db w)); [done|].
    simpl in E1, Ed1. inversion E1; subst row; clear E1. split; [done|].
    apply bind_ok in E as (payload & w4 & Em & E).
    apply on_error_ok in Em as [Em|(e & w' & _ & Eh)]; [|done].
    apply of_option_ok in Em as [Em ->].
    apply bind_ok in E as (id & w5 & Eo & E).
    apply InsertOutbox_ok in Eo as (-> & Ed5 & _).
    apply ret_ok in E as [-> ->].
    exists payload. split_and!; [done..|]. by rewrite Ed5, Ed1, Es1.
  - (* the insert failed *)
    unfold bind in Ei.
    destruct (query _ w) as [[row|e'] w3] eqn:Eq; [done|].
    inversion Ei; subst e' w3; clear Ei.
    destruct e; try done.
    apply query_inv in Eq as (_ & _ & [[? _]|[E1 Ed1]]); [done|].
    unfold Orders.CreateOrderIdempotent in E1, Ed1.
    case_bool_decide as Hex.
    2:{ by destruct (Orders.has_order_id _ _). }
    simpl in Ed1.
    apply bind_ok in Eh as (existing & w4 & Eq & Eh).
    apply query_ok in Eq as (E2 & Ed2 & _).
    unfold Orders.GetOrderByIdempotency in E2, Ed2. rewrite Ed1 in E2, Ed2.
    destruct (list_find _ (Orders.orders (db w))) as [[i row]|]; [|done].
    simpl in E2, Ed2. inversion E2; subst existing; clear E2.
    fold (negb (replayed req row)) in Eh. unfold replayed in *.
    destruct (_ || _); [done|].
    apply ret_ok in Eh as [-> ->]. apply ret_ok in E as [-> ->].
    split_and!; [done..|congruence].
Qed.

(** What a keyed CreateOrder that returned an order did. *)
Lemma Handlers_CreateOrder_ok nd req w resp w1 :
  keyed_order req →
  Orders.Handlers_CreateOrder nd req w = (Ok resp, w1) →
  match list_find (Orders.has_idempotency (Orders.co_user_id req)
                     (Orders.co_idempotency_key req)) (Orders.orders (db w)) with
  | Some (_, row) =>
      replayed req row = true ∧ resp = Orders.order_of_row row ∧ db w1 = db w
  | None =>
      Orders.has_order_id (nd_uuid nd) (db w) = false ∧
      ∃ payload,
        marshal_PaymentRequested (requested_event nd req) = Some payload ∧
        resp = Orders.order_of_row (new_order_row nd req) ∧
        db w1 = order_created nd req payload (outbox_seq w) (db w)
  end.
Proof.
  intros Hreq E. rewrite Handlers_CreateOrder_keyed in E by done.
  apply on_error_ok in E as [E|(e & w' & _ & Eh)].
  2:{ by destruct (status_FromError e) as [[??]|]. }
  apply WithTx_ok in E as (fs & w2 & E & ->).
  apply CreateOrder_tx_ok in E; [done|apply Hreq].
Qed.

(** A CreateOrder that returned an error changed nothing. *)
Lemma Handlers_CreateOrder_err nd req w e w1 :
  Orders.Handlers_CreateOrder nd req w = (Err e, w1) → db w1 = db w.
Proof.
  unfold Orders.Handlers_CreateOrder. intros E.
  repeat (case_bool_decide; [by inversion E|]).
  unfold on_error in E.
  destruct (WithTx _ w) as [[resp|e'] w2] eqn:Etx; [done|].
  apply WithTx_err in Etx.
  destruct (status_FromError e') as [[??]|]; inversion E; by subst.
Qed.

(** The keyed CreateOrder without database errors. *)
Lemma Handlers_CreateOrder_run nd req w :
  keyed_order req → faults w = [] →
  Orders.Handlers_CreateOrder nd req w =
  match list_find (Orders.has_idempotency (Orders.co_user_id req)
                     (Orders.co_idempotency_key req)) (Orders.orders (db w)) with
  | Some (_, row) =>
      if replayed req row then (Ok (Orders.order_of_row row), w)
      else (Err mismatch, w)
  | None =>
      if Orders.has_order_id (nd_uuid nd) (db w)
      then (Err (ErrStatus Internal "failed to create order"), w)
      else
        match marshal_PaymentRequested (requested_event nd req) with
        | Some payload =>
            (Ok (Orders.order_of_row (new_order_row nd req)),
             set_db (order_created nd req payload (outbox_seq w) (db w))
               (set_outbox_seq (outbox_seq w + 1) w))
        | None => (Err (ErrStatus Internal "failed to marshal event"), w)
        end
  end.
Proof.
  intros Hreq Ef. rewrite Handlers_CreateOrder_keyed by done.
  destruct w as [d fs s wf wr]; simpl in *; subst fs.
  pose proof (CreateOrder_tx_run nd req d s wf wr (proj2 (proj2 (proj2 Hreq)))) as Htx.
  unfold on_error.
  destruct (list_find _ (Orders.orders d)) as [[i row]|].
  - destruct (replayed req row).
    + erewrite WithTx_no_fault; [|done|exact Htx|done]. done.
    + erewrite WithTx_no_fault_err; [|done|exact Htx]. done.
  - destruct (Orders.has_order_id (nd_uuid nd) d).
    + erewrite WithTx_no_fault_err; [|done|exact Htx]. done.
    + destruct (marshal_PaymentRequested _).
      * erewrite WithTx_no_fault; [|done|exact Htx|done]. done.
      * erewrite WithTx_no_fault_err; [|done|exact Htx]. done.
Qed.

End CreateOrder.

Lemma row_evolves_idempotency u k r r' :
  row_evolves r r' → Orders.has_idempotency u k r' ↔ Orders.has_idempotency u k r.
Proof. intros [-> _]. done. Qed.

Lemma list_find_evolves u k d d' i r :
  orders_evolve d d' →
  list_find (Orders.has_idempotency u k) (Orders.orders d) = Some (i, r) →
  ∃ r', list_find (Orders.has_idempotency u k) (Orders.orders d') = Some (i, r') ∧
        row_evolves r r'.
Proof.
  intros Hev Hf. apply list_find_Some in Hf as (Hi & HP & Hlt).
  destruct (Hev i r Hi) as (r' & Hi' & Hr). exists r'. split; [|done].
  apply list_find_Some. split_and!; [done|by apply (row_evolves_idempotency _ _ r)|].
  intros j y Hj Hji.
  destruct (lookup_lt_is_Some_2 (Orders.orders d) j) as [y0 Hy0].
  { apply lookup_lt_Some in Hi. lia. }
  destruct (Hev j y0 Hy0) as (y' & Hy' & Hry).
  assert (y' = y) as -> by congruence.
  rewrite (row_evolves_idempotency _ _ y0) by done. by eapply Hlt.
Qed.

Section Replay.
Context `{Wire}.

(** After a keyed CreateOrder returned an order, the lookup by its key
    finds the row it reported, and the row passes the parameter check. *)
Lemma Handlers_CreateOrder_records nd req w resp w1 :
  keyed_order req →
  Orders.Handlers_CreateOrder nd req w = (Ok resp, w1) →
  ∃ i row,
    list_find (Orders.has_idempotency (Orders.co_user_id req)
                 (Orders.co_idempotency_key req)) (Orders.orders (db w1))
      = Some (i, row) ∧
    replayed req row = true ∧ resp = Orders.order_of_row row.
Proof.
  intros Hreq E. apply Handlers_CreateOrder_ok in E; [|done].
  destruct (list_find _ (Orders.orders (db w))) as [[i row]|] eqn:Ef.
  - destruct E as (Hr & -> & ->). by exists i, row.
  - destruct E as (_ & payload & _ & -> & ->).
    exists (length (Orders.orders (db w))), (new_order_row nd req).
    split_and!; [|by unfold replayed; simpl; rewrite !bool_decide_eq_false_2 by tauto|done].
    apply list_find_Some. simpl. split_and!.
    + by rewrite lookup_app_r, Nat.sub_diag.
    + done.
    + intros j y Hj Hlt. rewrite lookup_app_l in Hj by done.
      apply list_find_None in Ef. rewrite Forall_forall in Ef.
      apply Ef. by eapply list_elem_of_lookup_2.
Qed.

Lemma replayed_evolves req r r' :
  row_evolves r r' → replayed req r' = replayed req r.
Proof. intros [-> _]. done. Qed.

(** A CreateOrder whose key is already on an order row changes nothing,
    whatever it returns. *)
Lemma Handlers_CreateOrder_used_key nd req w i row :
  Orders.co_idempotency_key req ≠ "" →
  list_find (Orders.has_idempotency (Orders.co_user_id req)
               (Orders.co_idempotency_key req)) (Orders.orders (db w))
    = Some (i, row) →
  db (Orders.Handlers_CreateOrder nd req w).2 = db w.
Proof.
  intros Hk Hf.
  destruct (Orders.Handlers_CreateOrder nd req w) as [[resp|e] w1] eqn:E; simpl.
  2:{ by eapply Handlers_CreateOrder_err. }
  assert (keyed_order req) as Hreq.
  { unfold Orders.Handlers_CreateOrder in E.
    repeat (case_bool_decide; [by inversion E|]). split_and!; [done|lia|done..]. }
  apply Handlers_CreateOrder_ok in E; [|done]. rewrite Hf in E. by destruct E as (_ & _ & ->).
Qed.

End Replay.

(** * The idempotency laws *)

Section IdempotencyLaws.
Context `{Wire}.

(** C8. A keyed TopUp whose key is recorded with another amount, and a keyed
    CreateOrder whose key is on an order with another amount or
    description (both requests pass validation): under every schedule of
    database errors the call returns an error and the database (balances,
    orders, idempotency records, outbox) is exactly as before; without
    database errors the error is failed_precondition. *)
Theorem key_reuse_rejected
    (treq : Payments.TopUpRequest) (pw : World Payments.DB) trow
    nd (oreq : Orders.CreateOrderRequest) (ow : World Orders.DB) i orow :
  keyed_topup treq →
  Payments.topup_idempotency (db pw)
    !! (Payments.tu_user_id treq, Payments.tu_idempotency_key treq) = Some trow →
  Payments.ti_amount trow ≠ Payments.tu_amount treq →
  keyed_order oreq →
  list_find (Orders.has_idempotency (Orders.co_user_id oreq)
               (Orders.co_idempotency_key oreq)) (Orders.orders (db ow))
    = Some (i, orow) →
  Orders.or_amount orow ≠ Orders.co_amount oreq ∨
    Orders.or_description orow ≠ Orders.co_description oreq →
  let tres := Payments.Handlers_TopUp treq pw in
  let ores := Orders.Handlers_CreateOrder nd oreq ow in
  (is_ok tres.1 = false ∧ db tres.2 = db pw ∧
   (faults pw = [] → tres.1 = Err mismatch)) ∧
  (is_ok ores.1 = false ∧ db ores.2 = db ow ∧
   (faults ow = [] → ores.1 = Err mismatch)).
Proof.
  intros Htreq Htrow Hta Horeq Hfind Hne tres ores. split.
  - split_and!.
    + destruct tres as [[acc|e] w1] eqn:E; [|done]. exfalso.
      apply Handlers_TopUp_ok in E; [|done]. simpl in E. rewrite Htrow in E.
      by destruct E.
    + destruct tres as [[acc|e] w1] eqn:E; simpl.
      * apply Handlers_TopUp_ok in E; [|done]. simpl in E. rewrite Htrow in E.
        by destruct E.
      * eapply Handlers_TopUp_err; [done|apply Htreq].
    + intros Ef. subst tres. rewrite Handlers_TopUp_run by done. simpl.
      rewrite Htrow. by rewrite bool_decide_eq_true_2.
  - assert (replayed oreq orow = false) as Hrep.
    { unfold replayed. destruct Hne.
      - by rewrite (bool_decide_eq_true_2 (Orders.or_amount orow ≠ _)).
      - rewrite (bool_decide_eq_true_2 (Orders.or_description orow ≠ _)) by done.
        by rewrite orb_true_r. }
    split_and!.
    + destruct ores as [[resp|e] w1] eqn:E; [|done]. exfalso.
      apply Handlers_CreateOrder_ok in E; [|done]. rewrite Hfind in E.
      destruct E as (E & _). congruence.
    + eapply Handlers_CreateOrder_used_key; [apply Horeq|done].
    + intros Ef. subst ores. rewrite Handlers_CreateOrder_run by done.
      by rewrite Hfind, Hrep.
Qed.

(** C6. A first keyed CreateOrder (the key is not on any order yet, the
    generated id is fresh, the event serializes) run without database
    errors returns the new order and appends exactly one outbox row, keyed
    by the order id.  After any sequence of operations of the orders
    service, the replay with the same parameters returns the same order id
    and leaves the database as it is, and so does, under every schedule of
    database errors, any CreateOrder that carries the same user and key: no
    second outbox row is ever appended for the key. *)
Theorem create_order_replay
    nd (req : Orders.CreateOrderRequest) (w : World Orders.DB) payload
    ops nd' fs (req' : Orders.CreateOrderRequest) :
  keyed_order req → faults w = [] →
  list_find (Orders.has_idempotency (Orders.co_user_id req)
               (Orders.co_idempotency_key req)) (Orders.orders (db w)) = None →
  Orders.has_order_id (nd_uuid nd) (db w) = false →
  marshal_PaymentRequested (requested_event nd req) = Some payload →
  Orders.co_user_id req' = Orders.co_user_id req →
  Orders.co_idempotency_key req' = Orders.co_idempotency_key req →
  let first := Orders.Handlers_CreateOrder nd req w in
  let w2 := orders_run ops first.2 in
  let replay := Orders.Handlers_CreateOrder nd' req (set_faults [] w2) in
  let later := Orders.Handlers_CreateOrder nd' req' (set_faults fs w2) in
  ∃ resp1 resp2,
    first.1 = Ok resp1 ∧
    Orders.o_order_id resp1 = uuid_String (nd_uuid nd) ∧
    Orders.outbox (db first.2) =
      Orders.outbox (db w) ++
        [mkOutboxRow (outbox_seq w) requested_topic (uuid_String (nd_uuid nd))
                     payload None 0 None] ∧
    replay.1 = Ok resp2 ∧
    Orders.o_order_id resp2 = Orders.o_order_id resp1 ∧
    db replay.2 = db w2 ∧
    db later.2 = db w2.
Proof.
  intros Hreq Ef Hnone Hid Hm Hu' Hk' first w2 replay later.
  assert (first = (Ok (Orders.order_of_row (new_order_row nd req)),
                   set_db (order_created nd req payload (outbox_seq w) (db w))
                     (set_outbox_seq (outbox_seq w + 1) w))) as Hfirst.
  { subst first. rewrite Handlers_CreateOrder_run by done.
    by rewrite Hnone, Hid, Hm. }
  destruct (Handlers_CreateOrder_records nd req w _ _ Hreq Hfirst)
    as (i & row & Hf & Hrep & Hresp).
  assert (orders_evolve (db first.2) (db w2)) as Hev
    by apply orders_run_evolves.
  rewrite Hfirst in Hev. simpl in Hev.
  destruct (list_find_evolves _ _ _ _ _ _ Hev Hf) as (row2 & Hf2 & Hr2).
  exists (Orders.order_of_row (new_order_row nd req)), (Orders.order_of_row row2).
  assert (replay = (Ok (Orders.order_of_row row2), set_faults [] w2)) as Hreplay.
  { subst replay. rewrite Handlers_CreateOrder_run by done. simpl.
    rewrite Hf2. by rewrite (replayed_evolves _ row) , Hrep. }
  rewrite Hfirst, Hreplay. simpl. split_and!; try done.
  - destruct Hr2 as [-> _]. apply (f_equal Orders.o_order_id) in Hresp. done.
  - subst later.
    rewrite (Handlers_CreateOrder_used_key nd' req' (set_faults fs w2) i row2);
      [done|rewrite Hk'; apply Hreq|].
    simpl. by rewrite Hu', Hk'.
Qed.


End IdempotencyLaws.



Lemma key_reuse_rejected_witness :
  let treq := Payments.mkTopUpRequest "u1" 51 "k7" in
  let oreq := Orders.mkCreateOrderRequest "u1" 301 "book" "k3" in
  keyed_topup treq ∧
  Payments.topup_idempotency (db example_payments_topped) !! ("u1", "k7")
    = Some (Payments.mkTopupRow 50 1050) ∧
  Payments.ti_amount (Payments.mkTopupRow 50 1050) ≠ Payments.tu_amount treq ∧
  keyed_order oreq ∧
  list_find (Orders.has_idempotency "u1" "k3") (Orders.orders (db Example.orders))
    = Some (0%nat, Example.order1 "NEW") ∧
  (Orders.or_amount (Example.order1 "NEW") ≠ Orders.co_amount oreq ∨
   Orders.or_description (Example.order1 "NEW") ≠ Orders.co_description oreq) ∧
  db (Payments.Handlers_TopUp treq example_payments_topped).2
    = db example_payments_topped ∧
  db (Orders.Handlers_CreateOrder (H:=Example.wire) Example.nd oreq Example.orders).2
    = db Example.orders.
Proof.
  intros treq oreq.
  assert (keyed_topup treq) as H1 by (repeat split; (done || lia)).
  assert (Payments.topup_idempotency (db example_payments_topped) !! ("u1", "k7")
          = Some (Payments.mkTopupRow 50 1050)) as H2 by reflexivity.
  assert (Payments.ti_amount (Payments.mkTopupRow 50 1050) ≠ Payments.tu_amount treq)
    as H3 by (simpl; lia).
  assert (keyed_order oreq) as H4 by (repeat split; (done || lia)).
  assert (list_find (Orders.has_idempotency "u1" "k3")
            (Orders.orders (db Example.orders))
          = Some (0%nat, Example.order1 "NEW")) as H5 by reflexivity.
  assert (Orders.or_amount (Example.order1 "NEW") ≠ Orders.co_amount oreq ∨
          Orders.or_description (Example.order1 "NEW") ≠ Orders.co_description oreq)
    as H6 by (left; simpl; lia).
  destruct (key_reuse_rejected (H:=Example.wire) treq example_payments_topped _
              Example.nd oreq Example.orders _ _ H1 H2 H3 H4 H5 H6)
    as [(_ & Ht & _) (_ & Ho & _)].
  repeat (split; [assumption|]). split; assumption.
Defined.

Lemma create_order_replay_witness :
  keyed_order example_order ∧ faults example_orders_empty = [] ∧
  list_find (Orders.has_idempotency "u1" "k3")
    (Orders.orders (db example_orders_empty)) = None ∧
  Orders.has_order_id (nd_uuid Example.nd) (db example_orders_empty) = false ∧
  marshal_PaymentRequested (Wire:=Example.wire)
    (requested_event (H:=Example.wire) Example.nd example_order) = Some [x01] ∧
  ∃ resp1,
    (Orders.Handlers_CreateOrder (H:=Example.wire) Example.nd example_order
       example_orders_empty).1 = Ok resp1 ∧
    Orders.o_order_id resp1 = Example.id1.
Proof.
  assert (keyed_order example_order) as H1 by (repeat split; (done || lia)).
  assert (faults example_orders_empty = []) as H2 by reflexivity.
  assert (list_find (Orders.has_idempotency "u1" "k3")
            (Orders.orders (db example_orders_empty)) = None) as H3 by reflexivity.
  assert (Orders.has_order_id (nd_uuid Example.nd) (db example_orders_empty) = false)
    as H4 by reflexivity.
  assert (marshal_PaymentRequested (Wire:=Example.wire)
            (requested_event (H:=Example.wire) Example.nd example_order)
          = Some [x01]) as H5 by reflexivity.
  destruct (create_order_replay (H:=Example.wire) Example.nd example_order
              example_orders_empty [x01] [ODeliver Example.succeeded_msg]
              Example.nd [true] example_order H1 H2 H3 H4 H5 eq_refl eq_refl)
    as (resp1 & resp2 & E1 & E2 & _).
  repeat (split; [assumption|]). exists resp1. split; assumption.
Defined.

(** * The publisher pass and poison messages *)

Lemma pass_outcomes_rows rows wfs : (pass_outcomes rows wfs).*1 = rows.
Proof.
  revert wfs. induction rows as [|r rows IH]; intros wfs; simpl; [done|].
  by rewrite IH.
Qed.

Lemma set_outbox_outbox d : Orders.set_outbox (Orders.outbox d) d = d.
Proof. by destruct d. Qed.

(** The loop over the locked rows without database errors: it never stops
    early, and issues one statement per outcome. *)
Lemma publish_rows_run now rows d s wfs wr :
  Orders.publish_rows now rows (mkWorld d [] s wfs wr) =
  (Ok (),
   mkWorld (Orders.set_outbox
              (foldl (record_outcome now) (Orders.outbox d) (pass_outcomes rows wfs)) d)
           [] s (drop (length rows) wfs)
           (wr ++ ((λ p, (message_of p.1, p.2)) <$> pass_outcomes rows wfs))).
Proof.
  revert d wfs wr. induction rows as [|r rows IH]; intros d wfs wr; simpl.
  { by rewrite set_outbox_outbox, drop_0, app_nil_r. }
  unfold bind at 1, attempt, WriteMessages, set_writer.
  destruct wfs as [|[e|] wfs]; simpl.
  - unfold bind. rewrite query_run. simpl. rewrite IH. simpl.
    rewrite <-app_assoc, drop_nil. by destruct d.
  - unfold bind, ignore_error. rewrite query_run. simpl. rewrite IH. simpl.
    rewrite <-app_assoc. by destruct d.
  - unfold bind. rewrite query_run. simpl. rewrite IH. simpl.
    rewrite <-app_assoc. by destruct d.
Qed.

Lemma mark_sent_id now i r : ob_id (mark_sent now i r) = ob_id r.
Proof. unfold mark_sent. by case_bool_decide. Qed.

Lemma mark_failed_id i e r : ob_id (mark_failed i e r) = ob_id r.
Proof. unfold mark_failed. by case_bool_decide. Qed.

Lemma outcome_for_cons r0 o outs i :
  outcome_for ((r0, o) :: outs) i =
  if decide (ob_id r0 = i) then Some o else outcome_for outs i.
Proof.
  unfold outcome_for. simpl. case_decide; simpl; [done|].
  by destruct (list_find _ outs) as [[??]|].
Qed.

Lemma outcome_for_absent outs i :
  i ∉ ob_id <$> outs.*1 → outcome_for outs i = None.
Proof.
  induction outs as [|[r o] outs IH]; intros Hi; [done|].
  rewrite outcome_for_cons. simpl in Hi. rewrite not_elem_of_cons in Hi.
  destruct Hi as [Hne Hi]. rewrite decide_False by done. by apply IH.
Qed.

Lemma outcome_for_elem outs r o :
  NoDup (ob_id <$> outs.*1) → (r, o) ∈ outs → outcome_for outs (ob_id r) = Some o.
Proof.
  induction outs as [|[r0 o0] outs IH]; intros Hnd Hin; [by apply elem_of_nil in Hin|].
  simpl in Hnd. apply NoDup_cons in Hnd as [Hfresh Hnd].
  rewrite outcome_for_cons. apply elem_of_cons in Hin as [[= -> ->]|Hin].
  - by rewrite decide_True.
  - rewrite decide_False; [by apply IH|].
    intros E. apply Hfresh. rewrite E.
    apply list_elem_of_fmap. exists r. split; [done|].
    apply list_elem_of_fmap. by exists (r, o).
Qed.

Lemma settle_cons now r0 o outs r :
  settle now ((r0, o) :: outs) r =
  if decide (ob_id r0 = ob_id r)
  then match o with
       | None => mark_sent now (ob_id r) r
       | Some e => mark_failed (ob_id r) e r
       end
  else settle now outs r.
Proof. unfold settle. rewrite outcome_for_cons. by case_decide. Qed.

(** With distinct ids in the batch, the statements of the loop amount to
    settling every row of the table by its own outcome. *)
Lemma fold_settle now table outs :
  NoDup (ob_id <$> outs.*1) →
  foldl (record_outcome now) table outs = settle now outs <$> table.
Proof.
  revert table. induction outs as [|[r0 o] outs IH]; intros table Hnd; simpl.
  { rewrite <-(list_fmap_id table) at 1. by apply list_fmap_ext. }
  apply NoDup_cons in Hnd as [Hfresh Hnd]. rewrite IH by done.
  unfold record_outcome. simpl.
  destruct o as [e|]; rewrite <-list_fmap_compose; apply list_fmap_ext;
    intros i r _; simpl; rewrite settle_cons; case_decide as Hid.
  - unfold settle. rewrite mark_failed_id, <-Hid, outcome_for_absent by done.
    done.
  - unfold mark_failed at 1. by rewrite bool_decide_eq_false_2.
  - unfold settle. rewrite mark_sent_id, <-Hid, outcome_for_absent by done.
    done.
  - unfold mark_sent at 1. by rewrite bool_decide_eq_false_2.
Qed.

Lemma locked_rows_sublist batch d :
  locked_rows batch d `sublist_of` Orders.outbox d.
Proof.
  unfold locked_rows. etrans; [apply sublist_take|apply sublist_filter].
Qed.

Lemma locked_rows_unsent batch d r :
  r ∈ locked_rows batch d → r ∈ Orders.outbox d ∧ ob_sent_at r = None.
Proof.
  unfold locked_rows. intros Hr. apply elem_of_take in Hr as (i & Hi & _).
  apply list_elem_of_lookup_2 in Hi. apply list_elem_of_filter in Hi. tauto.
Qed.

(** A pass of the publisher without database errors. *)
Lemma publishOnce_run batch now w :
  faults w = [] →
  NoDup (ob_id <$> Orders.outbox (db w)) →
  let outs := pass_outcomes (locked_rows batch (db w)) (writer_faults w) in
  Orders.publishOnce batch now w =
  (Ok (),
   mkWorld (Orders.set_outbox (settle now outs <$> Orders.outbox (db w)) (db w))
           [] (outbox_seq w)
           (drop (length (locked_rows batch (db w))) (writer_faults w))
           (written w ++ ((λ p, (message_of p.1, p.2)) <$> outs))).
Proof.
  intros Ef Hnd outs. destruct w as [d fs s wfs wr]; simpl in *; subst fs.
  assert (NoDup (ob_id <$> outs.*1)) as Hnd'.
  { subst outs. rewrite pass_outcomes_rows.
    eapply sublist_NoDup; [exact Hnd|]. apply fmap_sublist, locked_rows_sublist. }
  unfold Orders.publishOnce. apply WithTx_no_fault; [done| |done].
  unfold bind. rewrite query_run. unfold LockUnsentOutbox. simpl.
  fold (locked_rows batch d).
  case_bool_decide as Hlen.
  - apply length_zero_iff_nil in Hlen. subst outs. rewrite Hlen. simpl.
    unfold ret. rewrite app_nil_r, drop_0. do 3 f_equal.
    rewrite <-(set_outbox_outbox d) at 1. f_equal.
    rewrite <-(list_fmap_id (Orders.outbox d)) at 1. by apply list_fmap_ext.
  - rewrite publish_rows_run. by rewrite fold_settle.
Qed.

Lemma NoDup_fmap_eq {A B} (f : A → B) (l : list A) x y :
  NoDup (f <$> l) → x ∈ l → y ∈ l → f x = f y → x = y.
Proof.
  intros Hnd Hx Hy E.
  apply list_elem_of_lookup in Hx as [i Hi]. apply list_elem_of_lookup in Hy as [j Hj].
  assert (i = j) as ->; [|congruence].
  eapply NoDup_lookup; [exact Hnd| |]; rewrite list_lookup_fmap.
  - by rewrite Hi.
  - rewrite Hj. simpl. by rewrite E.
Qed.

Lemma pass_outcomes_elem rows wfs r o :
  (r, o) ∈ pass_outcomes rows wfs → r ∈ rows.
Proof.
  intros Hin. rewrite <-(pass_outcomes_rows rows wfs).
  apply list_elem_of_fmap. by exists (r, o).
Qed.

Lemma sent_by_refl outs table : sent_by outs table table.
Proof. intros i r Hi. exists r. auto. Qed.

Lemma sent_by_step r0 o outs t0 t1 t2 :
  sent_by [(r0, o)] t0 t1 → sent_by outs t1 t2 → sent_by ((r0, o) :: outs) t0 t2.
Proof.
  intros H01 H12 i r2 Hi2.
  destruct (H12 i r2 Hi2) as (r1 & Hi1 & Hid1 & Hs1).
  destruct (H01 i r1 Hi1) as (r & Hi & Hid & Hs).
  exists r. split_and!; [done|congruence|].
  destruct Hs1 as [Hs1|(r' & Hin & Hr')].
  - destruct Hs as [Hs|(r' & Hin & Hr')]; [left; congruence|].
    right. exists r'. split; [|done].
    apply list_elem_of_singleton in Hin. rewrite Hin. by left.
  - right. exists r'. split; [by right|congruence].
Qed.

Lemma sent_by_mark_failed id e table outs :
  sent_by outs table (mark_failed id e <$> table).
Proof.
  intros i r' Hi. rewrite list_lookup_fmap in Hi.
  destruct (table !! i) as [r|]; [|done]. simpl in Hi. inversion Hi; subst r'.
  exists r. split_and!; [done|apply mark_failed_id|].
  left. unfold mark_failed. by case_bool_decide.
Qed.

Lemma sent_by_mark_sent now r0 table :
  sent_by [(r0, None)] table (mark_sent now (ob_id r0) <$> table).
Proof.
  intros i r' Hi. rewrite list_lookup_fmap in Hi.
  destruct (table !! i) as [r|]; [|done]. simpl in Hi. inversion Hi; subst r'.
  exists r. split_and!; [done|apply mark_sent_id|].
  unfold mark_sent. case_bool_decide; [|by left].
  right. exists r0. split; [by left|done].
Qed.

Lemma query_writer {D A} (stmt : D → result A * D) w :
  writer_faults (query stmt w).2 = writer_faults w.
Proof. by destruct (query_cases stmt w) as [[fs ->]|[fs ->]]. Qed.

(** The loop under any schedule of database errors: when it returns nil,
    rows became sent only through a successful publish. *)
Lemma publish_rows_ok now rows w w2 :
  Orders.publish_rows now rows w = (Ok (), w2) →
  sent_by (pass_outcomes rows (writer_faults w))
    (Orders.outbox (db w)) (Orders.outbox (db w2)).
Proof.
  revert w. induction rows as [|r0 rows IH]; intros w E; simpl in *.
  { inversion E; subst. apply sent_by_refl. }
  apply bind_ok in E as (sent & w1 & Ea & E).
  unfold attempt, WriteMessages in Ea.
  destruct (writer_faults w) as [|[e|] wfs] eqn:Ewf; simpl in *;
    inversion Ea; subst sent w1; clear Ea;
    apply bind_ok in E as (? & w3 & Eq & E); apply IH in E.
  - pose proof (query_writer (MarkOutboxSent Orders.outbox Orders.set_outbox now (ob_id r0))
                  (set_writer [] (written w ++ [(mkMessage (ob_kafka_key r0) (ob_payload r0), None)]) w)) as Hw.
    rewrite Eq in Hw. simpl in Hw. rewrite Hw in E.
    apply query_ok in Eq as (_ & Hd & _). simpl in Hd. rewrite Hd in E.
    eapply sent_by_step; [|exact E]. apply sent_by_mark_sent.
  - unfold ignore_error in Eq. inversion Eq; subst w3; clear Eq.
    rewrite query_writer in E. simpl in E.
    destruct (query _ _) as [r3 w3] eqn:Eq. simpl in *.
    apply query_inv in Eq as (_ & _ & [[_ Hd]|[_ Hd]]); simpl in Hd;
      rewrite Hd in E; (eapply sent_by_step; [|exact E]).
    + apply sent_by_refl.
    + apply sent_by_mark_failed.
  - pose proof (query_writer (MarkOutboxSent Orders.outbox Orders.set_outbox now (ob_id r0))
                  (set_writer wfs (written w ++ [(mkMessage (ob_kafka_key r0) (ob_payload r0), None)]) w)) as Hw.
    rewrite Eq in Hw. simpl in Hw. rewrite Hw in E.
    apply query_ok in Eq as (_ & Hd & _). simpl in Hd. rewrite Hd in E.
    eapply sent_by_step; [|exact E]. apply sent_by_mark_sent.
Qed.

(** A pass under any schedule of database errors. *)
Lemma publishOnce_sent_by batch now w :
  sent_by (pass_outcomes (locked_rows batch (db w)) (writer_faults w))
    (Orders.outbox (db w)) (Orders.outbox (db (Orders.publishOnce batch now w).2)).
Proof.
  unfold Orders.publishOnce.
  destruct (WithTx_cases
              (let* rows := query (LockUnsentOutbox Orders.outbox (int32 batch)) in
               if bool_decide (length rows = 0%nat) then ret ()
               else Orders.publish_rows now rows) w)
    as [(e & _ & ->)|(fs & [] & w2 & E & _ & ->)]; [apply sent_by_refl|].
  apply bind_ok in E as (rows & w1 & Eq & E).
  pose proof (query_writer (LockUnsentOutbox Orders.outbox (int32 batch))
                (set_faults fs w)) as Hw.
  rewrite Eq in Hw. simpl in Hw.
  apply query_ok in Eq as (Er & Hd & _). simpl in Er, Hd.
  inversion Er; subst rows; clear Er. fold (locked_rows batch (db w)) in E.
  case_bool_decide.
  - apply ret_ok in E as [_ ->]. rewrite Hd. apply sent_by_refl.
  - apply publish_rows_ok in E. by rewrite Hd, Hw in E.
Qed.

(** C10. A pass of the outbox publisher over the rows it locked, run
    without database errors, on an outbox whose ids are distinct (the
    primary key):
    - the transaction commits;
    - every locked row is published once, in order, whatever the outcome of
      the rows before it;
    - a row whose publish failed has [attempts] incremented and
      [last_error] recorded, and is still unsent;
    - a row whose publish succeeded has [sent_at] set;
    - under every schedule of database errors, a row that is sent after
      the pass was sent before it or was published successfully in it. *)
Theorem publisher_pass batch now (w : World Orders.DB) :
  faults w = [] →
  NoDup (ob_id <$> Orders.outbox (db w)) →
  let rows := locked_rows batch (db w) in
  let outs := pass_outcomes rows (writer_faults w) in
  let res := Orders.publishOnce batch now w in
  res.1 = Ok () ∧
  (written res.2).*1 = (written w).*1 ++ (message_of <$> rows) ∧
  written res.2 = written w ++ ((λ p, (message_of p.1, p.2)) <$> outs) ∧
  Orders.outbox (db res.2) = settle now outs <$> Orders.outbox (db w) ∧
  (∀ r e, (r, Some e) ∈ outs →
     r ∈ Orders.outbox (db w) ∧
     settle now outs r ∈ Orders.outbox (db res.2) ∧
     settle now outs r =
       mkOutboxRow (ob_id r) (ob_topic r) (ob_kafka_key r) (ob_payload r)
                   None (ob_attempts r + 1) (Some e)) ∧
  (∀ r, (r, None) ∈ outs →
     r ∈ Orders.outbox (db w) ∧
     settle now outs r ∈ Orders.outbox (db res.2) ∧
     settle now outs r =
       mkOutboxRow (ob_id r) (ob_topic r) (ob_kafka_key r) (ob_payload r)
                   (Some now) (ob_attempts r) (ob_last_error r)) ∧
  (∀ fs i r',
     Orders.outbox (db (Orders.publishOnce batch now (set_faults fs w)).2) !! i
       = Some r' →
     is_Some (ob_sent_at r') →
     ∃ r, Orders.outbox (db w) !! i = Some r ∧ ob_id r' = ob_id r ∧
          (is_Some (ob_sent_at r) ∨ (r, None) ∈ outs)).
Proof.
  intros Ef Hnd rows outs res.
  assert (NoDup (ob_id <$> outs.*1)) as Hnd'.
  { subst outs. rewrite pass_outcomes_rows.
    eapply sublist_NoDup; [exact Hnd|]. apply fmap_sublist, locked_rows_sublist. }
  subst res. rewrite publishOnce_run by done. simpl. fold rows outs.
  assert (∀ r o, (r, o) ∈ outs → r ∈ Orders.outbox (db w) ∧ ob_sent_at r = None)
    as Hlocked.
  { intros r o Hin. apply pass_outcomes_elem in Hin. by apply locked_rows_unsent in Hin. }
  split_and!; try done.
  - rewrite fmap_app. f_equal.
    assert (rows = outs.*1) as Hrows
      by (unfold outs; by rewrite pass_outcomes_rows).
    rewrite Hrows. by rewrite <-!list_fmap_compose.
  - intros r e Hin. destruct (Hlocked r _ Hin) as [Hr Hunsent].
    split_and!; [done|by apply list_elem_of_fmap_2|].
    unfold settle. rewrite (outcome_for_elem outs r (Some e)) by done.
    unfold mark_failed. rewrite bool_decide_eq_true_2 by done. by rewrite Hunsent.
  - intros r Hin. destruct (Hlocked r _ Hin) as [Hr Hunsent].
    split_and!; [done|by apply list_elem_of_fmap_2|].
    unfold settle. rewrite (outcome_for_elem outs r None) by done.
    unfold mark_sent. by rewrite bool_decide_eq_true_2.
  - intros fs i r' Hi Hsent.
    destruct (publishOnce_sent_by batch now (set_faults fs w) i r' Hi)
      as (r & Hr & Hid & Hs).
    simpl in Hr, Hs. fold rows outs in Hs.
    exists r. split_and!; [done..|].
    destruct Hs as [<-|(r0 & Hin & Hid0)]; [by left|]. right.
    destruct (Hlocked r0 _ Hin) as [Hr0 _].
    apply list_elem_of_lookup_2 in Hr.
    by rewrite <-(NoDup_fmap_eq ob_id _ r0 r Hnd Hr0 Hr Hid0).
Qed.

Lemma publisher_pass_witness :
  faults example_publisher = [] ∧
  NoDup (ob_id <$> Orders.outbox (db example_publisher)) ∧
  (Orders.publishOnce 50 7 example_publisher).1 = Ok () ∧
  Orders.outbox (db (Orders.publishOnce 50 7 example_publisher).2) =
    [mkOutboxRow 1 "payments.payment_requested.v1" Example.id1 [x01] None 1
                 (Some "broker down");
     mkOutboxRow 2 "payments.payment_requested.v1" Example.id2 [x01] (Some 7) 0 None].
Proof.
  assert (faults example_publisher = []) as H1 by reflexivity.
  assert (NoDup (ob_id <$> Orders.outbox (db example_publisher))) as H2.
  { simpl. apply NoDup_cons. split; [|apply NoDup_singleton].
    intros Hin. apply list_elem_of_singleton in Hin. discriminate. }
  destruct (publisher_pass 50 7 example_publisher H1 H2) as (E1 & _ & _ & E2 & _).
  repeat (split; [assumption|]). rewrite E2. reflexivity.
Defined.

Section PoisonMessages.
Context `{Wire}.

(** C9, as amended. A message that fails to decode or fails the structural
    validation of its consumer (payments: an identifier that is not a UUID,
    an empty user, a non-positive amount; orders: an identifier that is not
    a UUID) makes the handler return nil at once: no round trip to the
    database is made, the world is exactly as it was (no PaymentResult, no
    status change), and the iteration of Run commits the offset. *)
Theorem poison_absorbed
    topic nd m (w : World Payments.DB) m' (w' : World Orders.DB) :
  payments_poison m → orders_poison m' →
  (Payments.handleMessage topic nd m w = (Ok (), w) ∧
   Payments.Run_iteration topic nd m w = (true, w)) ∧
  (Orders.handleMessage m' w' = (Ok (), w') ∧
   Orders.Run_iteration m' w' = (true, w')).
Proof.
  intros Hp Ho.
  assert (Payments.handleMessage topic nd m w = (Ok (), w)) as Ep.
  { unfold payments_poison in Hp. unfold Payments.handleMessage, Payments.validate.
    destruct (unmarshal_PaymentRequested (msg_value m)) as [ev|]; [|done].
    destruct (uuid_Parse (rq_event_id ev)) as [msgID|]; [|done].
    destruct (uuid_Parse (rq_order_id ev)) as [orderID|]; [|done].
    destruct Hp as [?|[?|[Hu|Ha]]]; [done..| |].
    - by rewrite (bool_decide_eq_true_2 _ Hu).
    - rewrite (bool_decide_eq_true_2 _ Ha). by rewrite orb_true_r. }
  assert (Orders.handleMessage m' w' = (Ok (), w')) as Eo.
  { unfold orders_poison in Ho. unfold Orders.handleMessage.
    destruct (unmarshal_PaymentResult (msg_value m')) as [ev|]; [|done].
    destruct (uuid_Parse (rs_event_id ev)) as [msgID|]; [|done].
    destruct (uuid_Parse (rs_order_id ev)) as [orderID|]; [|done].
    by destruct Ho. }
  unfold Payments.Run_iteration, Orders.Run_iteration. by rewrite Ep, Eo.
Qed.

End PoisonMessages.

(** The claim C9 as stated fails for the orders consumer: a PaymentResult
    with an empty user id and well-formed identifiers is not dropped; its
    inbox row is inserted and the order is finished. *)
Lemma empty_user_result_is_processed :
  let m := mkMessage Example.id1 [x03] in
  let res := Orders.handleMessage (H:=Example.wire) m Example.orders in
  unmarshal_PaymentResult (Wire:=Example.wire) (msg_value m) = Some Example.anonymous ∧
  rs_user_id Example.anonymous = "" ∧
  res.1 = Ok () ∧
  Orders.orders (db res.2) = [Example.order1 "FINISHED"] ∧
  Orders.inbox (db res.2) = {[3%N]} ∧
  db res.2 ≠ db Example.orders.
Proof.
  split_and!; try reflexivity.
  intros E. apply (f_equal Orders.orders) in E. vm_compute in E. discriminate.
Qed.

Lemma poison_absorbed_witness :
  let m := mkMessage Example.id1 [x02] in
  let m' := mkMessage Example.id1 [] in
  payments_poison (H:=Example.wire) m ∧ orders_poison (H:=Example.wire) m' ∧
  Payments.handleMessage (H:=Example.wire) Example.result_topic Example.nd m
    Example.payments = (Ok (), Example.payments) ∧
  Orders.handleMessage (H:=Example.wire) m' Example.orders = (Ok (), Example.orders).
Proof.
  intros m m'.
  assert (payments_poison (H:=Example.wire) m) as H1 by exact I.
  assert (orders_poison (H:=Example.wire) m') as H2 by exact I.
  destruct (poison_absorbed (H:=Example.wire) Example.result_topic Example.nd m
              Example.payments m' Example.orders H1 H2) as [[Ep _] [Eo _]].
  repeat (split; [assumption|]). assumption.
Defined.

(** * What a handler can fail with, and what CreateOrder stores *)

Section FailsWith.
Context {D : Type}.
Implicit Types (w : World D).

Lemma fails_ret {A} P (a : A) : fails_with (D:=D) P (ret a).
Proof. by intros w e w'. Qed.

Lemma fails_fail {A} (P : error → Prop) e : P e → fails_with (D:=D) (A:=A) P (fail e).
Proof. intros He w e' w' [= <- _]. done. Qed.

Lemma fails_of_option {A} (P : error → Prop) (o : option A) e :
  P e → fails_with (D:=D) P (of_option o e).
Proof. intros He. destruct o; [apply fails_ret|by apply fails_fail]. Qed.

Lemma fails_bind {A B} P (c : Sess D A) (k : A → Sess D B) :
  fails_with P c → (∀ a, fails_with P (k a)) → fails_with P (bind c k).
Proof.
  intros Hc Hk w e w'. unfold bind.
  destruct (c w) as [[a|e0] w1] eqn:E.
  - apply Hk.
  - intros [= <- <-]. by eapply Hc.
Qed.

Lemma fails_on_error {A} P (c : Sess D A) h :
  (∀ e, fails_with P (h e)) → fails_with P (on_error c h).
Proof.
  intros Hh w e w'. unfold on_error.
  destruct (c w) as [[a|e0] w1] eqn:E; [done|]. apply Hh.
Qed.

Lemma fails_on_error_from {A} P Q (c : Sess D A) h :
  fails_with Q c → (∀ e, Q e → fails_with P (h e)) → fails_with P (on_error c h).
Proof.
  intros Hc Hh w e w'. unfold on_error.
  destruct (c w) as [[a|e0] w1] eqn:E; [done|]. apply Hh. by eapply Hc.
Qed.

Lemma fails_ignore_error {A} P (c : Sess D A) : fails_with P (ignore_error c).
Proof. by intros w e w'. Qed.

Lemma fails_query {A} (P : error → Prop) (stmt : D → result A * D) :
  P ErrDb → (∀ d e, (stmt d).1 = Err e → P e) → fails_with P (query stmt).
Proof.
  intros Hdb Hs w e w' E. apply query_inv in E as (_ & _ & [[[= ->] _]|[E _]]); [done|].
  by eapply Hs.
Qed.

Lemma fails_InsertOutbox (P : error → Prop) get set topic key payload :
  P ErrDb → fails_with (D:=D) P (InsertOutbox get set topic key payload).
Proof.
  intros Hdb w e w'. unfold InsertOutbox. intros E.
  apply (fails_query P _ Hdb) in E; [done|]. by intros d e'.
Qed.

Lemma fails_WithTx {A} (P : error → Prop) (fn : Sess D A) :
  P ErrDb → fails_with P fn → fails_with P (WithTx fn).
Proof.
  intros Hdb Hfn w e w'. unfold WithTx.
  destruct (query _ w) as [[[]|e0] w1] eqn:E1.
  2:{ intros [= <- <-]. eapply (fails_query P); [done| |exact E1]. by intros d e'. }
  destruct (fn w1) as [[a|e1] w2] eqn:E2.
  2:{ intros [= <- <-]. by eapply Hfn. }
  destruct (query _ w2) as [[[]|e3] w3] eqn:E3; [done|].
  intros [= <- <-]. eapply (fails_query P); [done| |exact E3]. by intros d e'.
Qed.

End FailsWith.

Section CreateOrderAtomic.
Context `{Wire}.

Lemma CreateOrder_insert_ok nd req w r w1 :
  Orders.CreateOrder_insert nd req w = (Ok r, w1) →
  outbox_seq w1 = outbox_seq w ∧
  match r with
  | inl resp => db w1 = db w ∧ Orders.co_idempotency_key req ≠ ""
  | inr row =>
      db w1 = Orders.set_orders (Orders.orders (db w) ++ [row]) (db w) ∧
      Orders.or_status row = "NEW" ∧ Orders.or_user_id row = Orders.co_user_id req ∧
      Orders.or_amount row = Orders.co_amount req ∧
      Orders.or_description row = Orders.co_description req
  end.
Proof.
  unfold Orders.CreateOrder_insert. case_bool_decide as Hk.
  - intros E. apply bind_ok in E as (row & w2 & Eq & Er). apply ret_ok in Er as [-> ->].
    apply query_ok in Eq as (E1 & -> & -> & _). split; [done|].
    unfold Orders.CreateOrder in *. destruct (Orders.has_order_id _ _); [done|].
    simpl in *. inversion E1; subst. done.
  - intros E. apply on_error_ok in E as [E|(e & w2 & Ei & Eh)].
    + apply bind_ok in E as (row & w2 & Eq & Er). apply ret_ok in Er as [-> ->].
      apply query_ok in Eq as (E1 & -> & -> & _). split; [done|].
      unfold Orders.CreateOrderIdempotent in *.
      case_bool_decide; [done|]. destruct (Orders.has_order_id _ _); [done|].
      simpl in *. inversion E1; subst. done.
    + unfold bind in Ei.
      destruct (query _ w) as [[row|e0] w3] eqn:Eq; [done|].
      inversion Ei; subst e0 w3. clear Ei.
      apply query_inv in Eq as (Es & _ & Hq).
      assert (db w2 = db w) as Hd.
      { destruct Hq as [[_ ?]|[Hr ->]]; [done|]. revert Hr.
        unfold Orders.CreateOrderIdempotent.
        destruct (bool_decide (Exists _ _)); [done|].
        by destruct (Orders.has_order_id _ _). }
      destruct e; try done.
      apply bind_ok in Eh as (existing & w4 & Eg & Er).
      apply query_ok in Eg as (Eg & Hd4 & Es4 & _).
      assert (db w4 = db w2) as Hd4'.
      { rewrite Hd4. unfold Orders.GetOrderByIdempotency.
        by destruct (list_find _ _) as [[??]|]. }
      destruct (_ || _); [done|]. apply ret_ok in Er as [-> ->].
      split; [congruence|]. split; [congruence|done].
Qed.

Lemma CreateOrder_tx_effect nd req w resp w1 :
  Orders.CreateOrder_tx nd req w = (Ok resp, w1) →
  (db w1 = db w ∧ Orders.co_idempotency_key req ≠ "") ∨
  (∃ row ob,
     db w1 = Orders.mkDB (Orders.orders (db w) ++ [row]) (Orders.inbox (db w))
                         (Orders.outbox (db w) ++ [ob]) ∧
     resp = Orders.order_of_row row ∧
     Orders.or_status row = "NEW" ∧ Orders.or_user_id row = Orders.co_user_id req ∧
     Orders.or_amount row = Orders.co_amount req ∧
     Orders.or_description row = Orders.co_description req ∧
     ob_id ob = outbox_seq w ∧
     ob_topic ob = "payments.payment_requested.v1" ∧
     ob_kafka_key ob = Orders.o_order_id resp ∧
     ob_sent_at ob = None).
Proof.
  unfold Orders.CreateOrder_tx. intros E.
  apply bind_ok in E as (r & w2 & Ei & E).
  apply CreateOrder_insert_ok in Ei as (Es & Hr).
  destruct r as [resp'|row].
  - apply ret_ok in E as [-> ->]. by left.
  - destruct Hr as (Hd & Hst & Hu & Ha & Hde).
    apply bind_ok in E as (payload & w3 & Ep & E).
    apply on_error_ok in Ep as [Ep|(e & w4 & _ & Ef)]; [|done].
    apply of_option_ok in Ep as [_ ->].
    apply bind_ok in E as (id & w4 & Eo & E). apply ret_ok in E as [-> ->].
    apply InsertOutbox_ok in Eo as (-> & Hd4 & _ & _).
    right. eexists row, _. split_and!; try done.
    + rewrite Hd4, Hd. done.
    + simpl. by rewrite Es.
    + done.
    + done.
    + done.
Qed.

Lemma CreateOrder_tx_fails nd req :
  fails_with (tx_error [FailedPrecondition; Internal]) (Orders.CreateOrder_tx nd req).
Proof.
  assert (tx_error [FailedPrecondition; Internal] ErrDb) as Hdb by (by left).
  assert (∀ msg, tx_error [FailedPrecondition; Internal] (ErrStatus FailedPrecondition msg))
    as Hfp.
  { intros msg. right; right. exists FailedPrecondition, msg. split; [done|by repeat constructor]. }
  assert (∀ msg, tx_error [FailedPrecondition; Internal] (ErrStatus Internal msg))
    as Hin.
  { intros msg. right; right. exists Internal, msg. split; [done|by repeat constructor]. }
  unfold Orders.CreateOrder_tx. apply fails_bind.
  - unfold Orders.CreateOrder_insert. case_bool_decide.
    + apply fails_bind; [|intros; apply fails_ret].
      apply fails_query; [done|]. intros d e. unfold Orders.CreateOrder.
      destruct (Orders.has_order_id _ _); [|done]. by intros [= <-].
    + apply (fails_on_error_from _ (tx_error [FailedPrecondition; Internal])).
      * apply fails_bind; [|intros; apply fails_ret].
        apply fails_query; [done|]. intros d e. unfold Orders.CreateOrderIdempotent.
        case_bool_decide; [intros [= <-]; right; by left|].
        destruct (Orders.has_order_id _ _); [|done]. by intros [= <-].
      * intros e He. destruct e; try (by apply fails_fail).
        apply fails_bind.
        -- apply fails_query; [done|]. intros d e. unfold Orders.GetOrderByIdempotency.
           destruct (list_find _ _) as [[??]|]; [done|]. intros [= <-]. right; by left.
        -- intros existing. destruct (_ || _); [by apply fails_fail|apply fails_ret].
  - intros [resp|row]; [apply fails_ret|].
    apply fails_bind.
    + apply fails_on_error. intros e. by apply fails_fail.
    + intros payload. apply fails_bind; [by apply fails_InsertOutbox|].
      intros; apply fails_ret.
Qed.

(** Every error of CreateOrder is a status the handler chose. *)
Lemma Handlers_CreateOrder_fails nd req :
  fails_with (status_in [InvalidArgument; FailedPrecondition; Internal])
    (Orders.Handlers_CreateOrder nd req).
Proof.
  intros w e w' E. unfold Orders.Handlers_CreateOrder in E.
  assert (∀ c msg, c ∈ [InvalidArgument; FailedPrecondition; Internal] →
            status_in [InvalidArgument; FailedPrecondition; Internal] (ErrStatus c msg))
    as Hst by (intros c msg ?; by exists c, msg).
  repeat (case_bool_decide; [inversion E; apply Hst; by repeat constructor|]).
  revert E. apply fails_on_error_from with (Q := tx_error [FailedPrecondition; Internal]).
  - apply fails_WithTx; [by left|apply CreateOrder_tx_fails].
  - intros e0 [->|[->|(c & msg & -> & Hc)]]; simpl; apply fails_fail; apply Hst;
      [by repeat constructor..|by constructor].
Qed.

(** X1. CreateOrder stores an order together with its PaymentRequested
    outbox row or stores nothing, with or without a key and under every
    schedule of database errors. *)
Theorem create_order_all_or_nothing nd req (w : World Orders.DB) :
  match Orders.Handlers_CreateOrder nd req w with
  | (Err e, w') =>
      db w' = db w ∧ status_in [InvalidArgument; FailedPrecondition; Internal] e
  | (Ok resp, w') =>
      (db w' = db w ∧ Orders.co_idempotency_key req ≠ "") ∨
      (∃ row ob,
         db w' = Orders.mkDB (Orders.orders (db w) ++ [row]) (Orders.inbox (db w))
                             (Orders.outbox (db w) ++ [ob]) ∧
         resp = Orders.order_of_row row ∧
         Orders.or_status row = "NEW" ∧
         Orders.or_user_id row = Orders.co_user_id req ∧
         Orders.or_amount row = Orders.co_amount req ∧
         Orders.or_description row = Orders.co_description req ∧
         ob_topic ob = "payments.payment_requested.v1" ∧
         ob_kafka_key ob = Orders.o_order_id resp ∧
         ob_sent_at ob = None)
  end.
Proof.
  destruct (Orders.Handlers_CreateOrder nd req w) as [[resp|e] w'] eqn:E.
  - unfold Orders.Handlers_CreateOrder in E.
    repeat (case_bool_decide; [done|]).
    apply on_error_ok in E as [E|(e & w2 & _ & Eh)].
    2:{ by destruct (status_FromError e) as [[??]|]. }
    apply WithTx_ok in E as (fs & w2 & E & ->).
    apply CreateOrder_tx_effect in E as [?|(row & ob & ? & ? & ? & ? & ? & ? & ? & ? & ? & ?)];
      [by left|].
    right. exists row, ob. split_and!; done.
  - split; [by eapply Handlers_CreateOrder_err|].
    by eapply Handlers_CreateOrder_fails.
Qed.

End CreateOrderAtomic.

(** * What a failed TopUp leaves behind *)

Lemma TopUp_tx_fails u k a :
  fails_with (tx_error [NotFound; FailedPrecondition]) (Payments.TopUp_tx u k a).
Proof.
  assert (tx_error [NotFound; FailedPrecondition] ErrDb) as Hdb by (by left).
  assert (tx_error [NotFound; FailedPrecondition] ErrNoRows) as Hnr by (right; by left).
  assert (∀ c msg, c ∈ [NotFound; FailedPrecondition] →
            tx_error [NotFound; FailedPrecondition] (ErrStatus c msg)) as Hst.
  { intros c msg Hc. right; right. by exists c, msg. }
  unfold Payments.TopUp_tx. apply fails_bind.
  { apply fails_query; [done|]. intros d e. unfold Payments.InsertTopupIdempotency.
    by destruct (_ !! _). }
  intros inserted. case_bool_decide.
  - apply fails_bind.
    + apply fails_query; [done|]. intros d e. unfold Payments.GetTopupIdempotency.
      destruct (_ !! _); [done|]. by intros [= <-].
    + intros existing. case_bool_decide; [|apply fails_ret].
      apply fails_fail, Hst. by repeat constructor.
  - apply fails_bind.
    + apply (fails_on_error_from _ (tx_error [NotFound; FailedPrecondition])).
      * apply fails_query; [done|]. intros d e. unfold Payments.TopUp.
        destruct (_ !! _); [done|]. by intros [= <-].
      * intros e He. apply fails_bind; [apply fails_ignore_error|]. intros _.
        destruct e; try (by apply fails_fail).
        apply fails_fail, Hst. by repeat constructor.
    + intros account. apply fails_bind; [|intros; apply fails_ret].
      apply fails_query; [done|]. intros d e. unfold Payments.SetTopupIdempotencyBalance.
      destruct (_ !! _); [done|]. by intros [= <-].
Qed.

(** What a failed TopUp returns and leaves behind. *)
Lemma Handlers_TopUp_failure req (w : World Payments.DB) e w' :
  Payments.Handlers_TopUp req w = (Err e, w') →
  db w' = db w ∧
  status_in [InvalidArgument; NotFound; FailedPrecondition; Internal] e.
Proof.
  intros E.
  assert (∀ c msg, c ∈ [InvalidArgument; NotFound; FailedPrecondition; Internal] →
            status_in [InvalidArgument; NotFound; FailedPrecondition; Internal]
              (ErrStatus c msg)) as Hst by (intros c msg ?; by exists c, msg).
  destruct (decide (Payments.tu_idempotency_key req = "")) as [Hk|Hk].
  - unfold Payments.Handlers_TopUp in E.
    repeat (case_bool_decide; [inversion E; split; [done|apply Hst; by repeat constructor]|]).
    rewrite bool_decide_eq_true_2 in E by done.
    unfold autocommit, on_error in E.
    destruct (query _ w) as [[acc|e0] w1] eqn:Eq; [done|].
    apply query_inv in Eq as (_ & _ & Hq).
    assert (db w1 = db w ∧ (e0 = ErrDb ∨ e0 = ErrNoRows)) as [Hd He].
    { destruct Hq as [[[= ->] ?]|[Hr ->]]; [by auto|]. revert Hr.
      unfold Payments.TopUp. destruct (_ !! _); [done|]. intros [= ->]. by auto. }
    destruct He as [-> | ->]; inversion E; subst;
      (split; [done|apply Hst; by repeat constructor]).
  - split; [by eapply Handlers_TopUp_err|].
    unfold Payments.Handlers_TopUp in E.
    repeat (case_bool_decide; [inversion E; apply Hst; by repeat constructor|]).
    rewrite bool_decide_eq_false_2 in E by done.
    revert E. apply fails_bind; [|intros [??]; apply fails_ret].
    apply fails_on_error_from with (Q := tx_error [NotFound; FailedPrecondition]).
    + apply fails_WithTx; [by left|apply TopUp_tx_fails].
    + intros e0 [->|[->|(c & msg & -> & Hc)]]; simpl; apply fails_fail; apply Hst;
        [by repeat constructor..|].
      clear -Hc. rewrite !elem_of_cons in *. tauto.
Qed.

(** X2. A TopUp that fails, with or without a key and under every schedule
    of database errors, hands the client a status error with code
    InvalidArgument, NotFound, FailedPrecondition or Internal and leaves
    every table as it was. *)
Theorem topup_failure_is_clean req (w : World Payments.DB) e w' :
  Payments.Handlers_TopUp req w = (Err e, w') →
  db w' = db w ∧
  status_in [InvalidArgument; NotFound; FailedPrecondition; Internal] e.
Proof. apply Handlers_TopUp_failure. Qed.

Lemma topup_failure_is_clean_witness :
  Payments.Handlers_TopUp example_topup_unkeyed Example.payments =
    (Err (ErrStatus NotFound "account not found"), Example.payments) ∧
  db Example.payments = db Example.payments ∧
  status_in [InvalidArgument; NotFound; FailedPrecondition; Internal]
    (ErrStatus NotFound "account not found").
Proof.
  assert (Payments.Handlers_TopUp example_topup_unkeyed Example.payments =
            (Err (ErrStatus NotFound "account not found"), Example.payments)) as E
    by reflexivity.
  split; [exact E|].
  exact (topup_failure_is_clean _ _ _ _ E).
Defined.

(** * Round trips of the queries *)

Global Instance keeps_unique_refl : Reflexive keeps_unique.
Proof. intros d Hd. exact Hd. Qed.

Global Instance keeps_unique_trans : Transitive keeps_unique.
Proof. intros d1 d2 d3 H12 H23 H1. apply H23, H12, H1. Qed.

(** X3. The statements of topup_idempotency.sql on a key that is not yet
    recorded: the insert reports 1 and stores the amount with balance 0, a
    second insert under the key reports 0 and changes nothing whatever
    its amount, the update sets the balance and keeps the amount, the
    delete brings the table back, and no other key is touched. *)
Theorem topup_idempotency_round_trip u k a b (d : Payments.DB) :
  Payments.topup_idempotency d !! (u, k) = None →
  let d1 := (Payments.InsertTopupIdempotency u k a d).2 in
  let d2 := (Payments.SetTopupIdempotencyBalance u k b d1).2 in
  (Payments.InsertTopupIdempotency u k a d).1 = Ok 1 ∧
  Payments.GetTopupIdempotency u k d1 = (Ok (Payments.mkTopupRow a 0), d1) ∧
  (∀ a', Payments.InsertTopupIdempotency u k a' d1 = (Ok 0, d1)) ∧
  (Payments.SetTopupIdempotencyBalance u k b d1).1 = Ok b ∧
  Payments.GetTopupIdempotency u k d2 = (Ok (Payments.mkTopupRow a b), d2) ∧
  (Payments.DeleteTopupIdempotency u k d2).2 = d ∧
  Payments.GetTopupIdempotency u k d = (Err ErrNoRows, d) ∧
  (∀ u' k', (u', k') ≠ (u, k) →
     Payments.topup_idempotency d2 !! (u', k') = Payments.topup_idempotency d !! (u', k')).
Proof.
  intros E d1 d2. subst d1 d2.
  unfold Payments.InsertTopupIdempotency, Payments.GetTopupIdempotency,
    Payments.SetTopupIdempotencyBalance, Payments.DeleteTopupIdempotency.
  rewrite E. simpl. rewrite !lookup_insert_eq. simpl. rewrite !lookup_insert_eq.
  split_and!; try done.
  - rewrite insert_insert_eq, delete_insert_eq, delete_id by done.
    by destruct d.
  - intros u' k' Hne. rewrite insert_insert_eq. by rewrite lookup_insert_ne.
Qed.

Lemma topup_idempotency_round_trip_witness :
  Payments.topup_idempotency Payments.empty_db !! ("u1", "k1") = None ∧
  (Payments.DeleteTopupIdempotency "u1" "k1"
     (Payments.SetTopupIdempotencyBalance "u1" "k1" 7
        (Payments.InsertTopupIdempotency "u1" "k1" 5 Payments.empty_db).2).2).2
  = Payments.empty_db.
Proof.
  assert (Payments.topup_idempotency Payments.empty_db !! ("u1", "k1") = None) as E
    by reflexivity.
  split; [exact E|].
  exact (proj1 (proj2 (proj2 (proj2 (proj2 (proj2
           (topup_idempotency_round_trip "u1" "k1" 5 7 Payments.empty_db E))))))).
Defined.

Lemma list_find_app_new {A} (P : A → Prop) `{!∀ x, Decision (P x)} (l : list A) x :
  ¬ Exists P l → P x → list_find P (l ++ [x]) = Some (length l, x).
Proof.
  intros Hl Hx. apply list_find_Some. split_and!.
  - by rewrite lookup_app_r, Nat.sub_diag by lia.
  - done.
  - intros j y Hj Hlt. rewrite lookup_app_l in Hj by done.
    intros Hy. apply Hl, Exists_exists. exists y. split; [|done].
    by eapply list_elem_of_lookup_2.
Qed.

(** X4. orders.sql, the keyed insert and its lookup: once
    CreateOrderIdempotent has returned a row, GetOrderByIdempotency finds
    that row under the user and key, a further keyed insert for them
    returns no row and changes nothing whatever its amount and
    description, and the first insert only appended its row. *)
Theorem keyed_insert_then_lookup nd u a desc k (d d1 : Orders.DB) row :
  Orders.CreateOrderIdempotent nd u a desc k d = (Ok row, d1) →
  Orders.GetOrderByIdempotency u k d1 = (Ok row, d1) ∧
  (∀ nd' a' desc',
     Orders.CreateOrderIdempotent nd' u a' desc' k d1 = (Err ErrNoRows, d1)) ∧
  d1 = Orders.set_orders (Orders.orders d ++ [row]) d ∧
  Orders.or_status row = "NEW" ∧ Orders.or_idempotency_key row = Some k.
Proof.
  unfold Orders.CreateOrderIdempotent at 1.
  destruct (bool_decide (Exists _ _)) eqn:Hex; [done|].
  apply bool_decide_eq_false in Hex.
  destruct (Orders.has_order_id _ _); [done|]. intros [= <- <-].
  set (row := Orders.mkOrderRow _ _ _ _ _ _ _).
  assert (Orders.has_idempotency u k row) as Hrow by done.
  pose proof (list_find_app_new (Orders.has_idempotency u k) (Orders.orders d) row
                Hex Hrow) as Hfind.
  split_and!; try done.
  - unfold Orders.GetOrderByIdempotency. simpl. by rewrite Hfind.
  - intros nd' a' desc'. unfold Orders.CreateOrderIdempotent. simpl.
    rewrite bool_decide_eq_true_2; [done|].
    apply Exists_app. right. by constructor.
Qed.

Lemma keyed_insert_then_lookup_witness :
  Orders.CreateOrderIdempotent Example.nd "u1" 300 "book" "k3" Orders.empty_db
  = (Ok (Example.order1 "NEW"), db Example.orders) ∧
  Orders.GetOrderByIdempotency "u1" "k3" (db Example.orders)
  = (Ok (Example.order1 "NEW"), db Example.orders).
Proof.
  assert (Orders.CreateOrderIdempotent Example.nd "u1" 300 "book" "k3" Orders.empty_db
          = (Ok (Example.order1 "NEW"), db Example.orders)) as E by reflexivity.
  split; [exact E|].
  exact (proj1 (keyed_insert_then_lookup _ _ _ _ _ _ _ _ E)).
Defined.

(** * The keys of the orders table *)

Lemma unique_same_orders d d' :
  Orders.orders d' = Orders.orders d → keeps_unique d d'.
Proof. intros E [Hid Hk]. unfold orders_unique. by rewrite E. Qed.

Lemma unique_append d row :
  Orders.has_order_id (Orders.or_order_id row) d = false →
  (∀ k, Orders.or_idempotency_key row = Some k →
        ¬ Exists (Orders.has_idempotency (Orders.or_user_id row) k) (Orders.orders d)) →
  keeps_unique d (Orders.set_orders (Orders.orders d ++ [row]) d).
Proof.
  intros Hid Hkey [Hnd Hk]. split; simpl.
  - rewrite fmap_app. simpl. apply NoDup_app. split_and!; [done| |apply NoDup_singleton].
    intros x Hx Hx'. apply list_elem_of_singleton in Hx' as ->.
    apply list_elem_of_fmap in Hx as (r & Er & Hr).
    unfold Orders.has_order_id in Hid. apply bool_decide_eq_false in Hid.
    apply Hid, Exists_exists. by exists r.
  - intros i j r1 r2 k Hi Hj Hu Hk1 Hk2.
    apply lookup_app_Some in Hi as [Hi|[Hil Hi]];
      apply lookup_app_Some in Hj as [Hj|[Hjl Hj]].
    + by eapply Hk.
    + apply list_lookup_singleton_Some in Hj as [Hj0 <-].
      exfalso. apply (Hkey k Hk2), Exists_exists. exists r1.
      split; [by eapply list_elem_of_lookup_2|]. by split.
    + apply list_lookup_singleton_Some in Hi as [Hi0 <-].
      exfalso. apply (Hkey k Hk1), Exists_exists. exists r2.
      split; [by eapply list_elem_of_lookup_2|]. by split.
    + apply list_lookup_singleton_Some in Hi as [Hi0 _].
      apply list_lookup_singleton_Some in Hj as [Hj0 _]. lia.
Qed.

Lemma update_if_new_keys oid s r :
  Orders.or_order_id (Orders.update_if_new oid s r) = Orders.or_order_id r ∧
  Orders.or_user_id (Orders.update_if_new oid s r) = Orders.or_user_id r ∧
  Orders.or_idempotency_key (Orders.update_if_new oid s r) = Orders.or_idempotency_key r.
Proof. unfold Orders.update_if_new. by case_bool_decide. Qed.

Lemma unique_update oid s d :
  keeps_unique d (Orders.UpdateOrderStatusIfNew oid s d).2.
Proof.
  intros [Hnd Hk]. split; simpl.
  - rewrite <- list_fmap_compose.
    erewrite list_fmap_ext; [exact Hnd|]. intros i r _. simpl.
    apply update_if_new_keys.
  - intros i j r1 r2 k Hi Hj Hu Hk1 Hk2.
    rewrite list_lookup_fmap in Hi, Hj.
    destruct (Orders.orders d !! i) as [r1'|] eqn:Ei; [|done].
    destruct (Orders.orders d !! j) as [r2'|] eqn:Ej; [|done].
    simpl in *. inversion Hi; subst r1. inversion Hj; subst r2.
    destruct (update_if_new_keys oid s r1') as (_ & Hu1 & Hkk1).
    destruct (update_if_new_keys oid s r2') as (_ & Hu2 & Hkk2).
    eapply (Hk i j r1' r2' k); congruence.
Qed.

Section OrdersKeys.
Context `{Wire}.

Lemma handleMessage_unique m : respects keeps_unique (Orders.handleMessage m).
Proof.
  unfold Orders.handleMessage, Orders.handleMessage_tx.
  repeat respects_step; (apply respects_query; [apply _|]; intros d).
  - unfold Orders.InsertInboxCheck. case_bool_decide; simpl; [done|].
    by apply unique_same_orders.
  - apply unique_update.
Qed.

Lemma CreateOrder_unique nd req :
  respects keeps_unique (Orders.Handlers_CreateOrder nd req).
Proof.
  unfold Orders.Handlers_CreateOrder, Orders.CreateOrder_tx, Orders.CreateOrder_insert.
  repeat respects_step;
    first [ apply respects_InsertOutbox; [apply _|]; intros d row';
            by apply unique_same_orders
          | apply respects_query; [apply _|]; intros d ].
  - unfold Orders.CreateOrder.
    destruct (Orders.has_order_id _ _) eqn:Hid; simpl; [done|].
    by apply unique_append.
  - unfold Orders.CreateOrderIdempotent.
    destruct (bool_decide (Exists _ _)) eqn:Hex; simpl; [done|].
    destruct (Orders.has_order_id _ _) eqn:Hid; simpl; [done|].
    apply unique_append; [done|]. simpl. intros k [= <-].
    by apply bool_decide_eq_false in Hex.
  - unfold Orders.GetOrderByIdempotency. by destruct (list_find _ _) as [[??]|].
Qed.

Lemma publish_rows_unique now rows :
  respects keeps_unique (Orders.publish_rows now rows).
Proof.
  induction rows as [|r rows IH]; simpl.
  - respects_step.
  - repeat respects_step; try exact IH;
      (apply respects_query; [apply _|]; intros d; by apply unique_same_orders).
Qed.

Lemma publishOnce_unique batch now :
  respects keeps_unique (Orders.publishOnce batch now).
Proof.
  unfold Orders.publishOnce. repeat respects_step.
  - apply respects_query; [apply _|]. intros d. reflexivity.
  - apply publish_rows_unique.
Qed.

(** X5. The orders table keeps its keys: along every sequence of
    CreateOrder calls, deliveries and publisher passes, under every
    schedule of database errors, no two rows share an order id and no two
    rows of one user carry the same idempotency key. *)
Theorem orders_keys_stay_unique (ops : list OrdersOp) (w : World Orders.DB) :
  orders_unique (db w) → orders_unique (db (orders_run ops w)).
Proof.
  revert w. induction ops as [|op ops IH]; intros w Hw; simpl; [done|].
  apply IH. revert Hw. destruct op; simpl.
  - apply CreateOrder_unique.
  - apply handleMessage_unique.
  - apply publishOnce_unique.
Qed.

End OrdersKeys.

Lemma orders_keys_stay_unique_witness :
  orders_unique (db Example.orders) ∧
  orders_unique
    (db (orders_run (H:=Example.wire)
           [OCreateOrder Example.nd example_order; ODeliver Example.succeeded_msg]
           Example.orders)).
Proof.
  assert (orders_unique (db Example.orders)) as Hu.
  { split; simpl.
    - apply NoDup_singleton.
    - intros [|i] [|j] r1 r2 k; simpl; try done. }
  split; [exact Hu|].
  exact (orders_keys_stay_unique (H:=Example.wire) _ _ Hu).
Defined.

(** * Reading orders: pages and tokens *)

Global Instance example_codec_laws : CodecLaws (H:=example_codec).
Proof.
  split; simpl; try done.
  intros n _. rewrite DecimalString.NilZero.isi.
  - simpl. by rewrite DecimalZ.of_to.
  - destruct n; simpl; try done. intros [= E]. by apply DecimalPos.Unsigned.to_uint_nonnil in E.
  - destruct n; simpl; try done. intros [= E]. by apply DecimalPos.Unsigned.to_uint_nonnil in E.
Qed.

Global Instance newer_trans : Transitive OrdersApi.newer.
Proof. intros r1 r2 r3. unfold OrdersApi.newer. lia. Qed.

Global Instance newer_total : Total OrdersApi.newer.
Proof. intros r1 r2. unfold OrdersApi.newer. lia. Qed.

Section Listing.
Context `{Wire} `{Codec} `{!CodecLaws}.

Lemma int32_small n : - 2 ^ 31 ≤ n < 2 ^ 31 → int32 n = n.
Proof. intros Hn. unfold int32. rewrite Z.mod_small; lia. Qed.

Lemma decode_encode n :
  - 2 ^ 31 ≤ n < 2 ^ 31 →
  OrdersApi.decodeOffset (OrdersApi.encodeOffset n) = Some n.
Proof.
  intros Hn. unfold OrdersApi.decodeOffset, OrdersApi.encodeOffset.
  rewrite base64_decode_encode, atoi_itoa by lia. by rewrite int32_small.
Qed.

Lemma encodeOffset_nonempty n :
  - 2 ^ 31 ≤ n < 2 ^ 31 → OrdersApi.encodeOffset n ≠ "".
Proof.
  intros Hn E. pose proof (decode_encode n Hn) as Hd. rewrite E in Hd.
  unfold OrdersApi.decodeOffset in Hd. rewrite base64_decode_empty, atoi_empty in Hd.
  done.
Qed.

(** One page without database errors: the token is empty for the first
    page and encodes the offset otherwise. *)
Lemma Handlers_ListOrders_page user limit o token w :
  faults w = [] → user ≠ "" → 0 < limit → 0 ≤ o → o + limit < 2 ^ 31 →
  (token = "" ∧ o = 0) ∨ token = OrdersApi.encodeOffset o →
  let rows := take (Z.to_nat limit)
                (drop (Z.to_nat o) (OrdersApi.orders_of user (db w))) in
  OrdersApi.Handlers_ListOrders (OrdersApi.mkListOrdersRequest user limit token) w =
  (Ok (OrdersApi.mkListOrdersResponse (Orders.order_of_row <$> rows)
         (if bool_decide (Z.of_nat (length rows) = limit)
          then OrdersApi.encodeOffset (o + limit) else "")), w).
Proof.
  intros Ef Hu Hl Ho Hol Ht rows.
  destruct w as [d fs s wf wr]; simpl in *; subst fs.
  unfold OrdersApi.Handlers_ListOrders. simpl.
  rewrite bool_decide_eq_false_2 by done.
  rewrite (bool_decide_eq_true_2 (0 < limit)) by done.
  assert ((if bool_decide (token ≠ "")
           then match OrdersApi.decodeOffset token with
                | Some n => ret n
                | None => fail (ErrStatus InvalidArgument "invalid page_token")
                end
           else ret 0) = ret (D:=Orders.DB) o) as Eo.
  { destruct Ht as [[-> ->]| ->].
    - by rewrite bool_decide_eq_false_2 by (by intros ?).
    - rewrite bool_decide_eq_true_2 by (apply encodeOffset_nonempty; lia).
      by rewrite decode_encode by lia. }
  rewrite Eo. unfold bind at 1. unfold ret at 1. unfold bind, on_error, autocommit.
  rewrite query_run. unfold OrdersApi.ListOrders at 1 2.
  rewrite bool_decide_eq_false_2 by lia. simpl. fold rows.
  unfold ret. rewrite int32_small by lia. done.
Qed.

End Listing.

Section Paging.
Context `{Wire} `{Codec} `{!CodecLaws}.

Lemma list_all_from user limit fuel o token w :
  faults w = [] → user ≠ "" → 0 < limit →
  Z.of_nat (length (OrdersApi.orders_of user (db w))) + limit < 2 ^ 31 →
  0 ≤ o ≤ Z.of_nat (length (OrdersApi.orders_of user (db w))) →
  (Z.of_nat (length (OrdersApi.orders_of user (db w))) - o) / limit < Z.of_nat fuel →
  (token = "" ∧ o = 0) ∨ token = OrdersApi.encodeOffset o →
  list_all fuel user limit token w =
  (Ok (Orders.order_of_row <$> drop (Z.to_nat o) (OrdersApi.orders_of user (db w))), w).
Proof.
  intros Ef Hu Hl Hn. revert o token.
  set (all := OrdersApi.orders_of user (db w)) in *.
  induction fuel as [|fuel IH]; intros o token Ho Hfuel Ht.
  { exfalso. assert (0 ≤ (Z.of_nat (length all) - o) / limit)
      by (apply Z.div_pos; lia). lia. }
  simpl. unfold bind at 1.
  rewrite (Handlers_ListOrders_page user limit o token w) by (done || lia).
  fold all. simpl.
  set (rows := take (Z.to_nat limit) (drop (Z.to_nat o) all)).
  assert (length rows = Z.to_nat limit `min` (length all - Z.to_nat o))%nat as Hlen.
  { unfold rows. by rewrite length_take, length_drop. }
  destruct (decide (Z.of_nat (length rows) = limit)) as [Hfull|Hfull].
  - rewrite (bool_decide_eq_true_2 _ Hfull).
    rewrite bool_decide_eq_false_2 by (apply encodeOffset_nonempty; lia).
    unfold bind.
    rewrite (IH (o + limit) (OrdersApi.encodeOffset (o + limit))); [| lia | | by right].
    + unfold ret. do 2 f_equal. rewrite <- fmap_app. f_equal.
      unfold rows.
      replace (Z.to_nat (o + limit)) with (Z.to_nat o + Z.to_nat limit)%nat by lia.
      rewrite <- drop_drop. apply take_drop.
    + replace (Z.of_nat (length all) - (o + limit))
        with ((Z.of_nat (length all) - o) + (-1) * limit) by lia.
      rewrite Z.div_add by lia. lia.
  - rewrite (bool_decide_eq_false_2 _ Hfull).
    rewrite bool_decide_eq_true_2 by done. unfold ret. do 3 f_equal.
    unfold rows. apply take_ge. rewrite length_drop. lia.
Qed.

(** X6. Paging through ListOrders visits every order once: a client that
    starts without a token and follows next_page_token until it is empty
    collects exactly the user's orders, newest first, when no database
    error occurs, the offsets stay in the int32 range and it is allowed
    enough pages. *)
Theorem paging_visits_every_order user limit fuel (w : World Orders.DB) :
  faults w = [] → user ≠ "" → 0 < limit →
  Z.of_nat (length (OrdersApi.orders_of user (db w))) + limit < 2 ^ 31 →
  Z.of_nat (length (OrdersApi.orders_of user (db w))) / limit < Z.of_nat fuel →
  list_all fuel user limit "" w =
  (Ok (Orders.order_of_row <$> OrdersApi.orders_of user (db w)), w).
Proof.
  intros Ef Hu Hl Hn Hfuel.
  rewrite (list_all_from user limit fuel 0 "" w); try done.
  - lia.
  - by rewrite Z.sub_0_r.
  - by left.
Qed.

End Paging.

Lemma paging_visits_every_order_witness :
  list_all (H:=Example.wire) (H0:=example_codec) 3 "u1" 2 "" example_listing =
  (Ok (Orders.order_of_row (H:=Example.wire) <$>
         OrdersApi.orders_of "u1" (db example_listing)), example_listing).
Proof.
  assert (faults example_listing = []) as Hf by reflexivity.
  assert ("u1" ≠ "") as Hu by done.
  assert (0 < 2) as Hl by lia.
  assert (Z.of_nat (length (OrdersApi.orders_of "u1" (db example_listing))) + 2 < 2 ^ 31)
    as Hn by (vm_compute; reflexivity).
  assert (Z.of_nat (length (OrdersApi.orders_of "u1" (db example_listing))) / 2
          < Z.of_nat 3) as Hfuel by (vm_compute; reflexivity).
  exact (paging_visits_every_order (H:=Example.wire) (H0:=example_codec)
           "u1" 2 3 example_listing Hf Hu Hl Hn Hfuel).
Defined.

Lemma orders_of_sorted user d : StronglySorted OrdersApi.newer (OrdersApi.orders_of user d).
Proof. unfold OrdersApi.orders_of. apply StronglySorted_merge_sort; apply _. Qed.

Lemma orders_of_elem user d r :
  r ∈ OrdersApi.orders_of user d ↔ r ∈ Orders.orders d ∧ Orders.or_user_id r = user.
Proof.
  unfold OrdersApi.orders_of. rewrite merge_sort_Permutation.
  rewrite list_elem_of_filter. tauto.
Qed.

Lemma ListOrders_rows user limit offset d rows :
  (OrdersApi.ListOrders user limit offset d).1 = Ok rows →
  0 ≤ limit →
  Z.of_nat (length rows) ≤ limit ∧
  StronglySorted OrdersApi.newer rows ∧
  (∀ r, r ∈ rows → r ∈ Orders.orders d ∧ Orders.or_user_id r = user).
Proof.
  unfold OrdersApi.ListOrders. case_bool_decide; [done|]. simpl. intros [= <-] Hl.
  split_and!.
  - rewrite length_take. lia.
  - pose proof (orders_of_sorted user d) as Hs.
    rewrite <- (take_drop (Z.to_nat offset) (OrdersApi.orders_of user d)) in Hs.
    apply StronglySorted_app_1_r in Hs.
    rewrite <- (take_drop (Z.to_nat limit) (drop _ _)) in Hs.
    by apply StronglySorted_app_1_l in Hs.
  - intros r Hr. apply orders_of_elem.
    eapply elem_of_sublist; [exact Hr|].
    etrans; [apply sublist_take|apply sublist_drop].
Qed.

Lemma ListOrders_db user limit offset d : (OrdersApi.ListOrders user limit offset d).2 = d.
Proof. unfold OrdersApi.ListOrders. by case_bool_decide. Qed.

Section ListOrders.
Context `{Wire} `{Codec}.

(** What a successful ListOrders returns. *)
Lemma Handlers_ListOrders_outcome req (w : World Orders.DB) resp w' :
  OrdersApi.Handlers_ListOrders req w = (Ok resp, w') →
  let limit := if bool_decide (0 < OrdersApi.lo_limit req)
               then OrdersApi.lo_limit req else 50 in
  db w' = db w ∧
  ∃ rows, OrdersApi.lr_orders resp = Orders.order_of_row <$> rows ∧
          Z.of_nat (length rows) ≤ limit ∧
          StronglySorted OrdersApi.newer rows ∧
          (∀ r, r ∈ rows →
                r ∈ Orders.orders (db w) ∧
                Orders.or_user_id r = OrdersApi.lo_user_id req) ∧
          (OrdersApi.lr_next_page_token resp ≠ "" → Z.of_nat (length rows) = limit).
Proof.
  intros E limit. unfold OrdersApi.Handlers_ListOrders in E.
  destruct (bool_decide (OrdersApi.lo_user_id req = "")) eqn:Hu; [done|].
  fold limit in E.
  assert (0 < limit) as Hl.
  { unfold limit. destruct (bool_decide (0 < OrdersApi.lo_limit req)) eqn:Hb; [|lia].
    by apply bool_decide_eq_true in Hb. }
  apply bind_ok in E as (offset & w1 & Eo & E).
  assert (w1 = w) as ->.
  { destruct (bool_decide (OrdersApi.lo_page_token req ≠ "")).
    - destruct (OrdersApi.decodeOffset _); [|done]. by apply ret_ok in Eo as [_ ->].
    - by apply ret_ok in Eo as [_ ->]. }
  apply bind_ok in E as (rows & w2 & Eq & E). apply ret_ok in E as [-> ->].
  apply on_error_ok in Eq as [Eq|(e & w3 & _ & Ef)]; [|done].
  apply query_ok in Eq as (Er & Hd & _).
  rewrite ListOrders_db in Hd. split; [done|].
  destruct (ListOrders_rows _ _ _ _ _ Er) as (Hlen & Hs & Hin); [lia|].
  exists rows. simpl. split_and!; try done.
  clear Eo. destruct (decide (Z.of_nat (length rows) = limit)) as [?|Hne]; [done|].
  by rewrite (bool_decide_eq_false_2 _ Hne).
Qed.

(** X7. What a successful ListOrders returns, for every request and under
    every schedule of database errors: nothing is written; the orders are
    rows of the table that belong to the requesting user, newest first
    (ties by descending order id), at most [limit] of them, where a limit
    that is not positive means 50; and a next_page_token is handed out
    only with a full page. *)
Theorem list_orders_shows_own_orders req (w : World Orders.DB) resp w' :
  OrdersApi.Handlers_ListOrders req w = (Ok resp, w') →
  let limit := if bool_decide (0 < OrdersApi.lo_limit req)
               then OrdersApi.lo_limit req else 50 in
  db w' = db w ∧
  ∃ rows, OrdersApi.lr_orders resp = Orders.order_of_row <$> rows ∧
          Z.of_nat (length rows) ≤ limit ∧
          StronglySorted OrdersApi.newer rows ∧
          (∀ r, r ∈ rows →
                r ∈ Orders.orders (db w) ∧
                Orders.or_user_id r = OrdersApi.lo_user_id req) ∧
          (OrdersApi.lr_next_page_token resp ≠ "" → Z.of_nat (length rows) = limit).
Proof. apply Handlers_ListOrders_outcome. Qed.

(** X8. A page token that decodes to a negative offset is not rejected as
    an invalid token: the offset reaches the query, the database refuses
    it, and the call fails with Internal under every schedule of database
    errors, leaving the database as it was. *)
Theorem negative_offset_fails_internal req n (w : World Orders.DB) :
  OrdersApi.lo_user_id req ≠ "" → OrdersApi.lo_page_token req ≠ "" →
  OrdersApi.decodeOffset (OrdersApi.lo_page_token req) = Some n → n < 0 →
  (OrdersApi.Handlers_ListOrders req w).1 = Err (ErrStatus Internal "failed to list orders") ∧
  db (OrdersApi.Handlers_ListOrders req w).2 = db w.
Proof.
  intros Hu Ht Hd Hn. unfold OrdersApi.Handlers_ListOrders.
  rewrite bool_decide_eq_false_2 by done.
  rewrite (bool_decide_eq_true_2 (OrdersApi.lo_page_token req ≠ "")) by done.
  rewrite Hd.
  set (limit := if bool_decide (0 < OrdersApi.lo_limit req)
                then OrdersApi.lo_limit req else 50).
  assert (∃ w1, query (OrdersApi.ListOrders (OrdersApi.lo_user_id req) limit n) w
                = (Err ErrDb, w1) ∧ db w1 = db w) as (w1 & Eq & Hd1).
  { destruct (query_cases (OrdersApi.ListOrders (OrdersApi.lo_user_id req) limit n) w)
      as [[fs ->]|[fs ->]].
    - by exists (set_faults fs w).
    - exists (set_faults fs w). unfold OrdersApi.ListOrders.
      rewrite bool_decide_eq_true_2 by lia. simpl. split; [|done].
      by destruct w. }
  cbv [bind ret on_error autocommit]. rewrite Eq. done.
Qed.

End ListOrders.

Lemma list_orders_shows_own_orders_witness :
  OrdersApi.Handlers_ListOrders (H:=Example.wire) (H0:=example_codec)
    (OrdersApi.mkListOrdersRequest "u1" 2 "") example_listing
  = (Ok (OrdersApi.mkListOrdersResponse
           [Orders.mkOrder (Example.to_string 4%N) "u1" 50 "cap" Orders.ORDER_STATUS_NEW 30;
            Orders.mkOrder (Example.to_string 3%N) "u1" 200 "ink"
              Orders.ORDER_STATUS_FINISHED 30] "2"), example_listing) ∧
  db example_listing = db example_listing.
Proof.
  assert (OrdersApi.Handlers_ListOrders (H:=Example.wire) (H0:=example_codec)
            (OrdersApi.mkListOrdersRequest "u1" 2 "") example_listing
          = (Ok (OrdersApi.mkListOrdersResponse
                   [Orders.mkOrder (Example.to_string 4%N) "u1" 50 "cap"
                      Orders.ORDER_STATUS_NEW 30;
                    Orders.mkOrder (Example.to_string 3%N) "u1" 200 "ink"
                      Orders.ORDER_STATUS_FINISHED 30] "2"), example_listing)) as E
    by (vm_compute; reflexivity).
  split; [exact E|].
  exact (proj1 (list_orders_shows_own_orders (H:=Example.wire) (H0:=example_codec)
                  _ _ _ _ E)).
Defined.

Lemma negative_offset_fails_internal_witness :
  @OrdersApi.decodeOffset example_codec "-5" = Some (-5) ∧
  (OrdersApi.Handlers_ListOrders (H:=Example.wire) (H0:=example_codec)
     (OrdersApi.mkListOrdersRequest "u1" 2 "-5") example_listing).1
  = Err (ErrStatus Internal "failed to list orders").
Proof.
  assert (@OrdersApi.decodeOffset example_codec "-5" = Some (-5)) as Hd
    by (vm_compute; reflexivity).
  assert ("u1" ≠ "") as Hu by done.
  assert ("-5" ≠ "") as Ht by done.
  assert (-5 < 0) as Hn by lia.
  split; [exact Hd|].
  exact (proj1 (negative_offset_fails_internal (H:=Example.wire) (H0:=example_codec)
                  (OrdersApi.mkListOrdersRequest "u1" 2 "-5") (-5) example_listing
                  Hu Ht Hd Hn)).
Defined.

(** * GetOrder and its cache *)

Lemma GetOrder_row oid user d row :
  (OrdersApi.GetOrder oid user d).1 = Ok row →
  row ∈ Orders.orders d ∧ Orders.or_order_id row = oid ∧ Orders.or_user_id row = user.
Proof.
  unfold OrdersApi.GetOrder.
  destruct (list_find _ _) as [[i r]|] eqn:Ef; [|done]. simpl. intros [= ->].
  apply list_find_Some in Ef as (Hi & [? ?] & _).
  split_and!; try done. by eapply list_elem_of_lookup_2.
Qed.

Lemma GetOrder_db oid user d : (OrdersApi.GetOrder oid user d).2 = d.
Proof. unfold OrdersApi.GetOrder. by destruct (list_find _ _) as [[??]|]. Qed.

Lemma on_db_GetOrder oid user s :
  (on_db (OrdersApi.GetOrder oid user) s).1 = (OrdersApi.GetOrder oid user (os_db s)).1 ∧
  (on_db (OrdersApi.GetOrder oid user) s).2 = s.
Proof.
  unfold on_db. pose proof (GetOrder_db oid user (os_db s)) as Hd.
  destruct (OrdersApi.GetOrder oid user (os_db s)) as [r d]. simpl in *. subst d.
  by destruct s.
Qed.

Lemma on_cache_inv {A} (op : OrderCache.Redis → A * OrderCache.Redis) w r w1 :
  on_cache op w = (r, w1) →
  r = Ok (op (os_redis (db w))).1 ∧
  os_db (db w1) = os_db (db w) ∧ os_redis (db w1) = (op (os_redis (db w))).2.
Proof.
  unfold on_cache. destruct (op _) as [a rd]. intros [= <- <-]. done.
Qed.

Section GetOrderLemmas.
Context `{Wire}.

Lemma order_of_cached_row r : order_of_cached (cached_of_row r) = Orders.order_of_row r.
Proof. done. Qed.

(** The read of the database after a cache miss. *)
Lemma GetOrder_from_db_inv cache oid req w r w1 :
  GetOrder_from_db cache oid req w = (r, w1) →
  os_db (db w1) = os_db (db w) ∧
  match r with
  | Ok o =>
      ∃ row, row ∈ Orders.orders (os_db (db w)) ∧ Orders.or_order_id row = oid ∧
             Orders.or_user_id row = go_user_id req ∧ o = Orders.order_of_row row ∧
             os_redis (db w1) =
               match cache with
               | Some _ => (OrderCache.SetOrder cache (cached_of_row row)
                              (os_redis (db w))).2
               | None => os_redis (db w)
               end
  | Err e => e = ErrStatus NotFound "order not found"
  end.
Proof.
  unfold GetOrder_from_db, bind, on_error, autocommit.
  destruct (query _ w) as [[row|e] w2] eqn:Eq.
  - apply query_ok in Eq as (Er & Hd & _).
    destruct (on_db_GetOrder oid (go_user_id req) (db w)) as [E1 E2].
    rewrite E1 in Er. rewrite E2 in Hd.
    apply GetOrder_row in Er as (Hin & Hid & Hu).
    destruct cache as [c|].
    + destruct (on_cache _ w2) as [[a|e] w3] eqn:Ec;
        apply on_cache_inv in Ec as (Ea & Hd3 & Hr3); [|done].
      intros [= <- <-]. rewrite Hd3, Hd. split; [done|].
      exists row. split_and!; try done. by rewrite Hr3, Hd.
    + intros [= <- <-]. rewrite Hd. split; [done|]. by exists row.
  - apply query_inv in Eq as (_ & _ & Hq). intros [= <- <-]. split; [|done].
    destruct Hq as [[_ ->]|[_ ->]]; [done|].
    by rewrite (proj2 (on_db_GetOrder oid (go_user_id req) (db w))).
Qed.

(** What GetOrder returns and leaves behind. *)
Lemma Handlers_GetOrder_outcome cache req (w : World OrdersStore) :
  match Handlers_GetOrder cache req w with
  | (Ok o, w') =>
      Orders.o_user_id o = go_user_id req ∧ os_db (db w') = os_db (db w) ∧
      (cache = None →
       ∃ row, row ∈ Orders.orders (os_db (db w)) ∧ o = Orders.order_of_row row ∧
              uuid_Parse (go_order_id req) = Some (Orders.or_order_id row))
  | (Err e, w') =>
      status_in [InvalidArgument; NotFound] e ∧ os_db (db w') = os_db (db w)
  end.
Proof.
  assert (∀ c msg, c ∈ [InvalidArgument; NotFound] →
            status_in [InvalidArgument; NotFound] (ErrStatus c msg)) as Hst
    by (intros c msg ?; by exists c, msg).
  assert (∀ oid w0 w1 r,
            uuid_Parse (go_order_id req) = Some oid →
            os_db (db w0) = os_db (db w) →
            (cache = None → os_redis (db w0) = os_redis (db w)) →
            GetOrder_from_db cache oid req w0 = (r, w1) →
            match r with
            | Ok o =>
                Orders.o_user_id o = go_user_id req ∧ os_db (db w1) = os_db (db w) ∧
                (cache = None →
                 ∃ row, row ∈ Orders.orders (os_db (db w)) ∧ o = Orders.order_of_row row ∧
                        uuid_Parse (go_order_id req) = Some (Orders.or_order_id row))
            | Err e =>
                status_in [InvalidArgument; NotFound] e ∧ os_db (db w1) = os_db (db w)
            end) as Hdb.
  { intros oid w0 w1 r Ep Hd0 Hr0 E. apply GetOrder_from_db_inv in E as (Hd & Hr).
    destruct r as [o|e].
    - destruct Hr as (row & Hin & Hid & Hu & -> & _). split_and!.
      + done.
      + congruence.
      + intros _. exists row. rewrite <- Hd0. split_and!; try done. by rewrite Hid.
    - subst e. split; [|congruence]. apply Hst. by repeat constructor. }
  unfold Handlers_GetOrder.
  destruct (_ || _). { simpl. split; [|done]. apply Hst. by repeat constructor. }
  destruct (uuid_Parse (go_order_id req)) as [oid|] eqn:Ep.
  2:{ simpl. split; [|done]. apply Hst. by repeat constructor. }
  unfold bind.
  destruct (on_cache _ w) as [[cached|e] w0] eqn:Ec;
    apply on_cache_inv in Ec as (Ea & Hd0 & Hr0); [|done].
  assert (cache = None → os_redis (db w0) = os_redis (db w) ∧ cached = OrderCache.Done None)
    as Hnone.
  { intros ->. rewrite Hr0. by inversion Ea. }
  destruct cached as [[c|]|].
  - case_bool_decide as Hu.
    + simpl. split_and!; try done. intros Hc. by destruct (Hnone Hc).
    + destruct (GetOrder_from_db cache oid req w0) as [r w1] eqn:E.
      eapply (Hdb oid w0 w1 r); try done. intros Hc. by destruct (Hnone Hc).
  - destruct (GetOrder_from_db cache oid req w0) as [r w1] eqn:E.
    eapply (Hdb oid w0 w1 r); try done. intros Hc. by destruct (Hnone Hc).
  - destruct (GetOrder_from_db cache oid req w0) as [r w1] eqn:E.
    eapply (Hdb oid w0 w1 r); try done. intros Hc. by destruct (Hnone Hc).
Qed.

(** X9. GetOrder never shows an order to anyone but its owner and never
    writes to the database, whatever the cache holds and under every
    schedule of database and cache errors; every failure is
    InvalidArgument or NotFound, a failure of the database included; and
    without a cache the answer is a row of the table with the requested id. *)
Theorem get_order_answers_owner cache req (w : World OrdersStore) :
  match Handlers_GetOrder cache req w with
  | (Ok o, w') =>
      Orders.o_user_id o = go_user_id req ∧ os_db (db w') = os_db (db w) ∧
      (cache = None →
       ∃ row, row ∈ Orders.orders (os_db (db w)) ∧ o = Orders.order_of_row row ∧
              uuid_Parse (go_order_id req) = Some (Orders.or_order_id row))
  | (Err e, w') =>
      status_in [InvalidArgument; NotFound] e ∧ os_db (db w') = os_db (db w)
  end.
Proof. apply Handlers_GetOrder_outcome. Qed.

End GetOrderLemmas.

Section StaleCache.
Context `{Wire}.

Lemma with_db_redis {A} (c : Sess Orders.DB A) w :
  os_redis (db (with_db c w).2) = os_redis (db w).
Proof. unfold with_db. by destruct (c _) as [r w']. Qed.

Lemma store_run_redis ops w : os_redis (db (store_run ops w)) = os_redis (db w).
Proof.
  revert w. induction ops as [|op ops IH]; intros w; [done|].
  change (store_run (op :: ops) w) with (store_run ops (store_step op w)).
  rewrite IH. destruct op; apply with_db_redis.
Qed.

(** A hit on an entry of the requesting user is the answer. *)
Lemma Handlers_GetOrder_hit c req oid entry w :
  go_user_id req ≠ "" → go_order_id req ≠ "" →
  uuid_Parse (go_order_id req) = Some oid →
  OrderCache.cache_faults (os_redis (db w)) = [] →
  OrderCache.data (os_redis (db w)) !! OrderCache.key (go_order_id req) = Some entry →
  OrderCache.UserID entry = go_user_id req →
  (Handlers_GetOrder (Some c) req w).1 = Ok (order_of_cached entry).
Proof.
  intros Hu Ho Ep Hf He Hue. unfold Handlers_GetOrder.
  rewrite !bool_decide_eq_false_2 by done. simpl. rewrite Ep.
  unfold bind, on_cache, OrderCache.Get. rewrite Hf, He. simpl.
  by rewrite bool_decide_eq_true_2.
Qed.

(** X10. The cache is never invalidated: once GetOrder has answered a
    request that names the order by its canonical id, with the cache
    configured and no cache error scheduled, the same answer is given
    after every sequence of CreateOrder calls, deliveries and publisher
    passes, whatever they did to the order's row. *)
Theorem cached_order_outlives_updates c req oid ops (w : World OrdersStore) o w1 :
  OrderCache.cache_faults (os_redis (db w)) = [] →
  uuid_Parse (go_order_id req) = Some oid →
  uuid_String oid = go_order_id req →
  Handlers_GetOrder (Some c) req w = (Ok o, w1) →
  (Handlers_GetOrder (Some c) req (store_run ops w1)).1 = Ok o.
Proof.
  intros Hf Ep Hcanon E.
  assert (go_user_id req ≠ "" ∧ go_order_id req ≠ "") as [Hu Ho].
  { unfold Handlers_GetOrder in E.
    destruct (decide (go_user_id req = "")) as [Hu|Hu].
    { by rewrite (bool_decide_eq_true_2 _ Hu) in E. }
    destruct (decide (go_order_id req = "")) as [Ho|Ho]; [|done].
    rewrite (bool_decide_eq_true_2 _ Ho) in E. by rewrite orb_true_r in E. }
  assert (∃ entry,
            OrderCache.data (os_redis (db w1)) !! OrderCache.key (go_order_id req)
              = Some entry ∧
            OrderCache.UserID entry = go_user_id req ∧
            order_of_cached entry = o ∧
            OrderCache.cache_faults (os_redis (db w1)) = []) as (entry & He & Hue & Ho1 & Hf1).
  { unfold Handlers_GetOrder in E.
    rewrite !bool_decide_eq_false_2 in E by done. simpl in E. rewrite Ep in E.
    unfold bind in E.
    destruct (on_cache _ w) as [[cached|e] w0] eqn:Ec;
      apply on_cache_inv in Ec as (Ea & Hd0 & Hr0); [|done].
    unfold OrderCache.Get in Ea, Hr0. rewrite Hf in Ea, Hr0. simpl in Ea, Hr0.
    inversion Ea as [Ecached]. clear Ea.
    assert (OrderCache.cache_faults (os_redis (db w0)) = []) as Hf0 by (by rewrite Hr0).
    assert (∀ w2, GetOrder_from_db (Some c) oid req w0 = (Ok o, w2) →
              ∃ entry,
                OrderCache.data (os_redis (db w2)) !! OrderCache.key (go_order_id req)
                  = Some entry ∧
                OrderCache.UserID entry = go_user_id req ∧
                order_of_cached entry = o ∧
                OrderCache.cache_faults (os_redis (db w2)) = []) as Hdb.
    { intros w2 E2. apply GetOrder_from_db_inv in E2 as (_ & row & _ & Hid & Hur & -> & Hr2).
      exists (cached_of_row row). rewrite Hr2.
      unfold OrderCache.SetOrder. rewrite Hf0. simpl.
      rewrite Hid, Hcanon, lookup_insert_eq. done. }
    destruct (OrderCache.data (os_redis (db w)) !! OrderCache.key (go_order_id req))
      as [entry|] eqn:He; subst cached; [|by apply Hdb].
    destruct (decide (OrderCache.UserID entry = go_user_id req)) as [Hue|Hue].
    - rewrite (bool_decide_eq_true_2 _ Hue) in E. apply ret_ok in E as [-> ->].
      exists entry. rewrite Hr0. done.
    - rewrite (bool_decide_eq_false_2 _ Hue) in E. by apply Hdb. }
  subst o. apply (Handlers_GetOrder_hit c req oid entry); try done.
  - by rewrite store_run_redis.
  - by rewrite store_run_redis.
Qed.

End StaleCache.

Lemma cached_order_outlives_updates_witness :
  Orders.orders
    (os_db (db (store_run (H:=Example.wire) [ODeliver Example.succeeded_msg]
                  example_store_read)))
    = [Example.order1 "FINISHED"] ∧
  (Handlers_GetOrder (H:=Example.wire) (Some (OrderCache.mkOrderCache 30))
     example_get
     (store_run (H:=Example.wire) [ODeliver Example.succeeded_msg] example_store_read)).1
  = Ok (Orders.order_of_row (H:=Example.wire) (Example.order1 "NEW")).
Proof.
  assert (OrderCache.cache_faults (os_redis (db example_store)) = []) as Hf
    by reflexivity.
  assert (uuid_Parse (Wire:=Example.wire) (go_order_id example_get) = Some 1%N) as Ep
    by reflexivity.
  assert (uuid_String (Wire:=Example.wire) 1%N = go_order_id example_get) as Hc
    by reflexivity.
  assert (Handlers_GetOrder (H:=Example.wire) (Some (OrderCache.mkOrderCache 30))
            example_get example_store
          = (Ok (Orders.order_of_row (H:=Example.wire) (Example.order1 "NEW")),
             example_store_read)) as E
    by reflexivity.
  split; [by vm_compute|].
  exact (cached_order_outlives_updates (H:=Example.wire) _ _ _
           [ODeliver Example.succeeded_msg] _ _ _ Hf Ep Hc E).
Defined.

(** * The gateway in front of the services *)

Global Instance example_strings_laws : GoStringsLaws (H:=example_strings).
Proof. by split. Qed.

Section CreateOrderStored.
Context `{Wire}.

Lemma CreateOrder_insert_row nd req w r w1 :
  Orders.CreateOrder_insert nd req w = (Ok r, w1) →
  match r with
  | inl resp =>
      ∃ row, row ∈ Orders.orders (db w) ∧ resp = Orders.order_of_row row ∧
             Orders.or_user_id row = Orders.co_user_id req ∧
             Orders.or_amount row = Orders.co_amount req ∧
             Orders.or_description row = Orders.co_description req
  | inr row =>
      Orders.or_idempotency_key row =
        if bool_decide (Orders.co_idempotency_key req = "") then None
        else Some (Orders.co_idempotency_key req)
  end.
Proof.
  unfold Orders.CreateOrder_insert.
  destruct (bool_decide (Orders.co_idempotency_key req = "")) eqn:Hk.
  - intros E. apply bind_ok in E as (row & w2 & Eq & Er). apply ret_ok in Er as [-> ->].
    apply query_ok in Eq as (E1 & _).
    unfold Orders.CreateOrder in E1. destruct (Orders.has_order_id _ _); [done|].
    simpl in E1. by inversion E1.
  - intros E. apply on_error_ok in E as [E|(e & w2 & Ei & Eh)].
    + apply bind_ok in E as (row & w2 & Eq & Er). apply ret_ok in Er as [-> ->].
      apply query_ok in Eq as (E1 & _).
      unfold Orders.CreateOrderIdempotent in E1.
      destruct (bool_decide (Exists _ _)); [done|].
      destruct (Orders.has_order_id _ _); [done|].
      simpl in E1. by inversion E1.
    + unfold bind in Ei.
      destruct (query _ w) as [[row|e0] w3] eqn:Eq; [done|].
      inversion Ei; subst e0 w3. clear Ei.
      apply query_inv in Eq as (_ & _ & Hq).
      assert (db w2 = db w) as Hd.
      { destruct Hq as [[_ ?]|[Hr ->]]; [done|]. revert Hr.
        unfold Orders.CreateOrderIdempotent.
        destruct (bool_decide (Exists _ _)); [done|].
        by destruct (Orders.has_order_id _ _). }
      destruct e; try done.
      apply bind_ok in Eh as (existing & w4 & Eg & Er).
      apply query_ok in Eg as (Eg & _).
      unfold Orders.GetOrderByIdempotency in Eg. rewrite Hd in Eg.
      destruct (list_find _ _) as [[i row]|] eqn:Ef; [|done].
      simpl in Eg. inversion Eg; subst existing. clear Eg.
      apply list_find_Some in Ef as (Hi & [Hu _] & _).
      destruct (bool_decide (Orders.or_amount row ≠ Orders.co_amount req)) eqn:Ha;
        [done|].
      destruct (bool_decide (Orders.or_description row ≠ Orders.co_description req))
        eqn:Hde; [done|].
      simpl in Er. apply ret_ok in Er as [-> ->].
      apply bool_decide_eq_false in Ha. apply bool_decide_eq_false in Hde.
      exists row. split_and!; try done.
      * by eapply list_elem_of_lookup_2.
      * by apply dec_stable.
      * by apply dec_stable.
Qed.

(** The order a successful CreateOrder answers with is a row of the
    table, with the request's user, amount and description; the call
    added no other row, and a row it added carries the request's key. *)
Lemma Handlers_CreateOrder_stored nd req w resp w' :
  Orders.Handlers_CreateOrder nd req w = (Ok resp, w') →
  ∃ row, row ∈ Orders.orders (db w') ∧ resp = Orders.order_of_row row ∧
         Orders.or_user_id row = Orders.co_user_id req ∧
         Orders.or_amount row = Orders.co_amount req ∧
         Orders.or_description row = Orders.co_description req ∧
         (∀ r', r' ∈ Orders.orders (db w') →
                r' ∈ Orders.orders (db w) ∨
                Orders.or_idempotency_key r' =
                  if bool_decide (Orders.co_idempotency_key req = "") then None
                  else Some (Orders.co_idempotency_key req)).
Proof.
  unfold Orders.Handlers_CreateOrder. intros E.
  repeat (case_bool_decide; [done|]).
  apply on_error_ok in E as [E|(e & w2 & _ & Eh)].
  2:{ by destruct (status_FromError e) as [[??]|]. }
  apply WithTx_ok in E as (fs & w2 & E & ->).
  unfold Orders.CreateOrder_tx in E.
  apply bind_ok in E as (r & w1 & Ei & E).
  pose proof (CreateOrder_insert_ok _ _ _ _ _ Ei) as (_ & Hdb).
  pose proof (CreateOrder_insert_row _ _ _ _ _ Ei) as Hrow.
  destruct r as [resp'|row].
  - apply ret_ok in E as [-> ->]. destruct Hdb as [Hd _].
    destruct Hrow as (row & Hin & -> & Hu & Ha & Hde). simpl in *.
    exists row. rewrite Hd. split_and!; try done. intros r' ?. by left.
  - destruct Hdb as (Hd & _ & Hu & Ha & Hde).
    apply bind_ok in E as (payload & w3 & Ep & E).
    apply on_error_ok in Ep as [Ep|(e & w4 & _ & Ef)]; [|done].
    apply of_option_ok in Ep as [_ ->].
    apply bind_ok in E as (id & w4 & Eo & E). apply ret_ok in E as [-> ->].
    apply InsertOutbox_ok in Eo as (_ & Hd4 & _ & _).
    assert (Orders.orders (db w4) = Orders.orders (db w) ++ [row]) as Ho.
    { rewrite Hd4. simpl. rewrite Hd. done. }
    exists row. rewrite Ho. split_and!; try done.
    + apply elem_of_app. right. by apply list_elem_of_singleton.
    + intros r' Hr'. apply elem_of_app in Hr' as [?|Hr']; [by left|].
      apply list_elem_of_singleton in Hr' as ->. by right.
Qed.

End CreateOrderStored.

Lemma status_in_cons c0 codes e : status_in codes e → status_in (c0 :: codes) e.
Proof. intros (c & msg & -> & Hc). exists c, msg. split; [done|by constructor]. Qed.

Lemma status_in_code codes c msg : status_in codes (ErrStatus c msg) → c ∈ codes.
Proof. by intros (c' & msg' & [= -> ->] & Hc). Qed.

(** A TopUp that passes validation fails only on a missing account, a
    reused key or the database. *)
Lemma Handlers_TopUp_valid_fails req :
  Payments.tu_user_id req ≠ "" → 0 < Payments.tu_amount req →
  fails_with (status_in [NotFound; FailedPrecondition; Internal])
    (Payments.Handlers_TopUp req).
Proof.
  intros Hu Ha w e w' E.
  destruct (Handlers_TopUp_failure req w e w' E) as (_ & c & msg & -> & Hc).
  exists c, msg. split; [done|].
  apply elem_of_cons in Hc as [->|Hc]; [|done]. exfalso.
  unfold Payments.Handlers_TopUp in E.
  rewrite !bool_decide_eq_false_2 in E by (done || lia).
  destruct (bool_decide (Payments.tu_idempotency_key req = "")).
  - unfold on_error, autocommit in E. destruct (query _ w) as [[?|e0] ?]; [done|].
    by destruct e0.
  - unfold bind, on_error in E.
    destruct (WithTx _ w) as [[[??]|e0] w1] eqn:Etx; [done|].
    pose proof (fails_WithTx (tx_error [NotFound; FailedPrecondition]) _
                  (or_introl eq_refl)
                  (TopUp_tx_fails _ _ _) _ _ _ Etx) as [->|[->|(c & m & -> & Hc)]];
      simpl in E; try done.
    inversion E; subst. rewrite !elem_of_cons in Hc.
    destruct Hc as [?|[?|Hc]]; try done. by apply elem_of_nil in Hc.
Qed.

Section CreateOrderValid.
Context `{Wire}.

(** A CreateOrder that passes validation fails only on a reused key or
    the database. *)
Lemma Handlers_CreateOrder_valid_fails nd req :
  Orders.co_user_id req ≠ "" → 0 < Orders.co_amount req →
  Orders.co_description req ≠ "" →
  fails_with (status_in [FailedPrecondition; Internal])
    (Orders.Handlers_CreateOrder nd req).
Proof.
  intros Hu Ha Hd w e w' E. unfold Orders.Handlers_CreateOrder in E.
  rewrite !bool_decide_eq_false_2 in E by (done || lia).
  assert (∀ c msg, c ∈ [FailedPrecondition; Internal] →
            status_in [FailedPrecondition; Internal] (ErrStatus c msg))
    as Hst by (intros c msg ?; by exists c, msg).
  revert E. apply fails_on_error_from with (Q := tx_error [FailedPrecondition; Internal]).
  - apply fails_WithTx; [by left|apply CreateOrder_tx_fails].
  - intros e0 [->|[->|(c & msg & -> & Hc)]]; simpl; apply fails_fail; apply Hst;
      [by repeat constructor..|done].
Qed.

End CreateOrderValid.

Section GatewayValidation.
Context `{Wire} `{GoStrings} `{!GoStringsLaws}.

Lemma TrimSpace_nonempty s : strings_TrimSpace s ≠ "" → s ≠ "".
Proof. intros Ht ->. apply Ht, TrimSpace_empty. Qed.

Lemma resolveUserID_nonempty header newID :
  newID ≠ "" → (Gateway.resolveUserID header newID).1 ≠ "".
Proof.
  intros Hn. unfold Gateway.resolveUserID. destruct header as [h|]; [|done].
  case_bool_decide as Ht; [|done]. simpl. by apply TrimSpace_nonempty.
Qed.

Lemma CreateOrder_request_valid XUserId IdempotencyKey newID body req :
  newID ≠ "" →
  Gateway.CreateOrder_request XUserId IdempotencyKey newID body = inr req →
  ∃ b, body = Gateway.Json b ∧
       req = Orders.mkCreateOrderRequest (Gateway.resolveUserID XUserId newID).1
               (Gateway.cb_amount b) (Gateway.cb_description b)
               (Gateway.getHeader IdempotencyKey) ∧
       Orders.co_user_id req ≠ "" ∧ 0 < Orders.co_amount req ∧
       Orders.co_description req ≠ "".
Proof.
  intros Hn. unfold Gateway.CreateOrder_request.
  destruct body as [|err|b]; simpl; try done.
  destruct (bool_decide (Gateway.cb_amount b ≤ 0)) eqn:Ha; [done|].
  destruct (bool_decide (strings_TrimSpace (Gateway.cb_description b) = "")) eqn:Hd;
    [done|].
  simpl. intros [= <-]. exists b. simpl.
  apply bool_decide_eq_false in Ha. apply bool_decide_eq_false in Hd.
  split_and!; try done.
  - by apply resolveUserID_nonempty.
  - lia.
  - by apply TrimSpace_nonempty.
Qed.

Lemma TopUpAccount_request_valid XUserId IdempotencyKey newID body req :
  newID ≠ "" →
  Gateway.TopUpAccount_request XUserId IdempotencyKey newID body = inr req →
  ∃ b, body = Gateway.Json b ∧
       req = Payments.mkTopUpRequest (Gateway.resolveUserID XUserId newID).1
               (Gateway.tb_amount b) (Gateway.getHeader IdempotencyKey) ∧
       Payments.tu_user_id req ≠ "" ∧ 0 < Payments.tu_amount req.
Proof.
  intros Hn. unfold Gateway.TopUpAccount_request.
  destruct body as [|err|b]; simpl; try done.
  destruct (bool_decide (Gateway.tb_amount b ≤ 0)) eqn:Ha; [done|].
  intros [= <-]. exists b. simpl. apply bool_decide_eq_false in Ha.
  split_and!; try done.
  - by apply resolveUserID_nonempty.
  - lia.
Qed.

(** X11. The gateway's own checks subsume the validation of the services:
    whatever the headers and the body, a CreateOrder, TopUp or
    CreateAccount request that the gateway sends on is never answered
    with InvalidArgument, under every schedule of database errors. *)
Theorem gateway_requests_pass_validation XUserId IdempotencyKey newID :
  newID ≠ "" →
  (∀ body req nd (w : World Orders.DB) c msg w',
     Gateway.CreateOrder_request XUserId IdempotencyKey newID body = inr req →
     Orders.Handlers_CreateOrder nd req w = (Err (ErrStatus c msg), w') →
     c ≠ InvalidArgument) ∧
  (∀ body req (w : World Payments.DB) c msg w',
     Gateway.TopUpAccount_request XUserId IdempotencyKey newID body = inr req →
     Payments.Handlers_TopUp req w = (Err (ErrStatus c msg), w') →
     c ≠ InvalidArgument) ∧
  (∀ body req (w : World Payments.DB) c msg w',
     Gateway.CreateAccount_request XUserId IdempotencyKey newID body = inr req →
     Payments.Handlers_CreateAccount req w = (Err (ErrStatus c msg), w') →
     c ≠ InvalidArgument).
Proof.
  intros Hn. split_and!.
  - intros body req nd w c msg w' Er E.
    apply (CreateOrder_request_valid _ _ _ _ _ Hn) in Er as (b & _ & _ & Hu & Ha & Hd).
    apply (Handlers_CreateOrder_valid_fails nd req Hu Ha Hd) in E.
    apply status_in_code in E. intros ->.
    rewrite !elem_of_cons in E. destruct E as [?|[?|E]]; try done.
    by apply elem_of_nil in E.
  - intros body req w c msg w' Er E.
    apply (TopUpAccount_request_valid _ _ _ _ _ Hn) in Er as (b & _ & _ & Hu & Ha).
    apply (Handlers_TopUp_valid_fails req Hu Ha) in E.
    apply status_in_code in E. intros ->.
    rewrite !elem_of_cons in E. destruct E as [?|[?|[?|E]]]; try done.
    by apply elem_of_nil in E.
  - intros body req w c msg w' Er E.
    unfold Gateway.CreateAccount_request in Er.
    destruct (Gateway.decodeOptionalJSON body); [done|]. inversion Er; subst req.
    unfold Payments.Handlers_CreateAccount in E. simpl in E.
    rewrite bool_decide_eq_false_2 in E by (by apply resolveUserID_nonempty).
    destruct (bool_decide (Gateway.getHeader IdempotencyKey = ""));
      unfold on_error, autocommit in E;
      destruct (query _ w) as [[?|e0] ?]; try done;
      destruct e0; inversion E; done.
Qed.

End GatewayValidation.

Lemma gateway_requests_pass_validation_witness :
  "generated-id" ≠ "" ∧
  ∀ body req nd (w : World Orders.DB) c msg w',
    Gateway.CreateOrder_request (H:=example_strings) None (Some "k1") "generated-id" body
      = inr req →
    Orders.Handlers_CreateOrder (H:=Example.wire) nd req w = (Err (ErrStatus c msg), w') →
    c ≠ InvalidArgument.
Proof.
  assert ("generated-id" ≠ "") as Hn by done.
  split; [exact Hn|].
  exact (proj1 (gateway_requests_pass_validation (H:=Example.wire) (H0:=example_strings)
                  None (Some "k1") "generated-id" Hn)).
Defined.

Section GatewayEndToEnd.
Context `{Wire} `{GoStrings} `{!GoStringsLaws}.

Lemma writeError_user userID status msg :
  userID ≠ "" →
  Gateway.writeError userID status msg =
  Gateway.mkResponse status (Gateway.ErrorResponse msg (Some userID)).
Proof.
  intros Hu. unfold Gateway.writeError, Gateway.writeJSON.
  by rewrite bool_decide_eq_true_2.
Qed.

(** X12. POST create-order through the gateway, with the orders service
    answering: the response is 201 with an order that is a row of the
    orders table carrying the resolved user and the body's amount and
    description, or it is a 400 or a 500 with an error body that names the
    user, and then the database is as before.  No other status occurs,
    under every schedule of database errors. *)
Theorem http_create_order nd XUserId IdempotencyKey newID body (w : World Orders.DB) :
  newID ≠ "" →
  let userID := (Gateway.resolveUserID XUserId newID).1 in
  let out := Gateway.CreateOrder (orders_CreateOrder nd) XUserId IdempotencyKey
               newID body w in
  (∃ b row,
     body = Gateway.Json b ∧ row ∈ Orders.orders (db out.2) ∧
     Orders.or_user_id row = userID ∧
     Orders.or_amount row = Gateway.cb_amount b ∧
     Orders.or_description row = Gateway.cb_description b ∧
     out.1 = Gateway.mkResponse 201
               (Gateway.CreateOrderResponse userID
                  (Gateway.mkOrder (uuid_String (Orders.or_order_id row)) userID
                     (Gateway.cb_amount b) (Gateway.cb_description b)
                     (Gateway.mapOrderStatus (Orders.mapOrderStatus (Orders.or_status row)))
                     (Some (Orders.or_created_at row))))) ∨
  (∃ status msg,
     (status = 400 ∨ status = 500) ∧
     out.1 = Gateway.mkResponse status (Gateway.ErrorResponse msg (Some userID)) ∧
     db out.2 = db w).
Proof.
  intros Hn userID out. subst out.
  assert (userID ≠ "") as Hu by (by apply resolveUserID_nonempty).
  unfold Gateway.CreateOrder. fold userID.
  destruct (Gateway.CreateOrder_request XUserId IdempotencyKey newID body)
    as [early|req] eqn:Er.
  - right. unfold Gateway.CreateOrder_request in Er. fold userID in Er.
    destruct (Gateway.decodeJSON body) as [err|b].
    + inversion Er. exists 400, err. rewrite writeError_user by done. simpl. auto.
    + destruct (_ || _); [|done]. inversion Er.
      eexists 400, _. rewrite writeError_user by done. simpl. auto.
  - apply (CreateOrder_request_valid _ _ _ _ _ Hn) in Er as (b & -> & -> & Hu' & Ha & Hd).
    fold userID. unfold orders_CreateOrder, served.
    destruct (Orders.Handlers_CreateOrder nd _ w) as [[resp|e] w'] eqn:E.
    + left. apply Handlers_CreateOrder_stored in E
        as (row & Hin & -> & Hur & Har & Hdr & _). simpl in *.
      exists b, row. split_and!; try done.
      unfold Gateway.writeJSON, pb_order. simpl. by rewrite Hur, Har, Hdr.
    + right. pose proof (Handlers_CreateOrder_err _ _ _ _ _ E) as Hdb.
      apply (Handlers_CreateOrder_valid_fails nd _ Hu' Ha Hd) in E
        as (c & msg & -> & Hc).
      simpl. rewrite !elem_of_cons in Hc.
      destruct Hc as [->|[->|Hc]]; [| |by apply elem_of_nil in Hc]; simpl;
        unfold Gateway.writeGRPCError; simpl; rewrite writeError_user by done.
      * exists 400, msg. auto.
      * exists 500, msg. auto.
Qed.

(** X13. POST top-up through the gateway, with the payments service
    answering: the response is 200 with the user and a balance, or it is a
    400, 404 or 500 with an error body that names the user, and then the
    database is as before.  No other status occurs, under every schedule
    of database errors. *)
Theorem http_top_up XUserId IdempotencyKey newID body (w : World Payments.DB) :
  newID ≠ "" →
  let userID := (Gateway.resolveUserID XUserId newID).1 in
  let out := Gateway.TopUpAccount payments_TopUp XUserId IdempotencyKey newID body w in
  (∃ b balance,
     body = Gateway.Json b ∧ 0 < Gateway.tb_amount b ∧
     out.1 = Gateway.mkResponse 200 (Gateway.TopUpAccountResponse userID balance)) ∨
  (∃ status msg,
     (status = 400 ∨ status = 404 ∨ status = 500) ∧
     out.1 = Gateway.mkResponse status (Gateway.ErrorResponse msg (Some userID)) ∧
     db out.2 = db w).
Proof.
  intros Hn userID out. subst out.
  assert (userID ≠ "") as Hu by (by apply resolveUserID_nonempty).
  unfold Gateway.TopUpAccount. fold userID.
  destruct (Gateway.TopUpAccount_request XUserId IdempotencyKey newID body)
    as [early|req] eqn:Er.
  - right. unfold Gateway.TopUpAccount_request in Er. fold userID in Er.
    destruct (Gateway.decodeJSON body) as [err|b].
    + inversion Er. exists 400, err. rewrite writeError_user by done. simpl. auto.
    + destruct (bool_decide _); [|done]. inversion Er.
      eexists 400, _. rewrite writeError_user by done. simpl. auto.
  - apply (TopUpAccount_request_valid _ _ _ _ _ Hn) in Er as (b & -> & -> & Hu' & Ha).
    fold userID. unfold payments_TopUp, served.
    destruct (Payments.Handlers_TopUp _ w) as [[acc|e] w'] eqn:E.
    + left. exists b, (Payments.acc_balance acc). done.
    + right. pose proof (Handlers_TopUp_failure _ _ _ _ E) as [Hdb _].
      apply (Handlers_TopUp_valid_fails _ Hu' Ha) in E as (c & msg & -> & Hc).
      simpl. rewrite !elem_of_cons in Hc.
      destruct Hc as [->|[->|[->|Hc]]]; [| | |by apply elem_of_nil in Hc]; simpl;
        unfold Gateway.writeGRPCError; simpl; rewrite writeError_user by done.
      * exists 404, msg. auto.
      * exists 400, msg. auto.
      * exists 500, msg. auto.
Qed.

(** X14. The middleware in front of POST create-order: a request without
    an Idempotency-Key, or with a blank one, is answered 400 and nothing
    runs; and every row that a POST adds to the orders table carries the
    key of the request's header, which is not blank.  So no order enters
    through the gateway without an idempotency key. *)
Theorem posted_orders_carry_a_key BasePath nd newID r body (w : World Orders.DB) :
  Method r = "POST" → String.prefix BasePath (Path r) = true →
  let out := post_orders BasePath nd newID r body w in
  (strings_TrimSpace (Header_Get (IdempotencyKey r)) = "" →
   out = (Gateway.mkResponse 400
            (Gateway.ErrorResponse "idempotency key is required"
               (if bool_decide (Header_Get (XUserId r) ≠ "")
                then Some (Header_Get (XUserId r)) else None)), w)) ∧
  (∀ row, row ∈ Orders.orders (db out.2) →
          row ∈ Orders.orders (db w) ∨
          ∃ k, IdempotencyKey r = Some k ∧ strings_TrimSpace k ≠ "" ∧
               Orders.or_idempotency_key row = Some k).
Proof.
  intros Hm Hp out. subst out. unfold post_orders, idempotency_middleware.
  rewrite Hp, (bool_decide_eq_true_2 _ Hm). simpl.
  destruct (decide (strings_TrimSpace (Header_Get (IdempotencyKey r)) = "")) as [Hk|Hk].
  { rewrite (bool_decide_eq_true_2 _ Hk). split; [done|]. intros row Hrow. by left. }
  rewrite (bool_decide_eq_false_2 _ Hk). split; [done|].
  destruct (IdempotencyKey r) as [k|] eqn:Ek.
  2:{ exfalso. apply Hk. simpl. apply TrimSpace_empty. }
  simpl in Hk. pose proof (TrimSpace_nonempty k Hk) as Hk'.
  intros row. unfold Gateway.CreateOrder.
  destruct (Gateway.CreateOrder_request (XUserId r) (Some k) newID body)
    as [early|req] eqn:Er; [by left|].
  assert (Orders.co_idempotency_key req = k) as Hreq.
  { unfold Gateway.CreateOrder_request in Er.
    destruct (Gateway.decodeJSON body); [done|]. destruct (_ || _); [done|].
    by inversion Er. }
  unfold orders_CreateOrder, served.
  destruct (Orders.Handlers_CreateOrder nd req w) as [[resp|e] w'] eqn:E.
  - apply Handlers_CreateOrder_stored in E as (row' & _ & _ & _ & _ & _ & Hrows).
    simpl. intros Hrow. destruct (Hrows row Hrow) as [?|Hkey]; [by left|].
    right. exists k. rewrite Hreq in Hkey.
    rewrite bool_decide_eq_false_2 in Hkey by done. done.
  - apply Handlers_CreateOrder_err in E.
    destruct (status_FromError e) as [[??]|]; simpl;
      unfold Gateway.writeGRPCError; destruct (grpc_error e); simpl;
      rewrite E; by left.
Qed.

End GatewayEndToEnd.

Lemma http_create_order_witness :
  "generated-id" ≠ "" ∧
  ((∃ b row,
      example_order_body = Gateway.Json b ∧
      row ∈ Orders.orders (db example_created.2) ∧
      Orders.or_user_id row = "u1" ∧
      Orders.or_amount row = Gateway.cb_amount b ∧
      Orders.or_description row = Gateway.cb_description b ∧
      example_created.1 =
        Gateway.mkResponse 201
          (Gateway.CreateOrderResponse "u1"
             (Gateway.mkOrder (Example.to_string (Orders.or_order_id row)) "u1"
                (Gateway.cb_amount b) (Gateway.cb_description b)
                (Gateway.mapOrderStatus (Orders.mapOrderStatus (Orders.or_status row)))
                (Some (Orders.or_created_at row))))) ∨
   (∃ status msg,
      (status = 400 ∨ status = 500) ∧
      example_created.1 =
        Gateway.mkResponse status (Gateway.ErrorResponse msg (Some "u1")) ∧
      db example_created.2 = db example_orders_empty)).
Proof.
  assert ("generated-id" ≠ "") as Hn by done.
  split; [exact Hn|].
  exact (http_create_order (H:=Example.wire) (H0:=example_strings) Example.nd
           (Some "u1") (Some "k3") "generated-id" example_order_body
           example_orders_empty Hn).
Defined.

Lemma http_top_up_witness :
  "generated-id" ≠ "" ∧
  ((∃ b balance,
      example_topup_body = Gateway.Json b ∧ 0 < Gateway.tb_amount b ∧
      example_topped_up.1 =
        Gateway.mkResponse 200 (Gateway.TopUpAccountResponse "u1" balance)) ∨
   (∃ status msg,
      (status = 400 ∨ status = 404 ∨ status = 500) ∧
      example_topped_up.1 =
        Gateway.mkResponse status (Gateway.ErrorResponse msg (Some "u1")) ∧
      db example_topped_up.2 = db Example.payments)).
Proof.
  assert ("generated-id" ≠ "") as Hn by done.
  split; [exact Hn|].
  exact (http_top_up (H0:=example_strings) (Some "u1") (Some "k1") "generated-id"
           example_topup_body Example.payments Hn).
Defined.

Lemma posted_orders_carry_a_key_witness :
  Method example_post_order = "POST" ∧
  String.prefix "/api/v1" (Path example_post_order) = true ∧
  Orders.or_idempotency_key <$> Orders.orders (db example_posted.2) = [Some "k3"] ∧
  ∀ row, row ∈ Orders.orders (db example_posted.2) →
         row ∈ Orders.orders (db example_orders_empty) ∨
         ∃ k, IdempotencyKey example_post_order = Some k ∧
              strings_TrimSpace (GoStrings:=example_strings) k ≠ "" ∧
              Orders.or_idempotency_key row = Some k.
Proof.
  assert (Method example_post_order = "POST") as Hm by reflexivity.
  assert (String.prefix "/api/v1" (Path example_post_order) = true) as Hp by reflexivity.
  split; [exact Hm|]. split; [exact Hp|]. split; [reflexivity|].
  exact (proj2 (posted_orders_carry_a_key (H:=Example.wire) (H0:=example_strings)
                  "/api/v1" Example.nd "generated-id" example_post_order
                  example_order_body example_orders_empty Hm Hp)).
Defined.

(** * The request logger and the statuses shown *)

Lemma requestLogger_snoc calls c :
  Logging.requestLogger (calls ++ [c]) = Logging.step (Logging.requestLogger calls) c.
Proof. unfold Logging.requestLogger. by rewrite foldl_app. Qed.

Lemma last_code_snoc calls c :
  Logging.last_code (calls ++ [c]) =
  match c with
  | Logging.WriteHeader code => Some code
  | _ => Logging.last_code calls
  end.
Proof. unfold Logging.last_code. by rewrite foldl_app. Qed.

Lemma last_code_app pre post :
  Logging.last_code (pre ++ post) =
  match Logging.last_code post with
  | Some code => Some code
  | None => Logging.last_code pre
  end.
Proof.
  induction post as [|c post IH] using rev_ind.
  - by rewrite app_nil_r.
  - rewrite app_assoc, !last_code_snoc. by destruct c.
Qed.

Lemma written_bytes_snoc calls c :
  Logging.written_bytes (calls ++ [c]) =
  Logging.written_bytes calls + match c with Logging.Write n => n | _ => 0 end.
Proof.
  induction calls as [|c0 calls IH]; simpl.
  - destruct c; lia.
  - rewrite IH. destruct c0; lia.
Qed.

(** X15. What the request logger records, for every sequence of calls the
    handler makes on the response writer: the byte count is the total the
    Write calls reported, and the status is the code of the last
    WriteHeader call (not of the first), or 200 when there was none; a
    code of 0 is recorded as 200 once something is written after it.  For
    the one WriteHeader and one Write of writeJSON it is the status of
    the response with the size of its body. *)
Theorem logger_records_last_status (calls : list Logging.call) :
  Logging.bytes (Logging.requestLogger calls) = Logging.written_bytes calls ∧
  (Logging.last_code calls = None →
   Logging.status (Logging.requestLogger calls) = 200) ∧
  (∀ code, Logging.last_code calls = Some code → code ≠ 0 →
           Logging.status (Logging.requestLogger calls) = code) ∧
  (∀ pre post, calls = pre ++ [Logging.WriteHeader 0] ++ post → post ≠ [] →
               Logging.last_code post = None →
               Logging.status (Logging.requestLogger calls) = 200) ∧
  (∀ resp n, calls = Logging.writeJSON_calls resp n →
             Gateway.resp_status resp ≠ 0 →
             Logging.requestLogger calls = Logging.mkWriter (Gateway.resp_status resp) n).
Proof.
  assert (∀ cs, Logging.bytes (Logging.requestLogger cs) = Logging.written_bytes cs) as Hb.
  { induction cs as [|c cs IH] using rev_ind; [done|].
    rewrite requestLogger_snoc, written_bytes_snoc. destruct c; simpl; lia. }
  assert (∀ cs, match Logging.last_code cs with
                | None => Logging.status (Logging.requestLogger cs) = 200
                | Some code =>
                    Logging.status (Logging.requestLogger cs) = code ∨
                    (Logging.status (Logging.requestLogger cs) = 200 ∧ code = 0)
                end) as Hs.
  { induction cs as [|c cs IH] using rev_ind; [done|].
    rewrite requestLogger_snoc, last_code_snoc. destruct c as [code|n]; simpl.
    - by left.
    - destruct (Logging.last_code cs) as [code|].
      + destruct IH as [IH|[IH ->]].
        * case_bool_decide as H0; [|by left]. right. split; [done|]. congruence.
        * rewrite IH. simpl. by right.
      + rewrite IH. done. }
  split_and!.
  - apply Hb.
  - intros E. specialize (Hs calls). by rewrite E in Hs.
  - intros code E Hne. specialize (Hs calls). rewrite E in Hs.
    destruct Hs as [?|[_ ?]]; done.
  - intros pre post -> Hpost Hl.
    destruct post as [|c post _] using rev_ind; [done|].
    rewrite !app_assoc, requestLogger_snoc.
    rewrite last_code_snoc in Hl. destruct c as [code|n]; [done|]. simpl.
    specialize (Hs ((pre ++ [Logging.WriteHeader 0]) ++ post)).
    assert (Logging.last_code ((pre ++ [Logging.WriteHeader 0]) ++ post) = Some 0) as E.
    { by rewrite last_code_app, Hl, last_code_snoc. }
    rewrite E in Hs. destruct Hs as [Hs|[Hs _]]; rewrite Hs; done.
  - intros resp n -> Hne. unfold Logging.requestLogger, Logging.writeJSON_calls. simpl.
    by rewrite bool_decide_eq_false_2.
Qed.

Global Instance keeps_statuses_refl : Reflexive keeps_statuses.
Proof. intros d Hd. exact Hd. Qed.

Global Instance keeps_statuses_trans : Transitive keeps_statuses.
Proof. intros d1 d2 d3 H12 H23 H1. apply H23, H12, H1. Qed.

Lemma statuses_same_orders d d' :
  Orders.orders d' = Orders.orders d → keeps_statuses d d'.
Proof. intros E Hd r. rewrite E. apply Hd. Qed.

Lemma statuses_append d row :
  Orders.or_status row = "NEW" →
  keeps_statuses d (Orders.set_orders (Orders.orders d ++ [row]) d).
Proof.
  intros Hn Hd r. simpl. rewrite elem_of_app, list_elem_of_singleton.
  intros [?| ->]; [by apply Hd|by left].
Qed.

Lemma statuses_update oid s d :
  terminal s → keeps_statuses d (Orders.UpdateOrderStatusIfNew oid s d).2.
Proof.
  intros Hs Hd r. simpl. rewrite list_elem_of_fmap. intros (r0 & -> & Hr0).
  unfold Orders.update_if_new. case_bool_decide; [|by apply Hd].
  simpl. destruct Hs as [->| ->]; auto.
Qed.

Section OrderStatuses.
Context `{Wire}.

Lemma handleMessage_statuses m : respects keeps_statuses (Orders.handleMessage m).
Proof.
  unfold Orders.handleMessage, Orders.handleMessage_tx.
  repeat respects_step; (apply respects_query; [apply _|]; intros d).
  - unfold Orders.InsertInboxCheck. case_bool_decide; simpl; [done|].
    by apply statuses_same_orders.
  - apply statuses_update, newStatus_terminal.
Qed.

Lemma CreateOrder_statuses nd req :
  respects keeps_statuses (Orders.Handlers_CreateOrder nd req).
Proof.
  unfold Orders.Handlers_CreateOrder, Orders.CreateOrder_tx, Orders.CreateOrder_insert.
  repeat respects_step;
    first [ apply respects_InsertOutbox; [apply _|]; intros d row';
            by apply statuses_same_orders
          | apply respects_query; [apply _|]; intros d;
            unfold Orders.CreateOrder, Orders.CreateOrderIdempotent,
              Orders.GetOrderByIdempotency;
            repeat case_match; simpl;
            first [ by apply statuses_append | reflexivity ] ].
Qed.

Lemma publish_rows_statuses now rows :
  respects keeps_statuses (Orders.publish_rows now rows).
Proof.
  induction rows as [|r rows IH]; simpl.
  - respects_step.
  - repeat respects_step; try exact IH;
      (apply respects_query; [apply _|]; intros d; by apply statuses_same_orders).
Qed.

Lemma publishOnce_statuses batch now :
  respects keeps_statuses (Orders.publishOnce batch now).
Proof.
  unfold Orders.publishOnce. repeat respects_step.
  - apply respects_query; [apply _|]. intros d. reflexivity.
  - apply publish_rows_statuses.
Qed.

(** X16. The status a client sees is the stored one.  Along every
    sequence of CreateOrder calls, deliveries and publisher passes, under
    every schedule of database errors, every order row carries NEW,
    FINISHED or CANCELLED, and the two status mappings on the way out
    (orders service, then gateway) give back exactly that string; a
    status outside the three would be shown as NEW. *)
Theorem shown_status_is_stored_status (ops : list OrdersOp) (w : World Orders.DB) :
  statuses_valid (db w) →
  (∀ r, r ∈ Orders.orders (db (orders_run ops w)) →
        Gateway.mapOrderStatus (Orders.mapOrderStatus (Orders.or_status r))
        = Orders.or_status r) ∧
  (∀ s, s ≠ "NEW" → s ≠ "FINISHED" → s ≠ "CANCELLED" →
        Gateway.mapOrderStatus (Orders.mapOrderStatus s) = "NEW").
Proof.
  intros Hw. split.
  - assert (statuses_valid (db (orders_run ops w))) as Hv.
    { revert w Hw. induction ops as [|op ops IH]; intros w Hw; simpl; [done|].
      apply IH. revert Hw. destruct op; simpl.
      - apply CreateOrder_statuses.
      - apply handleMessage_statuses.
      - apply publishOnce_statuses. }
    intros r Hr. destruct (Hv r Hr) as [->|[->| ->]]; done.
  - intros s H1 H2 H3. unfold Orders.mapOrderStatus.
    by rewrite !bool_decide_eq_false_2.
Qed.

End OrderStatuses.

Lemma shown_status_is_stored_status_witness :
  statuses_valid (db Example.orders) ∧
  ∀ r, r ∈ Orders.orders
             (db (orders_run (H:=Example.wire) [ODeliver Example.succeeded_msg]
                    Example.orders)) →
       Gateway.mapOrderStatus (Orders.mapOrderStatus (Orders.or_status r))
       = Orders.or_status r.
Proof.
  assert (statuses_valid (db Example.orders)) as Hv.
  { intros r Hr. simpl in Hr. apply list_elem_of_singleton in Hr as ->. by left. }
  split; [exact Hv|].
  exact (proj1 (shown_status_is_stored_status (H:=Example.wire)
                  [ODeliver Example.succeeded_msg] Example.orders Hv)).
Defined.

Lemma logger_records_last_status_witness :
  Logging.last_code [Logging.WriteHeader 404; Logging.Write 12; Logging.WriteHeader 500]
    = Some 500 ∧
  Logging.status
    (Logging.requestLogger
       [Logging.WriteHeader 404; Logging.Write 12; Logging.WriteHeader 500]) = 500.
Proof.
  assert (Logging.last_code
            [Logging.WriteHeader 404; Logging.Write 12; Logging.WriteHeader 500]
          = Some 500) as E by reflexivity.
  assert (500 ≠ 0) as Hne by lia.
  split; [exact E|].
  exact (proj1 (proj2 (proj2 (logger_records_last_status
           [Logging.WriteHeader 404; Logging.Write 12; Logging.WriteHeader 500])))
           500 E Hne).
Defined.

(** * The outbox beside the business tables *)

Global Instance same_pairing_refl : Reflexive same_pairing.
Proof. by intros d. Qed.

Global Instance same_pairing_trans : Transitive same_pairing.
Proof. intros d1 d2 d3 [? ?] [? ?]. split; congruence. Qed.

Global Instance same_boxes_refl : Reflexive same_boxes.
Proof. by intros d. Qed.

Global Instance same_boxes_trans : Transitive same_boxes.
Proof. intros d1 d2 d3 [? ?] [? ?]. split; congruence. Qed.

Lemma pairing_mark_sent now id (l : list OutboxRow) :
  (λ ob, (ob_topic ob, ob_kafka_key ob)) <$> (mark_sent now id <$> l) =
  (λ ob, (ob_topic ob, ob_kafka_key ob)) <$> l.
Proof.
  rewrite <- list_fmap_compose. apply list_fmap_ext. intros i r _. simpl.
  unfold mark_sent. by case_bool_decide.
Qed.

Lemma pairing_mark_failed id e (l : list OutboxRow) :
  (λ ob, (ob_topic ob, ob_kafka_key ob)) <$> (mark_failed id e <$> l) =
  (λ ob, (ob_topic ob, ob_kafka_key ob)) <$> l.
Proof.
  rewrite <- list_fmap_compose. apply list_fmap_ext. intros i r _. simpl.
  unfold mark_failed. by case_bool_decide.
Qed.

Lemma pairing_update oid s d :
  same_pairing d (Orders.UpdateOrderStatusIfNew oid s d).2.
Proof.
  split; [done|]. simpl. rewrite <- list_fmap_compose.
  apply list_fmap_ext. intros i r _. simpl. apply update_if_new_keys.
Qed.

Section Pairing.
Context `{Wire}.

Lemma handleMessage_pairing m : respects same_pairing (Orders.handleMessage m).
Proof.
  unfold Orders.handleMessage, Orders.handleMessage_tx.
  repeat respects_step; (apply respects_query; [apply _|]; intros d).
  - unfold Orders.InsertInboxCheck. by case_bool_decide.
  - apply pairing_update.
Qed.

Lemma publish_rows_pairing now rows :
  respects same_pairing (Orders.publish_rows now rows).
Proof.
  induction rows as [|r rows IH]; simpl.
  - respects_step.
  - repeat respects_step; try exact IH;
      (apply respects_query; [apply _|]; intros d; split; [|done]; simpl).
    + apply pairing_mark_sent.
    + apply pairing_mark_failed.
Qed.

Lemma publishOnce_pairing batch now :
  respects same_pairing (Orders.publishOnce batch now).
Proof.
  unfold Orders.publishOnce. repeat respects_step.
  - apply respects_query; [apply _|]. intros d. reflexivity.
  - apply publish_rows_pairing.
Qed.

Lemma same_pairing_keeps d d' :
  same_pairing d d' → outbox_pairs_orders d → outbox_pairs_orders d'.
Proof.
  intros [Ho Hr] Hd. unfold outbox_pairs_orders in *. rewrite Ho, Hd.
  change (λ r, ("payments.payment_requested.v1", uuid_String (Orders.or_order_id r)))
    with ((λ i, ("payments.payment_requested.v1", uuid_String i)) ∘ Orders.or_order_id).
  by rewrite !list_fmap_compose, Hr.
Qed.

Lemma CreateOrder_pairing nd req w :
  outbox_pairs_orders (db w) →
  outbox_pairs_orders (db (Orders.Handlers_CreateOrder nd req w).2).
Proof.
  intros Hd.
  destruct (Orders.Handlers_CreateOrder nd req w) as [[resp|e] w'] eqn:E; simpl.
  2:{ by rewrite (Handlers_CreateOrder_err _ _ _ _ _ E). }
  unfold Orders.Handlers_CreateOrder in E.
  repeat (case_bool_decide; [done|]).
  apply on_error_ok in E as [E|(e & w2 & _ & Eh)].
  2:{ by destruct (status_FromError e) as [[??]|]. }
  apply WithTx_ok in E as (fs & w2 & E & ->).
  apply CreateOrder_tx_effect in E
    as [[-> _]|(row & ob & -> & -> & _ & _ & _ & _ & _ & Ht & Hk & _)]; [done|].
  unfold outbox_pairs_orders in *. simpl in *.
  rewrite !fmap_app, Hd. simpl. by rewrite Ht, Hk.
Qed.

(** X17. The transactional outbox of the orders service.  Along every
    sequence of CreateOrder calls, deliveries and publisher passes, under
    every schedule of database errors, the outbox holds exactly one row
    per order, in the order of the orders table, on the PaymentRequested
    topic and keyed by the order id: no order without its event, no event
    without its order. *)
Theorem outbox_follows_orders (ops : list OrdersOp) (w : World Orders.DB) :
  outbox_pairs_orders (db w) → outbox_pairs_orders (db (orders_run ops w)).
Proof.
  revert w. induction ops as [|op ops IH]; intros w Hw; simpl; [done|].
  apply IH. destruct op; simpl.
  - by apply CreateOrder_pairing.
  - eapply same_pairing_keeps; [apply handleMessage_pairing|done].
  - eapply same_pairing_keeps; [apply publishOnce_pairing|done].
Qed.

Lemma Handlers_CreateAccount_boxes req :
  respects same_boxes (Payments.Handlers_CreateAccount req).
Proof.
  unfold Payments.Handlers_CreateAccount, autocommit.
  repeat respects_step; (apply respects_query; [apply _|]; intros d);
    unfold Payments.CreateAccount, Payments.CreateAccountIdempotent;
    by repeat case_match.
Qed.

Lemma Handlers_TopUp_boxes req :
  respects same_boxes (Payments.Handlers_TopUp req).
Proof.
  unfold Payments.Handlers_TopUp, Payments.TopUp_tx, autocommit.
  repeat respects_step;
    (apply respects_query; [apply _|]; intros d;
     unfold Payments.TopUp, Payments.InsertTopupIdempotency,
       Payments.GetTopupIdempotency, Payments.SetTopupIdempotencyBalance,
       Payments.DeleteTopupIdempotency;
     by repeat case_match).
Qed.

Lemma handleMessage_counts topic nd m w :
  outbox_counts_inbox (db w) →
  outbox_counts_inbox (db (Payments.handleMessage topic nd m w).2).
Proof.
  intros Hd.
  destruct (unmarshal_PaymentRequested (msg_value m)) as [ev|] eqn:Eu.
  2:{ unfold Payments.handleMessage. by rewrite Eu. }
  destruct (Payments.validate ev) as [[msgID orderID]|] eqn:Ev.
  2:{ unfold Payments.handleMessage. by rewrite Eu, Ev. }
  destruct (payments_handleMessage_db topic nd m ev msgID orderID w Eu Ev)
    as [->|(Hfresh & row & _ & _ & _ & ->)]; [done|].
  unfold outbox_counts_inbox in *. simpl.
  unfold after_debit. rewrite TryDeductOnce_inbox. simpl.
  rewrite length_app, map_size_insert_None by done. simpl. lia.
Qed.

(** X18. The payments consumer answers every event once.  Along every
    sequence of CreateAccount and TopUp calls and deliveries, under every
    schedule of database errors, the outbox has exactly as many rows as
    the inbox: an event leaves an inbox row and a PaymentResult row
    together or neither, and the commands touch neither table. *)
Theorem one_result_per_event (ops : list PaymentsOp) (w : World Payments.DB) :
  outbox_counts_inbox (db w) → outbox_counts_inbox (db (payments_run ops w)).
Proof.
  revert w. induction ops as [|op ops IH]; intros w Hw; simpl; [done|].
  apply IH. destruct op as [req|req|topic nd m]; simpl.
  - destruct (Handlers_CreateAccount_boxes req w) as [Hi Ho].
    unfold outbox_counts_inbox in *. by rewrite Hi, Ho.
  - destruct (Handlers_TopUp_boxes req w) as [Hi Ho].
    unfold outbox_counts_inbox in *. by rewrite Hi, Ho.
  - by apply handleMessage_counts.
Qed.

End Pairing.

Lemma outbox_follows_orders_witness :
  outbox_pairs_orders (H:=Example.wire) (db example_orders_empty) ∧
  outbox_pairs_orders (H:=Example.wire)
    (db (orders_run (H:=Example.wire)
           [OCreateOrder Example.nd example_order; ODeliver Example.succeeded_msg;
            OPublish 10 5] example_orders_empty)).
Proof.
  assert (outbox_pairs_orders (H:=Example.wire) (db example_orders_empty)) as Hw
    by reflexivity.
  split; [exact Hw|].
  exact (outbox_follows_orders (H:=Example.wire) _ _ Hw).
Defined.

Lemma one_result_per_event_witness :
  outbox_counts_inbox (db Example.payments) ∧
  outbox_counts_inbox
    (db (payments_run (H:=Example.wire)
           [PDeliver Example.result_topic Example.nd Example.requested_msg;
            PDeliver Example.result_topic Example.nd Example.requested_msg]
           Example.payments)).
Proof.
  assert (outbox_counts_inbox (db Example.payments)) as Hw by reflexivity.
  split; [exact Hw|].
  exact (one_result_per_event (H:=Example.wire) _ _ Hw).
Defined.

(** * GetBalance and the balance cache *)

Lemma with_pdb_inv {A} (c : Sess Payments.DB A) w r w1 :
  with_pdb c w = (r, w1) →
  c (payments_world w) = (r, payments_world w1) ∧ ps_redis (db w1) = ps_redis (db w).
Proof.
  unfold with_pdb. destruct (c (payments_world w)) as [r' w'] eqn:E.
  intros [= <- <-]. split; [|done]. by destruct w'.
Qed.

Lemma on_pcache_inv {A} (op : BalanceCache.Redis → A * BalanceCache.Redis) w r w1 :
  on_pcache op w = (r, w1) →
  r = Ok (op (ps_redis (db w))).1 ∧
  payments_world w1 = payments_world w ∧
  ps_redis (db w1) = (op (ps_redis (db w))).2.
Proof.
  unfold on_pcache. destruct (op _) as [a rd]. intros [= <- <-]. done.
Qed.

Lemma cache_balance_inv cache u b w r w1 :
  cache_balance cache u b w = (r, w1) →
  r = Ok () ∧ payments_world w1 = payments_world w ∧
  ps_redis (db w1) =
    match cache with
    | Some _ => (BalanceCache.SetBalance cache (BalanceCache.mkBalance u b)
                   (ps_redis (db w))).2
    | None => ps_redis (db w)
    end.
Proof.
  unfold cache_balance. destruct cache as [c|].
  - unfold bind. destruct (on_pcache _ w) as [[a|e] w2] eqn:Ec;
      apply on_pcache_inv in Ec as (Ea & Hw & Hr); [|done].
    intros [= <- <-]. done.
  - by intros [= <- <-].
Qed.

(** The cache does not take part in CreateAccount and TopUp: the answer
    and the database are those of the handlers without it. *)
Lemma Handlers_CreateAccount_cached_db cache req w :
  (Handlers_CreateAccount_cached cache req w).1 =
    (Payments.Handlers_CreateAccount req (payments_world w)).1 ∧
  payments_world (Handlers_CreateAccount_cached cache req w).2 =
    (Payments.Handlers_CreateAccount req (payments_world w)).2.
Proof.
  unfold Handlers_CreateAccount_cached, bind.
  destruct (with_pdb _ w) as [[acc|e] w1] eqn:E1;
    apply with_pdb_inv in E1 as [E1 _]; rewrite E1; [|done].
  destruct (cache_balance _ _ _ w1) as [r w2] eqn:E2.
  apply cache_balance_inv in E2 as (-> & Hw & _). simpl. by rewrite Hw.
Qed.

Lemma Handlers_TopUp_cached_db cache req w :
  (Handlers_TopUp_cached cache req w).1 =
    (Payments.Handlers_TopUp req (payments_world w)).1 ∧
  payments_world (Handlers_TopUp_cached cache req w).2 =
    (Payments.Handlers_TopUp req (payments_world w)).2.
Proof.
  unfold Handlers_TopUp_cached, Payments.Handlers_TopUp.
  repeat (case_bool_decide; [done|]).
  case_bool_decide.
  - unfold bind. destruct (with_pdb _ w) as [[acc|e] w1] eqn:E1;
      apply with_pdb_inv in E1 as [E1 _]; rewrite E1; [|done].
    destruct (cache_balance _ _ _ w1) as [r w2] eqn:E2.
    apply cache_balance_inv in E2 as (-> & Hw & _). simpl. rewrite Hw.
    by destruct acc.
  - unfold bind, with_pdb.
    destruct (on_error _ _ (payments_world w)) as [[[bal upd]|e] w'] eqn:E; simpl.
    2:{ split; [done|]. by destruct w'. }
    destruct upd.
    2:{ split; [done|]. by destruct w'. }
    destruct (cache_balance _ _ _ _) as [r w2] eqn:E2.
    apply cache_balance_inv in E2 as (-> & Hw & _). simpl. rewrite Hw.
    split; [done|]. by destruct w'.
Qed.

(** X19. The balance cache takes no part in the commands: with or without
    a cache, whatever it holds and whichever of its calls fail,
    CreateAccount and TopUp give the answer and leave the database, the
    schedule of database errors and the outbox sequence exactly as the
    handlers without the cache do. *)
Theorem cache_does_not_change_commands cache (w : World PaymentsStore) :
  (∀ req,
     (Handlers_CreateAccount_cached cache req w).1 =
       (Payments.Handlers_CreateAccount req (payments_world w)).1 ∧
     payments_world (Handlers_CreateAccount_cached cache req w).2 =
       (Payments.Handlers_CreateAccount req (payments_world w)).2) ∧
  (∀ req,
     (Handlers_TopUp_cached cache req w).1 =
       (Payments.Handlers_TopUp req (payments_world w)).1 ∧
     payments_world (Handlers_TopUp_cached cache req w).2 =
       (Payments.Handlers_TopUp req (payments_world w)).2).
Proof.
  split; intros req;
    [apply Handlers_CreateAccount_cached_db|apply Handlers_TopUp_cached_db].
Qed.

Lemma TopUp_tx_updates u k a w bal upd w2 :
  Payments.TopUp_tx u k a w = (Ok (bal, upd), w2) →
  Payments.topup_idempotency (db w) !! (u, k) = None →
  upd = true ∧ Payments.accounts (db w2) !! u = Some bal.
Proof.
  intros E Hnone. pose proof (TopUp_tx_ok _ _ _ _ _ _ _ E) as Hok.
  rewrite Hnone in Hok. destruct Hok as (c & Hc & -> & Hd).
  split.
  - unfold Payments.TopUp_tx in E.
    apply bind_ok in E as (ins & w1 & Eq & E).
    apply query_ok in Eq as (E1 & _).
    unfold Payments.InsertTopupIdempotency in E1. rewrite Hnone in E1.
    simpl in E1. inversion E1; subst ins. simpl in E.
    apply bind_ok in E as (acc & w3 & _ & E).
    apply bind_ok in E as (b' & w4 & _ & E).
    by apply ret_ok in E as [[= _ ->] _].
  - rewrite Hd. unfold topped_up. simpl. by rewrite lookup_insert_eq.
Qed.

Lemma Handlers_GetBalance_hit c u entry w :
  u ≠ "" →
  BalanceCache.cache_faults (ps_redis (db w)) = [] →
  BalanceCache.data (ps_redis (db w)) !! BalanceCache.key u = Some entry →
  (Handlers_GetBalance (Some c) u w).1 = Ok (BalanceCache.b_balance entry).
Proof.
  intros Hu Hf He. unfold Handlers_GetBalance.
  rewrite bool_decide_eq_false_2 by done.
  unfold bind, on_pcache, BalanceCache.Get. by rewrite Hf, He.
Qed.

Lemma cache_balance_stores c u b w w1 :
  BalanceCache.cache_faults (ps_redis (db w)) = [] →
  cache_balance (Some c) u b w = (Ok (), w1) →
  BalanceCache.data (ps_redis (db w1)) !! BalanceCache.key u
    = Some (BalanceCache.mkBalance u b) ∧
  BalanceCache.cache_faults (ps_redis (db w1)) = [] ∧
  payments_world w1 = payments_world w.
Proof.
  intros Hf E. apply cache_balance_inv in E as (_ & Hw & Hr).
  rewrite Hr. unfold BalanceCache.SetBalance. rewrite Hf. simpl.
  by rewrite lookup_insert_eq.
Qed.

(** X20. TopUp writes through the cache, except on a replay.  With the
    cache configured and none of its calls failing, after a TopUp that
    succeeds without a key, or with a key that was not recorded before,
    the account holds the balance of the response and GetBalance answers
    with it.  (The replay of a recorded key leaves the cache alone.) *)
Theorem topup_refreshes_cached_balance c req (w : World PaymentsStore) acc w1 :
  BalanceCache.cache_faults (ps_redis (db w)) = [] →
  Payments.tu_idempotency_key req = "" ∨
  Payments.topup_idempotency (ps_db (db w))
    !! (Payments.tu_user_id req, Payments.tu_idempotency_key req) = None →
  Handlers_TopUp_cached (Some c) req w = (Ok acc, w1) →
  Payments.accounts (ps_db (db w1)) !! Payments.tu_user_id req
    = Some (Payments.acc_balance acc) ∧
  (Handlers_GetBalance (Some c) (Payments.tu_user_id req) w1).1
    = Ok (Payments.acc_balance acc).
Proof.
  intros Hf Hfresh E. unfold Handlers_TopUp_cached in E.
  destruct (decide (Payments.tu_user_id req = "")) as [Hu|Hu].
  { by rewrite (bool_decide_eq_true_2 _ Hu) in E. }
  rewrite (bool_decide_eq_false_2 _ Hu) in E.
  destruct (bool_decide (Payments.tu_amount req ≤ 0)); [done|].
  assert (∀ w0 b w2,
            ps_redis (db w0) = ps_redis (db w) →
            cache_balance (Some c) (Payments.tu_user_id req) b w0 = (Ok (), w2) →
            Payments.accounts (ps_db (db w0)) !! Payments.tu_user_id req = Some b →
            Payments.accounts (ps_db (db w2)) !! Payments.tu_user_id req = Some b ∧
            (Handlers_GetBalance (Some c) (Payments.tu_user_id req) w2).1 = Ok b) as Hset.
  { intros w0 b w2 Hr Ec Ha.
    apply cache_balance_stores in Ec as (He & Hf2 & Hw); [|by rewrite Hr].
    split.
    - assert (ps_db (db w2) = ps_db (db w0)) as -> by (by inversion Hw). done.
    - by rewrite (Handlers_GetBalance_hit c _ _ w2 Hu Hf2 He). }
  destruct (decide (Payments.tu_idempotency_key req = "")) as [Hk|Hk].
  - rewrite (bool_decide_eq_true_2 _ Hk) in E.
    apply bind_ok in E as (account & w2 & Ed & E).
    apply with_pdb_inv in Ed as [Ed Hr].
    apply bind_ok in E as ([] & w3 & Ec & E). apply ret_ok in E as [-> ->].
    apply on_error_ok in Ed as [Ed|(e & w4 & _ & Eh)]; [|by destruct e].
    apply query_ok in Ed as (Er & Hd & _).
    unfold Payments.TopUp in Er, Hd. simpl in Er, Hd.
    destruct (Payments.accounts (ps_db (db w)) !! Payments.tu_user_id req)
      as [b0|] eqn:Ea; [|done].
    simpl in Er, Hd. inversion Er; subst account. simpl in *.
    apply (Hset w2 _ w3 Hr Ec). rewrite Hd. simpl. by rewrite lookup_insert_eq.
  - rewrite (bool_decide_eq_false_2 _ Hk) in E.
    destruct Hfresh as [?|Hnone]; [done|].
    apply bind_ok in E as ([bal upd] & w2 & Ed & E).
    apply with_pdb_inv in Ed as [Ed Hr].
    apply on_error_ok in Ed as [Ed|(e & w4 & _ & Eh)].
    2:{ by destruct (status_FromError e) as [[??]|]. }
    apply WithTx_ok in Ed as (fs & w5 & Etx & Hd).
    apply TopUp_tx_updates in Etx as [-> Ha]; [|done].
    apply bind_ok in E as ([] & w3 & Ec & E). apply ret_ok in E as [-> ->].
    simpl. apply (Hset w2 _ w3 Hr Ec). simpl in Hd. by rewrite Hd.
Qed.

Section StaleBalance.
Context `{Wire}.

Lemma deliveries_redis ms w : ps_redis (db (deliveries ms w)) = ps_redis (db w).
Proof.
  revert w. induction ms as [|[[topic nd] m] ms IH]; intros w; [done|].
  change (deliveries ((topic, nd, m) :: ms) w)
    with (deliveries ms (with_pdb (Payments.handleMessage topic nd m) w).2).
  rewrite IH. unfold with_pdb. by destruct (Payments.handleMessage _ _ _ _).
Qed.

(** X21. The consumer does not update the balance cache.  Once GetBalance
    has answered with the cache configured and none of its calls failing,
    it gives the same answer after every sequence of PaymentRequested
    deliveries, whatever they debited. *)
Theorem cached_balance_outlives_debits c u ms (w : World PaymentsStore) b w1 :
  BalanceCache.cache_faults (ps_redis (db w)) = [] →
  Handlers_GetBalance (Some c) u w = (Ok b, w1) →
  (Handlers_GetBalance (Some c) u (deliveries ms w1)).1 = Ok b.
Proof.
  intros Hf E. unfold Handlers_GetBalance in E.
  destruct (decide (u = "")) as [Hu|Hu].
  { by rewrite (bool_decide_eq_true_2 _ Hu) in E. }
  rewrite (bool_decide_eq_false_2 _ Hu) in E.
  assert (∃ entry,
            BalanceCache.data (ps_redis (db w1)) !! BalanceCache.key u = Some entry ∧
            BalanceCache.b_balance entry = b ∧
            BalanceCache.cache_faults (ps_redis (db w1)) = [])
    as (entry & He & Hb & Hf1).
  { apply bind_ok in E as (cached & w0 & Ec & E).
    apply on_pcache_inv in Ec as (Ea & Hw0 & Hr0).
    unfold BalanceCache.Get in Ea, Hr0. rewrite Hf in Ea, Hr0. simpl in Ea, Hr0.
    inversion Ea as [Ecached]. clear Ea.
    destruct (BalanceCache.data (ps_redis (db w)) !! BalanceCache.key u)
      as [entry|] eqn:He; subst cached.
    - apply ret_ok in E as [-> ->]. exists entry. by rewrite Hr0.
    - apply bind_ok in E as (balance & w2 & Ed & E).
      apply bind_ok in E as ([] & w3 & Ec & E). apply ret_ok in E as [-> ->].
      assert (ps_redis (db w2) = ps_redis (db w0)) as Hr2.
      { apply on_error_ok in Ed as [Ed|(e & w4 & _ & Eh)]; [|by destruct e].
        apply query_ok in Ed as (_ & Hd & _). rewrite Hd. unfold on_pdb.
        by destruct (GetBalance u (ps_db (db w0))). }
      apply cache_balance_stores in Ec as (He2 & Hf2 & _).
      + by eexists.
      + by rewrite Hr2, Hr0. }
  subst b. apply Handlers_GetBalance_hit; try done; by rewrite deliveries_redis.
Qed.

End StaleBalance.

Lemma topup_refreshes_cached_balance_witness :
  BalanceCache.cache_faults (ps_redis (db example_pstore)) = [] ∧
  (Handlers_GetBalance (Some (BalanceCache.mkBalanceCache 30)) "u1"
     (Handlers_TopUp_cached (Some (BalanceCache.mkBalanceCache 30))
        (Payments.mkTopUpRequest "u1" 5 "k1") example_pstore).2).1
  = Ok 1005.
Proof.
  assert (BalanceCache.cache_faults (ps_redis (db example_pstore)) = []) as Hf
    by reflexivity.
  assert (Payments.tu_idempotency_key (Payments.mkTopUpRequest "u1" 5 "k1") = "" ∨
          Payments.topup_idempotency (ps_db (db example_pstore))
            !! (Payments.tu_user_id (Payments.mkTopUpRequest "u1" 5 "k1"),
                Payments.tu_idempotency_key (Payments.mkTopUpRequest "u1" 5 "k1"))
          = None) as Hk by (right; reflexivity).
  assert (Handlers_TopUp_cached (Some (BalanceCache.mkBalanceCache 30))
            (Payments.mkTopUpRequest "u1" 5 "k1") example_pstore
          = (Ok (Payments.mkAccount "u1" 1005),
             (Handlers_TopUp_cached (Some (BalanceCache.mkBalanceCache 30))
                (Payments.mkTopUpRequest "u1" 5 "k1") example_pstore).2)) as E
    by (vm_compute; reflexivity).
  split; [exact Hf|].
  exact (proj2 (topup_refreshes_cached_balance _ _ _ _ _ Hf Hk E)).
Defined.

Lemma cached_balance_outlives_debits_witness :
  Payments.accounts
    (ps_db (db (deliveries (H:=Example.wire)
                  [(Example.result_topic, Example.nd, Example.requested_msg)]
                  example_pstore_read))) !! "u1" = Some 700 ∧
  (Handlers_GetBalance (Some (BalanceCache.mkBalanceCache 30)) "u1"
     (deliveries (H:=Example.wire)
        [(Example.result_topic, Example.nd, Example.requested_msg)]
        example_pstore_read)).1 = Ok 1000.
Proof.
  assert (BalanceCache.cache_faults (ps_redis (db example_pstore)) = []) as Hf
    by reflexivity.
  assert (Handlers_GetBalance (Some (BalanceCache.mkBalanceCache 30)) "u1" example_pstore
          = (Ok 1000, example_pstore_read)) as E by (vm_compute; reflexivity).
  split; [by vm_compute|].
  exact (cached_balance_outlives_debits (H:=Example.wire) _ _
           [(Example.result_topic, Example.nd, Example.requested_msg)] _ _ _ Hf E).
Defined.

(** * CreateAccount *)

(** What CreateAccount returns and does, by the way its one round trip
    ends. *)
Lemma Handlers_CreateAccount_cases req w :
  Payments.ca_user_id req ≠ "" →
  let u := Payments.ca_user_id req in
  let out := Payments.Handlers_CreateAccount req w in
  (out.1 = Err (ErrStatus Internal "failed to create account") ∧ db out.2 = db w) ∨
  match Payments.accounts (db w) !! u with
  | Some b =>
      db out.2 = db w ∧
      out.1 = if bool_decide (Payments.ca_idempotency_key req = "")
              then Err (ErrStatus AlreadyExists "account already exists")
              else Ok (Payments.mkAccount u b)
  | None =>
      out.1 = Ok (Payments.mkAccount u 0) ∧
      db out.2 = Payments.set_accounts (<[u := 0]> (Payments.accounts (db w))) (db w)
  end.
Proof.
  intros Hu u out. subst out. unfold Payments.Handlers_CreateAccount.
  rewrite bool_decide_eq_false_2 by done. fold u.
  destruct (bool_decide (Payments.ca_idempotency_key req = "")) eqn:Hk;
    unfold on_error, autocommit.
  - destruct (query_cases (Payments.CreateAccount u) w) as [[fs ->]|[fs ->]];
      [by left|].
    right. unfold Payments.CreateAccount.
    destruct (Payments.accounts (db w) !! u) as [b|]; simpl; done.
  - destruct (query_cases (Payments.CreateAccountIdempotent u) w) as [[fs ->]|[fs ->]];
      [by left|].
    right. unfold Payments.CreateAccountIdempotent.
    destruct (Payments.accounts (db w) !! u) as [b|]; simpl; done.
Qed.

(** X22. CreateAccount never resets a balance.  Whatever the request and
    the schedule of database errors: every account that exists keeps its
    balance; a success names the requested user and reports the balance
    the account then holds, 0 for a new one; an error leaves the database
    as it was and is InvalidArgument, AlreadyExists or Internal; and
    AlreadyExists is returned only without an idempotency key, so with a
    key the call on an existing account is a no-op that succeeds. *)
Theorem create_account_keeps_balances req (w : World Payments.DB) :
  (∀ u b, Payments.accounts (db w) !! u = Some b →
          Payments.accounts (db (Payments.Handlers_CreateAccount req w).2) !! u = Some b) ∧
  (∀ acc, (Payments.Handlers_CreateAccount req w).1 = Ok acc →
          Payments.acc_user_id acc = Payments.ca_user_id req ∧
          Payments.accounts (db (Payments.Handlers_CreateAccount req w).2)
            !! Payments.ca_user_id req = Some (Payments.acc_balance acc) ∧
          (Payments.accounts (db w) !! Payments.ca_user_id req = None →
           Payments.acc_balance acc = 0)) ∧
  (∀ e, (Payments.Handlers_CreateAccount req w).1 = Err e →
        db (Payments.Handlers_CreateAccount req w).2 = db w ∧
        status_in [InvalidArgument; AlreadyExists; Internal] e ∧
        (∀ msg, e = ErrStatus AlreadyExists msg →
                Payments.ca_idempotency_key req = "" ∧
                is_Some (Payments.accounts (db w) !! Payments.ca_user_id req))).
Proof.
  assert (∀ c msg, c ∈ [InvalidArgument; AlreadyExists; Internal] →
            status_in [InvalidArgument; AlreadyExists; Internal] (ErrStatus c msg))
    as Hst by (intros c msg ?; by exists c, msg).
  destruct (decide (Payments.ca_user_id req = "")) as [Hu|Hu].
  { unfold Payments.Handlers_CreateAccount. rewrite (bool_decide_eq_true_2 _ Hu).
    simpl. split_and!; try done. intros e [= <-]. split_and!; try done.
    apply Hst. by repeat constructor. }
  destruct (Handlers_CreateAccount_cases req w Hu) as [[Hr Hd]|Hc].
  { rewrite Hr, Hd. split_and!; try done. intros e [= <-]. split_and!; try done.
    apply Hst. by repeat constructor. }
  destruct (Payments.accounts (db w) !! Payments.ca_user_id req) as [b0|] eqn:Ea.
  - destruct Hc as [Hd Hr]. rewrite Hr, Hd.
    destruct (bool_decide (Payments.ca_idempotency_key req = "")) eqn:Hk.
    + apply bool_decide_eq_true in Hk. split_and!; try done.
      intros e [= <-]. split_and!; try done. apply Hst. by repeat constructor.
    + split_and!; try done. intros acc [= <-]. done.
  - destruct Hc as [Hr Hd]. rewrite Hr, Hd. simpl. split_and!; try done.
    + intros u b Hub. rewrite lookup_insert_ne; [done|]. intros <-. congruence.
    + intros acc [= <-]. simpl. by rewrite lookup_insert_eq.
Qed.

(** * Reads through the gateway *)

Section ReadLemmas.
Context `{Wire} `{Codec}.

Lemma Handlers_ListOrders_db req w :
  db (OrdersApi.Handlers_ListOrders req w).2 = db w.
Proof.
  symmetry. revert w. change (respects eq (OrdersApi.Handlers_ListOrders req)).
  unfold OrdersApi.Handlers_ListOrders.
  repeat respects_step.
  apply respects_query; [apply _|]. intros d. symmetry. apply ListOrders_db.
Qed.

Lemma Handlers_ListOrders_fails req :
  fails_with (status_in [InvalidArgument; Internal]) (OrdersApi.Handlers_ListOrders req).
Proof.
  assert (∀ c msg, c ∈ [InvalidArgument; Internal] →
            status_in [InvalidArgument; Internal] (ErrStatus c msg))
    as Hst by (intros c msg ?; by exists c, msg).
  unfold OrdersApi.Handlers_ListOrders.
  case_bool_decide; [apply fails_fail, Hst; by repeat constructor|].
  apply fails_bind.
  - case_bool_decide; [|apply fails_ret].
    destruct (OrdersApi.decodeOffset _); [apply fails_ret|].
    apply fails_fail, Hst. by repeat constructor.
  - intros offset. apply fails_bind; [|intros; apply fails_ret].
    apply fails_on_error. intros e. apply fails_fail, Hst. by repeat constructor.
Qed.

End ReadLemmas.

(** What GetBalance returns and leaves behind for a user that is named. *)
Lemma Handlers_GetBalance_outcome cache u (w : World PaymentsStore) r w' :
  u ≠ "" →
  Handlers_GetBalance cache u w = (r, w') →
  ps_db (db w') = ps_db (db w) ∧
  ((∃ b, r = Ok b) ∨
   r = Err (ErrStatus NotFound "account not found") ∨
   r = Err (ErrStatus Internal "failed to get balance")).
Proof.
  intros Hu. unfold Handlers_GetBalance. rewrite bool_decide_eq_false_2 by done.
  unfold bind at 1.
  destruct (on_pcache _ w) as [[cached|e] w0] eqn:Ec;
    apply on_pcache_inv in Ec as (Ea & Hw0 & _); [|done].
  assert (ps_db (db w0) = ps_db (db w)) as Hd0 by (by inversion Hw0).
  assert ((let* balance :=
               on_error (autocommit (on_pdb (GetBalance u)))
                 (λ err, match err with
                         | ErrNoRows => fail (ErrStatus NotFound "account not found")
                         | _ => fail (ErrStatus Internal "failed to get balance")
                         end) in
             let* _ := cache_balance cache u balance in ret balance) w0 = (r, w') →
            ps_db (db w') = ps_db (db w) ∧
            ((∃ b, r = Ok b) ∨ r = Err (ErrStatus NotFound "account not found") ∨
             r = Err (ErrStatus Internal "failed to get balance"))) as Hdb.
  { unfold bind at 1. unfold on_error, autocommit.
    destruct (query _ w0) as [[b|e] w2] eqn:Eq.
    - apply query_ok in Eq as (_ & Hd2 & _).
      assert (ps_db (db w2) = ps_db (db w0)) as Hd2'.
      { rewrite Hd2. unfold on_pdb, GetBalance. by destruct (_ !! _). }
      unfold bind. destruct (cache_balance cache u b w2) as [r2 w3] eqn:E2.
      apply cache_balance_inv in E2 as (-> & Hw3 & _). intros [= <- <-].
      split; [|left; by eexists].
      assert (ps_db (db w3) = ps_db (db w2)) as -> by (by inversion Hw3). congruence.
    - apply query_inv in Eq as (_ & _ & Hq).
      assert (ps_db (db w2) = ps_db (db w0) ∧ (e = ErrDb ∨ e = ErrNoRows)) as [Hd2 He].
      { destruct Hq as [[[= ->] ->]|[Hr ->]]; [by auto|]. revert Hr.
        unfold on_pdb, GetBalance. destruct (_ !! _); [done|]. simpl.
        intros [= ->]. by auto. }
      destruct He as [-> | ->]; intros [= <- <-]; (split; [congruence|auto]). }
  destruct cached as [[c|]|]; [|exact Hdb|exact Hdb].
  intros [= <- <-]. split; [done|]. left. by eexists.
Qed.

Section GatewayReads.
Context `{Wire} `{Codec} `{GoStrings} `{!GoStringsLaws}.

(** X23. Reads through the gateway show the caller's orders only.  With
    the orders service answering, under every schedule of database and
    cache errors: GET order answers 200 with an order whose user is the
    resolved user, or 400 or 404; GET orders answers 200 with orders that
    all carry the resolved user, or 400 or 500; an error body names the
    user; and neither writes to the database. *)
Theorem http_reads_show_own_orders XUserId newID :
  newID ≠ "" →
  (∀ cache orderId (w : World OrdersStore),
     os_db (db (Gateway.GetOrder (orders_GetOrder cache) XUserId newID orderId w).2)
       = os_db (db w) ∧
     ((∃ order,
         (Gateway.GetOrder (orders_GetOrder cache) XUserId newID orderId w).1 =
           Gateway.mkResponse 200
             (Gateway.GetOrderResponse (Gateway.resolveUserID XUserId newID).1 order) ∧
         Gateway.UserId order = (Gateway.resolveUserID XUserId newID).1) ∨
      (∃ status msg,
         (status = 400 ∨ status = 404) ∧
         (Gateway.GetOrder (orders_GetOrder cache) XUserId newID orderId w).1 =
           Gateway.mkResponse status
             (Gateway.ErrorResponse msg
                (Some (Gateway.resolveUserID XUserId newID).1))))) ∧
  (∀ Limit PageToken (w : World Orders.DB),
     db (Gateway.ListOrders orders_ListOrders XUserId newID Limit PageToken w).2 = db w ∧
     ((∃ orders,
         (Gateway.ListOrders orders_ListOrders XUserId newID Limit PageToken w).1 =
           Gateway.mkResponse 200
             (Gateway.ListOrdersResponse (Gateway.resolveUserID XUserId newID).1 orders) ∧
         Forall (λ o, Gateway.UserId o = (Gateway.resolveUserID XUserId newID).1) orders) ∨
      (∃ status msg,
         (status = 400 ∨ status = 500) ∧
         (Gateway.ListOrders orders_ListOrders XUserId newID Limit PageToken w).1 =
           Gateway.mkResponse status
             (Gateway.ErrorResponse msg
                (Some (Gateway.resolveUserID XUserId newID).1))))).
Proof.
  intros Hn. set (userID := (Gateway.resolveUserID XUserId newID).1).
  assert (userID ≠ "") as Hu by (by apply resolveUserID_nonempty).
  split.
  - intros cache orderId w. unfold Gateway.GetOrder. fold userID.
    unfold orders_GetOrder, served.
    pose proof (Handlers_GetOrder_outcome cache (mkGetOrderRequest userID orderId) w)
      as Ho.
    destruct (Handlers_GetOrder cache _ w) as [[o|e] w'] eqn:E.
    + destruct Ho as (Hou & Hd & _). simpl. split; [done|]. left.
      eexists. split; [reflexivity|]. done.
    + destruct Ho as ((c & msg & -> & Hc) & Hd). simpl. split.
      { unfold Gateway.writeGRPCError. simpl. done. }
      right. rewrite !elem_of_cons in Hc.
      destruct Hc as [->|[->|Hc]]; [| |by apply elem_of_nil in Hc];
        unfold Gateway.writeGRPCError; simpl; rewrite writeError_user by done.
      * exists 400, msg. auto.
      * exists 404, msg. auto.
  - intros Limit PageToken w. unfold Gateway.ListOrders. fold userID.
    unfold orders_ListOrders, served.
    set (req := OrdersApi.mkListOrdersRequest userID _ _).
    pose proof (Handlers_ListOrders_db req w) as Hd.
    destruct (OrdersApi.Handlers_ListOrders req w) as [[resp|e] w'] eqn:E.
    + simpl in *. split; [done|]. left. eexists. split; [reflexivity|].
      apply Handlers_ListOrders_outcome in E as (_ & rows & -> & _ & _ & Hrows & _).
      apply Forall_forall. intros o Ho.
      apply list_elem_of_omap in Ho as (po & Hpo & Hm).
      apply list_elem_of_fmap in Hpo as (oo & -> & Hoo).
      apply list_elem_of_fmap in Hoo as (row & -> & Hrow).
      simpl in Hm. inversion Hm; subst o. simpl.
      by destruct (Hrows row Hrow) as [_ ->].
    + simpl in *. split.
      { unfold Gateway.writeGRPCError. by destruct (grpc_error e). }
      right. apply Handlers_ListOrders_fails in E as (c & msg & -> & Hc).
      rewrite !elem_of_cons in Hc.
      destruct Hc as [->|[->|Hc]]; [| |by apply elem_of_nil in Hc];
        unfold Gateway.writeGRPCError; simpl; rewrite writeError_user by done.
      * exists 400, msg. auto.
      * exists 500, msg. auto.
Qed.

(** X24. GET balance through the gateway, with the payments service
    answering: a blank X-User-Id header is answered 400 with no user in
    the body and the service is not called; otherwise the answer is 200
    with the header's user and a balance, or 404 or 500 with an error
    body that names the user, and the payments database is never
    written, under every schedule of database and cache errors. *)
Theorem http_get_balance cache XUserId (w : World PaymentsStore) :
  (strings_TrimSpace XUserId = "" →
   Gateway.GetBalance (payments_GetBalance cache) XUserId w =
   (Gateway.mkResponse 400
      (Gateway.ErrorResponse "X-User-Id header is required" None), w)) ∧
  (strings_TrimSpace XUserId ≠ "" →
   ps_db (db (Gateway.GetBalance (payments_GetBalance cache) XUserId w).2)
     = ps_db (db w) ∧
   ((∃ b, (Gateway.GetBalance (payments_GetBalance cache) XUserId w).1 =
            Gateway.mkResponse 200 (Gateway.GetBalanceResponse XUserId b)) ∨
    (∃ status msg,
       (status = 404 ∨ status = 500) ∧
       (Gateway.GetBalance (payments_GetBalance cache) XUserId w).1 =
         Gateway.mkResponse status (Gateway.ErrorResponse msg (Some XUserId))))).
Proof.
  unfold Gateway.GetBalance. split; intros Ht.
  - by rewrite (bool_decide_eq_true_2 _ Ht).
  - rewrite (bool_decide_eq_false_2 _ Ht).
    pose proof (TrimSpace_nonempty _ Ht) as Hu.
    unfold payments_GetBalance, served.
    destruct (Handlers_GetBalance cache XUserId w) as [[b|e] w'] eqn:E;
      destruct (Handlers_GetBalance_outcome _ _ _ _ _ Hu E) as [Hd Hr]; simpl in *.
    + split; [done|]. left. by exists b.
    + split. { unfold Gateway.writeGRPCError. by destruct (grpc_error e). }
      right. destruct Hr as [[b Hb]|[[= ->]|[= ->]]]; [done| |];
        unfold Gateway.writeGRPCError; simpl; rewrite writeError_user by done.
      * exists 404, "account not found". auto.
      * exists 500, "failed to get balance". auto.
Qed.

End GatewayReads.

Lemma http_reads_show_own_orders_witness :
  "generated-id" ≠ "" ∧
  ∀ cache orderId (w : World OrdersStore),
    os_db (db (Gateway.GetOrder (H:=example_strings)
                 (orders_GetOrder (H:=Example.wire) cache) (Some "u1")
                 "generated-id" orderId w).2) = os_db (db w).
Proof.
  assert ("generated-id" ≠ "") as Hn by done.
  split; [exact Hn|].
  intros cache orderId w.
  exact (proj1 (proj1 (http_reads_show_own_orders (H:=Example.wire) (H0:=example_codec)
                         (H1:=example_strings) (Some "u1") "generated-id" Hn)
                  cache orderId w)).
Defined.

Lemma http_get_balance_witness :
  strings_TrimSpace (GoStrings:=example_strings) "u1" ≠ "" ∧
  ps_db (db (Gateway.GetBalance (H:=example_strings) (payments_GetBalance None) "u1"
               example_pstore).2) = ps_db (db example_pstore).
Proof.
  assert (strings_TrimSpace (GoStrings:=example_strings) "u1" ≠ "") as Hn by done.
  split; [exact Hn|].
  exact (proj1 (proj2 (http_get_balance (H1:=example_strings) None "u1" example_pstore)
                  Hn)).
Defined.
